(** * Port registry, localhost validator and plugin health checker

    A shallow embedding of three Python classes of the repository

    - [SmartPortRegistry]            (smart_port_registry.py),
    - [EfficientLocalhostValidator]  (efficient_localhost_validator.py),
    - [PluginHealthChecker]          (AI-SFX-Bolt/plugin_health_check.py),

    and the properties of the port-allocation registry, of the validation
    cache and of the health-check retry loop.

    The three classes talk to the operating system ([lsof], sockets, HTTP,
    AppleScript, the wall clock).  Every such interaction is an explicit
    event: the answer comes from an oracle that may depend on the whole
    history of interactions so far, and the event is appended to a trace.
    Quantifying over oracles is quantifying over every behaviour of the
    environment. *)

From Stdlib Require Import ZArith Lia.
From stdpp Require Import base tactics option list list_numbers strings pretty.

Local Open Scope Z_scope.

(** ** Python helpers shared by the three classes *)

(** [needle in haystack] on two [str]. *)
Fixpoint str_contains (needle hay : string) : bool :=
  String.prefix needle hay ||
  match hay with
  | EmptyString => false
  | String _ rest => str_contains needle rest
  end.

(** Truthiness of an [Optional[int]] and of an [Optional[str]]:
    [None], [0] and the empty string are falsy. *)
Definition truthy_int (o : option Z) : bool :=
  match o with Some z => negb (z =? 0) | None => false end.

Definition truthy_str (o : option string) : bool :=
  match o with Some s => negb (String.eqb s "") | None => false end.

(** The events appended during a run: those of [tr'] that come after the
    prefix [tr]. *)
Definition events_since {E} (tr tr' : list E) : list E := drop (length tr) tr'.

Lemma events_since_app {E} (tr evs : list E) : events_since tr (tr ++ evs) = evs.
Proof. unfold events_since. by rewrite drop_app_length. Qed.

(** ** Computations on a state

    The registry and the health checker are objects whose methods read and
    change attributes and talk to the system; a method is a function from
    the state before to a result and the state after. *)
Definition StateM (S A : Type) : Type := S → A * S.

Definition ret {S A} (a : A) : StateM S A := λ st, (a, st).
Definition bind {S A B} (m : StateM S A) (f : A → StateM S B) : StateM S B :=
  λ st, let '(a, st') := m st in f a st'.

Notation "x <- m ;; k" := (bind m (λ x, k))
  (at level 62, m at next level, right associativity).
Notation "m ;;; k" := (bind m (λ _, k))
  (at level 62, right associativity).

(** Reduce the pairs and projections left by a [destruct], without
    unfolding any operation. *)
Ltac red_pairs := cbv beta iota zeta delta [fst snd] in *.

(** ** Insertion-ordered dictionaries

    A Python [dict] keeps insertion order, and the registry is iterated in
    that order; it is an association list whose keys are pairwise distinct.
    The registry's keys are the strings [str(port)]; they are in bijection
    with the ports, so the dictionary is indexed by the port itself. *)
Section Dict.
Context {V : Type}.

Definition dict := list (Z * V).

Fixpoint dict_get (k : Z) (d : dict) : option V :=
  match d with
  | [] => None
  | (k', v) :: d' => if k' =? k then Some v else dict_get k d'
  end.

(** [d[k] = v]: an existing key keeps its position, a new key goes last. *)
Fixpoint dict_set (k : Z) (v : V) (d : dict) : dict :=
  match d with
  | [] => [(k, v)]
  | (k', v') :: d' => if k' =? k then (k, v) :: d' else (k', v') :: dict_set k v d'
  end.

(** [del d[k]] *)
Fixpoint dict_del (k : Z) (d : dict) : dict :=
  match d with
  | [] => []
  | (k', v') :: d' => if k' =? k then dict_del k d' else (k', v') :: dict_del k d'
  end.

Lemma dict_get_set_eq k v d : dict_get k (dict_set k v d) = Some v.
Proof.
  induction d as [|[k' v'] d IH]; simpl.
  - by rewrite Z.eqb_refl.
  - destruct (k' =? k) eqn:E; simpl; [by rewrite Z.eqb_refl | by rewrite E].
Qed.

Lemma dict_get_set_ne k k' v d : k ≠ k' → dict_get k' (dict_set k v d) = dict_get k' d.
Proof.
  intros Hne. induction d as [|[k0 v0] d IH]; simpl.
  - destruct (k =? k') eqn:E; [lia | done].
  - destruct (k0 =? k) eqn:E; simpl.
    + apply Z.eqb_eq in E. subst k0.
      destruct (k =? k') eqn:E'; [lia | done].
    + by rewrite IH.
Qed.

Lemma dict_get_del_eq k d : dict_get k (dict_del k d) = None.
Proof.
  induction d as [|[k' v'] d IH]; simpl; [done|].
  destruct (k' =? k) eqn:E; simpl; [done | by rewrite E].
Qed.

Lemma dict_get_del_ne k k' d : k ≠ k' → dict_get k' (dict_del k d) = dict_get k' d.
Proof.
  intros Hne. induction d as [|[k0 v0] d IH]; simpl; [done|].
  destruct (k0 =? k) eqn:E; simpl.
  - apply Z.eqb_eq in E. subst k0. destruct (k =? k') eqn:E'; [lia | done].
  - by rewrite IH.
Qed.

Lemma dict_get_del k k' d :
  dict_get k' (dict_del k d) = if k =? k' then None else dict_get k' d.
Proof.
  destruct (k =? k') eqn:E.
  - apply Z.eqb_eq in E. subst. apply dict_get_del_eq.
  - apply Z.eqb_neq in E. by apply dict_get_del_ne.
Qed.

Lemma dict_get_NoDup k v d : NoDup d.*1 → (k, v) ∈ d → dict_get k d = Some v.
Proof.
  induction d as [|[k' v'] d IH]; simpl; [by intros _ ?%elem_of_nil|].
  intros [Hnotin Hnd]%NoDup_cons [[= -> ->]|Hin]%elem_of_cons.
  - by rewrite Z.eqb_refl.
  - destruct (k' =? k) eqn:E; [|by apply IH].
    apply Z.eqb_eq in E. subst k'. destruct Hnotin.
    apply list_elem_of_fmap. by exists (k, v).
Qed.

(** Deleting a list of keys one after the other. *)
Definition dict_del_all (ks : list Z) (d : dict) : dict :=
  foldl (λ d k, dict_del k d) d ks.

Lemma dict_get_del_all ks k d :
  dict_get k (dict_del_all ks d) = if bool_decide (k ∈ ks) then None else dict_get k d.
Proof.
  unfold dict_del_all. revert d. induction ks as [|k0 ks IH]; intros d; simpl.
  - done.
  - rewrite IH, dict_get_del.
    destruct (decide (k = k0)) as [->|Hne].
    + rewrite Z.eqb_refl.
      rewrite (bool_decide_eq_true_2 (k0 ∈ k0 :: ks)) by apply list_elem_of_here.
      by destruct (bool_decide (k0 ∈ ks)).
    + destruct (k0 =? k) eqn:E; [lia|].
      destruct (decide (k ∈ ks)) as [Hin|Hin].
      * rewrite (bool_decide_eq_true_2 _ Hin).
        by rewrite bool_decide_eq_true_2 by (by apply list_elem_of_further).
      * rewrite (bool_decide_eq_false_2 _ Hin).
        rewrite bool_decide_eq_false_2; [done|].
        intros [?|?]%elem_of_cons; done.
Qed.
End Dict.

Arguments dict : clear implicits.

(** ** SmartPortRegistry (smart_port_registry.py) *)
Module Registry.

(** The [PortAllocation] dataclass.  [allocated_at] and [last_seen] hold
    [datetime.now().isoformat()]; they are only ever read back through
    [datetime.fromisoformat], so a time stamp is kept as the number of
    microseconds (the resolution of [datetime]) since the epoch. *)
Record PortAllocation := {
  port : Z;
  project_name : string;
  plugin_name : string;
  status : string;
  allocated_at : Z;
  last_seen : Z;
  process_id : option Z;
  debug_url : option string;
}.

Definition set_status (s : string) (a : PortAllocation) : PortAllocation :=
  {| port := port a; project_name := project_name a; plugin_name := plugin_name a;
     status := s; allocated_at := allocated_at a; last_seen := last_seen a;
     process_id := process_id a; debug_url := debug_url a |}.

Definition set_last_seen (t : Z) (a : PortAllocation) : PortAllocation :=
  {| port := port a; project_name := project_name a; plugin_name := plugin_name a;
     status := status a; allocated_at := allocated_at a; last_seen := t;
     process_id := process_id a; debug_url := debug_url a |}.

Definition set_debug_url (url : string) (a : PortAllocation) : PortAllocation :=
  {| port := port a; project_name := project_name a; plugin_name := plugin_name a;
     status := status a; allocated_at := allocated_at a; last_seen := last_seen a;
     process_id := process_id a; debug_url := Some url |}.

(** Interactions with the system. *)
Inductive Event :=
| Lsof (p : Z) (in_use : bool)      (* lsof -i :p, answer [returncode == 0] *)
| Now (t : Z)                       (* datetime.now() *)
| Validate (p : Z) (plugin : bool)  (* self.validator.validate_port(p), its 'is_plugin' *)
| Save (data : dict PortAllocation) (* the registry file is rewritten *).

(** The environment: what [lsof], the clock and the validator answer after
    a given history.  [lsof] answers [false] also when the subprocess
    raises or times out ([except: return False]), so "reported free" below
    includes a probe that could not be made. *)
Record Oracle := {
  lsof : list Event → Z → bool;
  clock : list Event → Z;
  is_plugin : list Event → Z → bool;
}.

(** One [SmartPortRegistry] object ([registry]) in its world: the
    registry file ([disk], [None] while it does not exist) and the
    history of interactions. *)
Record State := {
  registry : dict PortAllocation;
  disk : option (dict PortAllocation);
  trace : list Event;
}.

Definition M : Type → Type := StateM State.

Definition get_registry : M (dict PortAllocation) := λ st, (registry st, st).
Definition put_registry (r : dict PortAllocation) : M unit :=
  λ st, (tt, {| registry := r; disk := disk st; trace := trace st |}).

(** [timedelta(hours=24)] in microseconds. *)
Definition hours24 : Z := 24 * 3600 * 1000000.

(** [self.port_ranges] and [self.reserved_ports]. *)
Definition port_ranges : list (string * (Z * Z)) :=
  [("debug", (9230, 9250)); ("dev_server", (3001, 3020)); ("vite", (5173, 5180));
   ("webpack", (8080, 8090)); ("cep_legacy", (7002, 7010))].

Definition reserved_ports : list (Z * string) :=
  [(9230, "AI SFX Generator (Primary)"); (9231, "Text-Based Editing");
   (7002, "Legacy CEP Plugin")].

(** [port in self.reserved_ports] *)
Definition is_reserved (p : Z) : bool := bool_decide (p ∈ reserved_ports.*1).

(** [self.port_ranges.get(port_type, (9230, 9250))] *)
Fixpoint ranges_get (port_type : string) (rs : list (string * (Z * Z))) : Z * Z :=
  match rs with
  | [] => (9230, 9250)
  | (k, r) :: rs' => if String.eqb k port_type then r else ranges_get port_type rs'
  end.

(** [range(start_port, end_port + 1)] *)
Definition port_range (port_type : string) : list Z :=
  let '(start_port, end_port) := ranges_get port_type port_ranges in
  seqZ start_port (end_port + 1 - start_port).

Section WithOracle.
Context (O : Oracle).

Definition datetime_now : M Z :=
  λ st, let t := clock O (trace st) in
        (t, {| registry := registry st; disk := disk st; trace := trace st ++ [Now t] |}).

Definition _is_port_actually_in_use (p : Z) : M bool :=
  λ st, let b := lsof O (trace st) p in
        (b, {| registry := registry st; disk := disk st; trace := trace st ++ [Lsof p b] |}).

(** [self.validator.validate_port(port).get('is_plugin')]; the validator
    is a separate object with a cache and a file of its own, modelled
    below; here only its verdict counts. *)
Definition validator_finds_plugin (p : Z) : M bool :=
  λ st, let b := is_plugin O (trace st) p in
        (b, {| registry := registry st; disk := disk st; trace := trace st ++ [Validate p b] |}).

(** [_load_registry], as run by [__init__]: the in-memory registry is
    the file's content, or empty when there is no file. *)
Definition _load_registry (d : option (dict PortAllocation)) : dict PortAllocation :=
  match d with Some r => r | None => [] end.

Definition _save_registry : M unit :=
  λ st, (tt, {| registry := registry st; disk := Some (registry st);
                trace := trace st ++ [Save (registry st)] |}).

(** The first loop of [_cleanup_stale_allocations]: the keys to delete.
    The clock is read once per entry, [lsof] only for the old ones. *)
Fixpoint scan_stale (items : dict PortAllocation) : M (list Z) :=
  match items with
  | [] => ret []
  | (p, allocation) :: rest =>
      now <- datetime_now ;;
      if hours24 <? now - allocated_at allocation then
        in_use <- _is_port_actually_in_use p ;;
        stale <- scan_stale rest ;;
        ret (if in_use then stale else p :: stale)
      else scan_stale rest
  end.

Definition _cleanup_stale_allocations : M unit :=
  reg <- get_registry ;;
  stale_ports <- scan_stale reg ;;
  put_registry (dict_del_all stale_ports reg) ;;;
  match stale_ports with
  | [] => ret tt
  | _ :: _ => _save_registry
  end.

Definition _can_allocate_port (p : Z) : M bool :=
  if is_reserved p then ret false
  else
    reg <- get_registry ;;
    blocked <-
      match dict_get p reg with
      | Some allocation =>
          if bool_decide (status allocation ∈ ["active"; "reserved"]) then
            in_use <- _is_port_actually_in_use p ;;
            if in_use then ret true
            else put_registry (dict_set p (set_status "available" allocation) reg) ;;;
                 ret false
          else ret false
      | None => ret false
      end ;;
    if (blocked : bool) then ret false
    else in_use <- _is_port_actually_in_use p ;; ret (negb in_use).

Definition _register_allocation (p : Z) (project plugin : string) : M unit :=
  now <- datetime_now ;;
  reg <- get_registry ;;
  put_registry
    (dict_set p {| port := p; project_name := project; plugin_name := plugin;
                   status := "reserved"; allocated_at := now; last_seen := now;
                   process_id := None;
                   debug_url := Some ("http://localhost:" +:+ pretty p) |} reg) ;;;
  _save_registry.

(** The loop [for port in range(start_port, end_port + 1)]. *)
Fixpoint scan_range (ports : list Z) (project plugin : string) : M (option Z) :=
  match ports with
  | [] => ret None
  | p :: rest =>
      ok <- _can_allocate_port p ;;
      if (ok : bool) then _register_allocation p project plugin ;;; ret (Some p)
      else scan_range rest project plugin
  end.

(** [allocate_port]; [None] is the "no port available" answer. *)
Definition allocate_port (project plugin : string) (preferred_port : option Z)
    (port_type : string) : M (option Z) :=
  _cleanup_stale_allocations ;;;
  took_preferred <-
    match preferred_port with
    | Some p =>
        if truthy_int preferred_port then
          ok <- _can_allocate_port p ;;
          if (ok : bool) then _register_allocation p project plugin ;;; ret true
          else ret false
        else ret false
    | None => ret false
    end ;;
  if (took_preferred : bool) then ret preferred_port
  else scan_range (port_range port_type) project plugin.

(** [self.registry[port_str].attribute = value] *)
Definition update_allocation (p : Z) (f : PortAllocation → PortAllocation) : M unit :=
  reg <- get_registry ;;
  match dict_get p reg with
  | Some allocation => put_registry (dict_set p (f allocation) reg)
  | None => ret tt
  end.

(** [mark_port_active]: the status and [last_seen] change in memory at
    once; the file is rewritten only if the validator finds a plug-in. *)
Definition mark_port_active (p : Z) : M bool :=
  reg <- get_registry ;;
  match dict_get p reg with
  | Some _ =>
      update_allocation p (set_status "active") ;;;
      now <- datetime_now ;;
      update_allocation p (set_last_seen now) ;;;
      plugin <- validator_finds_plugin p ;;
      if (plugin : bool) then
        update_allocation p (set_debug_url ("http://localhost:" +:+ pretty p)) ;;;
        _save_registry ;;; ret true
      else ret false
  | None => ret false
  end.

(** [release_port]; the project is optional, and a falsy one ([None] or
    the empty string) skips the ownership test. *)
Definition release_port (p : Z) (project : option string) : M bool :=
  reg <- get_registry ;;
  match dict_get p reg with
  | Some allocation =>
      if truthy_str project &&
         negb (bool_decide (Some (project_name allocation) = project)) then ret false
      else put_registry (dict_del p reg) ;;; _save_registry ;;; ret true
  | None => ret false
  end.
End WithOracle.

(** [SmartPortRegistry()] in a world whose registry file holds [d]. *)
Definition init (d : option (dict PortAllocation)) (tr : list Event) : State :=
  {| registry := _load_registry d; disk := d; trace := tr |}.

(** A quiet machine: nothing listens anywhere, the clock stands at [t]. *)
Definition all_free (t : Z) : Oracle :=
  {| lsof := λ _ _, false; clock := λ _, t; is_plugin := λ _ _, false |}.

Arguments _register_allocation : simpl never.
Arguments _can_allocate_port : simpl never.
Arguments _cleanup_stale_allocations : simpl never.

(** *** How the trace grows *)

(** [st'] is [st] after some more interaction. *)
Definition extends (st st' : State) : Prop := ∃ evs, trace st' = trace st ++ evs.

(** Between [st] and [st'], [lsof] was asked about [q] and answered that
    nothing is bound to it. *)
Definition probed_free (O : Oracle) (st st' : State) (q : Z) : Prop :=
  ∃ evs1 evs2, trace st' = trace st ++ evs1 ++ Lsof q false :: evs2 ∧
               lsof O (trace st ++ evs1) q = false.

Lemma extends_refl st : extends st st.
Proof. exists []. by rewrite app_nil_r. Qed.

Lemma extends_trans st1 st2 st3 : extends st1 st2 → extends st2 st3 → extends st1 st3.
Proof. intros [e1 H1] [e2 H2]. exists (e1 ++ e2). by rewrite H2, H1, app_assoc. Qed.

Lemma probed_free_before O st0 st st' q :
  extends st0 st → probed_free O st st' q → probed_free O st0 st' q.
Proof.
  intros [e0 H0] (evs1 & evs2 & Htr & Hans). exists (e0 ++ evs1), evs2.
  rewrite H0 in Htr, Hans. by rewrite Htr, !app_assoc in *.
Qed.

Lemma probed_free_after O st st1 st' q :
  probed_free O st st1 q → extends st1 st' → probed_free O st st' q.
Proof.
  intros (evs1 & evs2 & Htr & Hans) [e1 H1]. exists evs1, (evs2 ++ e1).
  split; [|done]. rewrite H1, Htr. by rewrite <- !app_assoc.
Qed.

Ltac unfold_m :=
  unfold bind, ret, get_registry, put_registry, _save_registry, datetime_now,
    _is_port_actually_in_use in *.

Section Steps.
Context (O : Oracle).

Lemma _register_allocation_extends p project plugin st :
  extends st (_register_allocation O p project plugin st).2.
Proof. unfold _register_allocation. unfold_m. simpl. eexists. by rewrite <- app_assoc. Qed.

Lemma _can_allocate_port_extends p st : extends st (_can_allocate_port O p st).2.
Proof.
  unfold _can_allocate_port. destruct (is_reserved p); [apply extends_refl|].
  unfold_m. simpl.
  destruct (dict_get p (registry st)) as [a|]; simpl.
  - destruct (bool_decide _); simpl.
    + destruct (lsof O (trace st) p); simpl; eexists; simpl; [done|].
      by rewrite <- app_assoc.
    + by eexists.
  - by eexists.
Qed.

(** A port is handed out only if it is not on the deny-list and the last
    thing [lsof] said about it is that it is free. *)
Lemma _can_allocate_port_true p st st' :
  _can_allocate_port O p st = (true, st') →
  is_reserved p = false ∧ probed_free O st st' p.
Proof.
  unfold _can_allocate_port. destruct (is_reserved p); [by unfold ret|].
  unfold_m. simpl. intros Hrun. split; [done|].
  destruct (dict_get p (registry st)) as [a|]; simpl in Hrun.
  - destruct (bool_decide _); simpl in Hrun.
    + destruct (lsof O (trace st) p) eqn:E1; simpl in Hrun; [done|].
      destruct (lsof O (trace st ++ [Lsof p false]) p) eqn:E2; simplify_eq/=.
      exists [Lsof p false], []. by rewrite <- app_assoc.
    + destruct (lsof O (trace st) p) eqn:E1; simplify_eq/=.
      exists [], []. by rewrite app_nil_r.
  - destruct (lsof O (trace st) p) eqn:E1; simplify_eq/=.
    exists [], []. by rewrite app_nil_r.
Qed.

(** A reserved port, and a port that [lsof] always reports in use, is
    refused. *)
Lemma _can_allocate_port_false p st :
  is_reserved p = true ∨ (∀ tr, lsof O tr p = true) →
  (_can_allocate_port O p st).1 = false.
Proof.
  unfold _can_allocate_port. intros [->|Hbound]; [done|].
  destruct (is_reserved p); [done|]. unfold_m. simpl.
  destruct (dict_get p (registry st)) as [a|]; simpl.
  - destruct (bool_decide _); simpl; by rewrite !Hbound.
  - by rewrite Hbound.
Qed.

Lemma scan_range_extends ports project plugin st :
  extends st (scan_range O ports project plugin st).2.
Proof.
  revert st. induction ports as [|p ports IH]; intros st; simpl.
  - apply extends_refl.
  - unfold bind at 1.
    pose proof (_can_allocate_port_extends p st) as Hext.
    destruct (_can_allocate_port O p st) as [[] st1]; red_pairs.
    + unfold bind, ret.
      pose proof (_register_allocation_extends p project plugin st1) as Hext'.
      destruct (_register_allocation O p project plugin st1) as [[] st2]; red_pairs.
      by eapply extends_trans.
    + eapply extends_trans; [done | apply IH].
Qed.

Lemma scan_range_Some ports project plugin st q st' :
  scan_range O ports project plugin st = (Some q, st') →
  q ∈ ports ∧ is_reserved q = false ∧ probed_free O st st' q.
Proof.
  revert st. induction ports as [|p ports IH]; intros st; simpl.
  - by unfold ret.
  - unfold bind at 1.
    pose proof (_can_allocate_port_extends p st) as Hext.
    destruct (_can_allocate_port O p st) as [[] st1] eqn:Hcan; red_pairs.
    + unfold bind, ret.
      pose proof (_register_allocation_extends p project plugin st1) as Hext'.
      destruct (_register_allocation O p project plugin st1) as [[] st2]; red_pairs.
      intros [= <- <-]. apply _can_allocate_port_true in Hcan as [Hres Hfree].
      split_and!; [apply list_elem_of_here | done |].
      by eapply probed_free_after.
    + intros Hrun. apply IH in Hrun as (Hin & Hres & Hfree).
      split_and!; [by apply list_elem_of_further | done |].
      by eapply probed_free_before.
Qed.

Lemma scan_range_None ports project plugin st :
  (∀ q, q ∈ ports → is_reserved q = true ∨ (∀ tr, lsof O tr q = true)) →
  (scan_range O ports project plugin st).1 = None.
Proof.
  revert st. induction ports as [|p ports IH]; intros st Hall; simpl; [done|].
  unfold bind at 1.
  pose proof (_can_allocate_port_false p st (Hall p (list_elem_of_here _ _))) as Hno.
  destruct (_can_allocate_port O p st) as [ok st1]; red_pairs. subst ok.
  apply IH. intros q Hq. apply Hall. by apply list_elem_of_further.
Qed.

(** Evidence for a purge of port [p], allocated as [a]: somewhere between
    [st] and [st'] the clock was read, the allocation was more than 24
    hours old at that reading, and [lsof], asked next, found nothing bound
    to [p]. *)
Definition purge_evidence (st st' : State) (p : Z) (a : PortAllocation) : Prop :=
  ∃ t evs1 evs2,
    trace st' = trace st ++ evs1 ++ Now t :: Lsof p false :: evs2 ∧
    t = clock O (trace st ++ evs1) ∧
    lsof O (trace st ++ evs1 ++ [Now t]) p = false ∧
    hours24 < t - allocated_at a.

Lemma purge_evidence_before st0 st st' p a evs :
  trace st = trace st0 ++ evs → purge_evidence st st' p a → purge_evidence st0 st' p a.
Proof.
  intros H0 (t & evs1 & evs2 & Htr & Ht & Hans & Hold).
  exists t, (evs ++ evs1), evs2. rewrite H0 in Htr, Ht, Hans.
  by rewrite Htr, !app_assoc in *.
Qed.

Lemma purge_evidence_after st st1 st' p a :
  purge_evidence st st1 p a → extends st1 st' → purge_evidence st st' p a.
Proof.
  intros (t & evs1 & evs2 & Htr & Ht & Hans & Hold) [e1 H1].
  exists t, evs1, (evs2 ++ e1). split_and!; try done.
  rewrite H1, Htr. by rewrite <- !app_assoc.
Qed.

Lemma scan_stale_spec items st stale st' :
  scan_stale O items st = (stale, st') →
  registry st' = registry st ∧ disk st' = disk st ∧ extends st st' ∧
  ∀ p, p ∈ stale → ∃ a, (p, a) ∈ items ∧ purge_evidence st st' p a.
Proof.
  revert st stale st'. induction items as [|[p a] items IH]; intros st stale st'; simpl.
  - unfold ret. intros [= <- <-]. split_and!; try done; [apply extends_refl|].
    by intros p ?%elem_of_nil.
  - unfold_m. simpl.
    destruct (hours24 <? clock O (trace st) - allocated_at a) eqn:Hold.
    + match goal with |- context [scan_stale O items ?s] =>
        destruct (scan_stale O items s) as [stale0 st3] eqn:Hrest end.
      apply IH in Hrest as (Hreg & Hdisk & [e Hext] & Hev). simpl in *.
      intros [= <- <-]. split_and!; [done | done | |].
      { exists ([Now (clock O (trace st)); Lsof p (lsof O (trace st ++ [Now (clock O (trace st))]) p)] ++ e).
        rewrite Hext. by rewrite <- !app_assoc. }
      intros q Hq.
      destruct (lsof O (trace st ++ [Now (clock O (trace st))]) p) eqn:Hans.
      * destruct (Hev q Hq) as (a' & Hin & Hpurge). exists a'.
        split; [by apply list_elem_of_further|].
        eapply purge_evidence_before; [|done]. simpl. by rewrite <- app_assoc.
      * apply elem_of_cons in Hq as [->|Hq].
        -- exists a. split; [apply list_elem_of_here|].
           exists (clock O (trace st)), [], e. rewrite Hext. simpl.
           rewrite <- !app_assoc, !app_nil_r. split_and!; try done. lia.
        -- destruct (Hev q Hq) as (a' & Hin & Hpurge). exists a'.
           split; [by apply list_elem_of_further|].
           eapply purge_evidence_before; [|done]. simpl. by rewrite <- app_assoc.
    + intros Hrest. apply IH in Hrest as (Hreg & Hdisk & [e Hext] & Hev). simpl in *.
      split_and!; [done | done | |].
      { exists ([Now (clock O (trace st))] ++ e). rewrite Hext. by rewrite <- !app_assoc. }
      intros q Hq. destruct (Hev q Hq) as (a' & Hin & Hpurge). exists a'.
      split; [by apply list_elem_of_further|].
      eapply purge_evidence_before; [|done]. done.
Qed.

(** What [_cleanup_stale_allocations] leaves behind: the registry without
    the keys that [scan_stale] collected. *)
Lemma _cleanup_stale_allocations_spec st st' :
  _cleanup_stale_allocations O st = (tt, st') →
  ∃ stale st1, scan_stale O (registry st) st = (stale, st1) ∧
               registry st' = dict_del_all stale (registry st) ∧
               extends st1 st' ∧ extends st st'.
Proof.
  unfold _cleanup_stale_allocations. unfold bind at 1. unfold get_registry at 1.
  unfold bind at 1.
  destruct (scan_stale O (registry st) st) as [stale st1] eqn:Hscan.
  pose proof (scan_stale_spec _ _ _ _ Hscan) as (_ & _ & Hext & _).
  unfold_m. simpl. intros Hrun. exists stale, st1. split; [done|].
  destruct stale; simplify_eq/=.
  - split_and!; [done | exists []; simpl; by rewrite app_nil_r | done].
  - split_and!; [done | by eexists |].
    eapply extends_trans; [done | by eexists].
Qed.

Lemma _cleanup_stale_allocations_extends st :
  extends st (_cleanup_stale_allocations O st).2.
Proof.
  destruct (_cleanup_stale_allocations O st) as [[] st'] eqn:Hrun.
  by apply _cleanup_stale_allocations_spec in Hrun as (? & ? & _ & _ & _ & ?).
Qed.

(** Whatever port [allocate_port] returns is off the deny-list, was
    reported free by [lsof] during the call, and is the preferred port or a
    port of the range. *)
Lemma allocate_port_Some project plugin preferred port_type st q st' :
  allocate_port O project plugin preferred port_type st = (Some q, st') →
  is_reserved q = false ∧ probed_free O st st' q ∧
  (preferred = Some q ∨ q ∈ port_range port_type).
Proof.
  unfold allocate_port. unfold bind at 1.
  pose proof (_cleanup_stale_allocations_extends st) as Hext0.
  destruct (_cleanup_stale_allocations O st) as [[] st0]; red_pairs.
  unfold bind at 1.
  assert (Hscan : ∀ st1, extends st0 st1 →
            scan_range O (port_range port_type) project plugin st1 = (Some q, st') →
            is_reserved q = false ∧ probed_free O st st' q ∧
            (preferred = Some q ∨ q ∈ port_range port_type)).
  { intros st1 Hext1 (Hin & Hres & Hfree)%scan_range_Some. split_and!; [done | | by right].
    eapply probed_free_before; [|done]. by eapply extends_trans. }
  destruct preferred as [p|]; [|by apply Hscan, extends_refl].
  destruct (truthy_int (Some p)); [|by apply Hscan, extends_refl].
  unfold bind at 1.
  pose proof (_can_allocate_port_extends p st0) as Hext1.
  destruct (_can_allocate_port O p st0) as [[] st1] eqn:Hcan; red_pairs;
    [|by apply Hscan].
  unfold bind, ret.
  pose proof (_register_allocation_extends p project plugin st1) as Hext2.
  destruct (_register_allocation O p project plugin st1) as [[] st2]; red_pairs.
  intros [= <- <-]. apply _can_allocate_port_true in Hcan as [Hres Hfree].
  split_and!; [done | | by left].
  eapply probed_free_before; [done|]. by eapply probed_free_after.
Qed.

(** When the answers of [lsof] do not change with time, the verdict of
    [_can_allocate_port] does not depend on the registry. *)
Definition allocatable (in_use : Z → bool) (p : Z) : bool :=
  negb (is_reserved p) && negb (in_use p).

Lemma _can_allocate_port_stable in_use p st :
  (∀ tr q, lsof O tr q = in_use q) →
  (_can_allocate_port O p st).1 = allocatable in_use p.
Proof.
  intros Hst. unfold _can_allocate_port, allocatable.
  destruct (is_reserved p); [done|]. unfold_m. simpl.
  destruct (dict_get p (registry st)) as [a|]; simpl.
  - destruct (bool_decide _); simpl; rewrite ?Hst.
    + destruct (in_use p) eqn:E; simpl; [done|]. by rewrite Hst, E.
    + done.
  - by rewrite Hst.
Qed.

Lemma scan_range_stable in_use ports project plugin st :
  (∀ tr q, lsof O tr q = in_use q) →
  (scan_range O ports project plugin st).1 = find (allocatable in_use) ports.
Proof.
  intros Hst. revert st. induction ports as [|p ports IH]; intros st; simpl; [done|].
  unfold bind at 1.
  pose proof (_can_allocate_port_stable in_use p st Hst) as Hcan.
  destruct (_can_allocate_port O p st) as [ok st1]; red_pairs. subst ok.
  destruct (allocatable in_use p); [|apply IH].
  unfold bind, ret. by destruct (_register_allocation O p project plugin st1).
Qed.

End Steps.

(** *** Allocating a port *)

(** C2, as the code has it.  With an [lsof] whose answers do not change,
    [allocate_port] returns the preferred port when one is given, is not
    zero, is not reserved and is reported free; otherwise the first port of
    the range, in ascending order, that is not reserved and is reported
    free.  The registry plays no part in the choice: an entry, whoever owns
    it, never blocks a port that [lsof] reports free. *)
Theorem allocate_port_first_free O in_use project plugin preferred port_type st :
  (∀ tr q, lsof O tr q = in_use q) →
  (allocate_port O project plugin preferred port_type st).1 =
    match preferred with
    | Some p =>
        if negb (p =? 0) && allocatable in_use p then Some p
        else find (allocatable in_use) (port_range port_type)
    | None => find (allocatable in_use) (port_range port_type)
    end.
Proof.
  intros Hst. unfold allocate_port. unfold bind at 1.
  destruct (_cleanup_stale_allocations O st) as [[] st0]; red_pairs.
  unfold bind at 1.
  destruct preferred as [p|]; [|by apply scan_range_stable].
  unfold truthy_int. destruct (negb (p =? 0)); [|by apply scan_range_stable].
  unfold bind at 1.
  pose proof (_can_allocate_port_stable O in_use p st0 Hst) as Hcan.
  destruct (_can_allocate_port O p st0) as [ok st1]; red_pairs. subst ok.
  destruct (allocatable in_use p); [|by apply scan_range_stable].
  unfold bind, ret. by destruct (_register_allocation O p project plugin st1).
Qed.

(** On an empty registry with every port free, a request that prefers 9230
    gets 9232: 9230 and 9231 are on the deny-list. *)
Lemma allocate_port_first_free_witness :
  (allocate_port (all_free 0) "proj1" "panelA" (Some 9230) "debug" (init None [])).1
    = Some 9232.
Proof.
  rewrite (allocate_port_first_free (all_free 0) (λ _, false)); [reflexivity|].
  intros tr q. reflexivity.
Defined.

(** Scenario A on the code: the first call does not return 9230, and the
    second call returns the port of the first once more: the entry that
    panelA holds as ["reserved"] does not stop it, and is overwritten. *)
Lemma scenario_A_on_the_code :
  let '(first, st1) :=
    allocate_port (all_free 0) "proj1" "panelA" (Some 9230) "debug" (init None []) in
  let '(second, st2) :=
    allocate_port (all_free 0) "proj1" "panelB" (Some 9230) "debug" st1 in
  first = Some 9232 ∧ first ≠ Some 9230 ∧ second = Some 9232 ∧
  plugin_name <$> dict_get 9232 (registry st1) = Some "panelA" ∧
  plugin_name <$> dict_get 9232 (registry st2) = Some "panelB".
Proof. vm_compute. by split_and!. Qed.


(** A machine on which every port is taken. *)
Definition all_bound (t : Z) : Oracle :=
  {| lsof := λ _ _, true; clock := λ _, t; is_plugin := λ _ _, false |}.


(** Every port of the ["vite"] range is taken, and nothing else. *)
Definition vite_taken : Oracle :=
  {| lsof := λ _ q, bool_decide (5173 ≤ q ≤ 5180); clock := λ _, 0;
     is_plugin := λ _ _, false |}.

(** The preferred port is tried before the range and need not lie in it:
    with the whole range taken, a free preferred port is handed out. *)
Lemma preferred_port_outside_range :
  Forall (λ q, is_reserved q = true ∨ ∀ tr, lsof vite_taken tr q = true) (port_range "vite") ∧
  (allocate_port vite_taken "Ai Podcast" "Ai Podcast Vite" (Some 9240) "vite"
     (init None [])).1 = Some 9240.
Proof.
  split; [|by vm_compute].
  apply Forall_forall. intros q Hq. right. intros tr. simpl.
  apply bool_decide_eq_true. revert Hq. vm_compute port_range.
  rewrite !elem_of_cons, elem_of_nil. lia.
Qed.

(** *** Two registries on one file *)

(** A registry object that holds [r] in memory, in the world that [w] has
    reached: the file as [w] left it, and the same history. *)
Definition in_world_of (w : State) (r : dict PortAllocation) : State :=
  {| registry := r; disk := disk w; trace := trace w |}.

(** Two processes on one registry file: both create their registry object,
    then the first allocates, then the second.  There is no lock and no
    re-read: the second works on what it loaded. *)
Definition two_processes (O : Oracle) (d : option (dict PortAllocation))
    (project1 plugin1 : string) (preferred1 : option Z)
    (project2 plugin2 : string) (preferred2 : option Z) : option Z * option Z * State :=
  let first := init d [] in
  let second := init d [] in
  let '(p1, first') := allocate_port O project1 plugin1 preferred1 "debug" first in
  let '(p2, second') :=
    allocate_port O project2 plugin2 preferred2 "debug"
      (in_world_of first' (registry second)) in
  (p1, p2, second').

(** Both processes are given port 9232, and the file ends up with the
    second owner only. *)
Lemma two_processes_same_port :
  let '(p1, p2, w) :=
    two_processes (all_free 0) None "proj1" "panelA" (Some 9230) "proj2" "panelB" (Some 9231) in
  p1 = Some 9232 ∧ p2 = Some 9232 ∧
  (λ r, project_name <$> dict_get 9232 r) <$> disk w = Some (Some "proj2").
Proof. vm_compute. by split_and!. Qed.

(** C1, as the code has it.  Nothing is locked; what keeps two allocations
    apart is the probe.  If [lsof] reports the port of the first allocation
    in use from the end of the first call on, a later allocation, by the
    same registry object or by any other one on the same machine, whatever
    it holds in memory, returns a different port. *)
Theorem allocate_port_distinct_once_bound O
    project1 plugin1 preferred1 type1 project2 plugin2 preferred2 type2 st p st1 r q st2 :
  allocate_port O project1 plugin1 preferred1 type1 st = (Some p, st1) →
  (∀ evs, lsof O (trace st1 ++ evs) p = true) →
  allocate_port O project2 plugin2 preferred2 type2 (in_world_of st1 r) = (Some q, st2) →
  q ≠ p.
Proof.
  intros _ Hbound (_ & (evs1 & evs2 & _ & Hfree) & _)%allocate_port_Some ->.
  simpl in Hfree. by rewrite Hbound in Hfree.
Qed.

(** A machine on which a port is in use as soon as the registry file names
    it: its owner binds it at once. *)
Definition names_port (q : Z) (e : Event) : bool :=
  match e with
  | Save d => if dict_get q d is Some _ then true else false
  | _ => false
  end.

Definition bound_once_saved : Oracle :=
  {| lsof := λ tr q, existsb (names_port q) tr; clock := λ _, 0;
     is_plugin := λ _ _, true |}.

Lemma allocate_port_distinct_once_bound_witness :
  let run1 := allocate_port bound_once_saved "proj1" "panelA" None "debug" (init None []) in
  let run2 :=
    allocate_port bound_once_saved "proj2" "panelB" None "debug" (in_world_of run1.2 []) in
  run1.1 = Some 9232 ∧ run2.1 = Some 9233.
Proof.
  intros run1 run2.
  assert (H1 : run1 = (Some 9232, run1.2)) by (vm_compute; reflexivity).
  assert (H2 : run2 = (Some 9233, run2.2)) by (vm_compute; reflexivity).
  assert (Hbound : ∀ evs, lsof bound_once_saved (trace run1.2 ++ evs) 9232 = true).
  { intros evs. change (existsb (names_port 9232) (trace run1.2 ++ evs) = true).
    rewrite existsb_app.
    replace (existsb (names_port 9232) (trace run1.2)) with true; [done|].
    vm_compute. reflexivity. }
  pose proof (allocate_port_distinct_once_bound bound_once_saved
                "proj1" "panelA" None "debug" "proj2" "panelB" None "debug"
                (init None []) 9232 run1.2 [] 9233 run2.2 H1 Hbound H2) as Hne.
  split; [by rewrite H1 | by rewrite H2].
Defined.

(** *** Purging stale allocations *)

(** C6, as the code has it.  [_cleanup_stale_allocations] removes an
    allocation only with evidence: its [allocated_at] stamp was more than
    24 hours behind the clock and [lsof], asked right after, found nothing
    bound to the port.  An allocation whose port [lsof] always reports in
    use stays, however old it is; and whatever is in the registry
    afterwards was there before, unchanged. *)
Theorem cleanup_purges_only_old_unbound O st st' p a :
  NoDup (registry st).*1 →
  _cleanup_stale_allocations O st = (tt, st') →
  dict_get p (registry st) = Some a →
  (dict_get p (registry st') = None → purge_evidence O st st' p a) ∧
  ((∀ tr, lsof O tr p = true) → dict_get p (registry st') = Some a) ∧
  (∀ q a', dict_get q (registry st') = Some a' → dict_get q (registry st) = Some a').
Proof.
  intros Hnd Hrun Ha.
  apply _cleanup_stale_allocations_spec in Hrun as (stale & st1 & Hscan & Hreg & Hext1 & Hext).
  apply scan_stale_spec in Hscan as (_ & _ & _ & Hev).
  assert (Hgone : dict_get p (registry st') = None → purge_evidence O st st' p a).
  { rewrite Hreg, dict_get_del_all. case_bool_decide as Hin; [|by rewrite Ha].
    intros _. destruct (Hev p Hin) as (a' & Hin' & Hpurge).
    rewrite (dict_get_NoDup _ _ _ Hnd Hin') in Ha. simplify_eq.
    by eapply purge_evidence_after. }
  split_and!; [done | |].
  - intros Hbound. destruct (dict_get p (registry st')) as [a'|] eqn:Hp.
    + rewrite Hreg, dict_get_del_all in Hp. case_bool_decide; [done|]. congruence.
    + destruct (Hgone eq_refl) as (t & evs1 & evs2 & _ & _ & Hfree & _).
      by rewrite Hbound in Hfree.
  - intros q a'. rewrite Hreg, dict_get_del_all. by case_bool_decide.
Qed.

Definition hour : Z := 3600 * 1000000.

(** A panel that is started, answers for a while and is closed again: the
    port is never found bound by [lsof]; the validator sees the plug-in;
    the clock reads 0 at the first reading, 99 hours at the second and 100
    hours from then on. *)
Definition readings (tr : list Event) : nat :=
  length (List.filter (λ e, if e is Now _ then true else false) tr).

Definition panel_came_and_went : Oracle :=
  {| lsof := λ _ _, false;
     clock := λ tr, match readings tr with
                    | 0%nat => 0
                    | 1%nat => 99 * hour
                    | _ => 100 * hour
                    end;
     is_plugin := λ _ _, true |}.

(** Allocated at 0, marked active at 99 hours. *)
Definition seen_an_hour_ago : State :=
  let st1 := (allocate_port panel_came_and_went "Ai Podcast" "Ai Podcast Main" (Some 9240)
                "debug" (init None [])).2 in
  (mark_port_active panel_came_and_went 9240 st1).2.

Lemma cleanup_purges_only_old_unbound_witness :
  ∃ a, dict_get 9240 (registry seen_an_hour_ago) = Some a ∧
       purge_evidence panel_came_and_went seen_an_hour_ago
         (_cleanup_stale_allocations panel_came_and_went seen_an_hour_ago).2 9240 a.
Proof.
  eexists. split; [by vm_compute|].
  eapply (cleanup_purges_only_old_unbound panel_came_and_went seen_an_hour_ago).
  - vm_compute. apply NoDup_singleton.
  - by vm_compute.
  - by vm_compute.
  - by vm_compute.
Defined.

(** The sweep looks at [allocated_at], not at [last_seen]: at 100 hours the
    allocation, seen an hour ago, is purged. *)
Lemma cleanup_ignores_last_seen :
  let st' := (_cleanup_stale_allocations panel_came_and_went seen_an_hour_ago).2 in
  (λ a, (status a, allocated_at a, last_seen a)) <$> dict_get 9240 (registry seen_an_hour_ago)
    = Some ("active", 0, 99 * hour) ∧
  events_since (trace seen_an_hour_ago) (trace st')
    = [Now (100 * hour); Lsof 9240 false; Save []] ∧
  100 * hour - 99 * hour < hours24 ∧
  dict_get 9240 (registry st') = None.
Proof. vm_compute. by split_and!. Qed.

(** *** Releasing a port *)

(** C8, as the code has it.  [release_port] answers [False] and changes
    nothing (neither the registry in memory, nor the file, nor anything
    else) when the port has no allocation, and when a project is supplied
    that is not empty and is not the owner; the empty project name is falsy
    and releases the port of any owner, as no project does.  When the
    answer is [True] the port had an allocation, that allocation is gone,
    and the allocation of every other port is what it was. *)
Theorem release_port_guarded p project st ok st' :
  release_port p project st = (ok, st') →
  (dict_get p (registry st) = None → ok = false ∧ st' = st) ∧
  (∀ a s, dict_get p (registry st) = Some a → project = Some s → s ≠ "" →
          project_name a ≠ s → ok = false ∧ st' = st) ∧
  (∀ a, dict_get p (registry st) = Some a → project = Some "" → ok = true) ∧
  (ok = true →
     is_Some (dict_get p (registry st)) ∧ dict_get p (registry st') = None ∧
     disk st' = Some (registry st') ∧
     ∀ q, q ≠ p → dict_get q (registry st') = dict_get q (registry st)).
Proof.
  unfold release_port, bind, get_registry, put_registry, _save_registry, ret.
  intros Hrun. split_and!.
  - intros Hnone. rewrite Hnone in Hrun. by simplify_eq.
  - intros a s Ha -> Hs Hown. rewrite Ha in Hrun. simpl in Hrun.
    destruct (String.eqb_spec s ""); [done|]. simpl in Hrun.
    rewrite bool_decide_eq_false_2 in Hrun by congruence.
    simpl in Hrun. by simplify_eq.
  - intros a Ha ->. rewrite Ha in Hrun. simpl in Hrun. by simplify_eq.
  - intros ->. simpl in Hrun.
    destruct (dict_get p (registry st)) as [a|] eqn:Ha; [|by simplify_eq].
    destruct (truthy_str project && _); simplify_eq. simpl.
    split_and!; [by eexists | apply dict_get_del_eq | done |].
    intros q Hq. by apply dict_get_del_ne.
Qed.

Definition sample_allocation (p : Z) (project plugin : string) (t : Z) : PortAllocation :=
  {| port := p; project_name := project; plugin_name := plugin; status := "reserved";
     allocated_at := t; last_seen := t; process_id := None;
     debug_url := Some ("http://localhost:" +:+ pretty p) |}.

Definition two_allocations : State :=
  init (Some [(9232, sample_allocation 9232 "proj1" "panelA" 0);
              (9233, sample_allocation 9233 "proj2" "panelB" 0)]) [].

Lemma release_port_guarded_witness :
  (release_port 9232 (Some "proj2") two_allocations).1 = false ∧
  (release_port 9232 (Some "proj2") two_allocations).2 = two_allocations.
Proof.
  destruct (release_port_guarded 9232 (Some "proj2") two_allocations
              (release_port 9232 (Some "proj2") two_allocations).1
              (release_port 9232 (Some "proj2") two_allocations).2 eq_refl)
    as (_ & Hother & _).
  eapply Hother; [reflexivity | reflexivity | done | done].
Defined.

(** Port 9233 is proj2's.  A caller that names the empty project, which is
    not its owner, is not refused: the answer is [True] and the allocation
    is gone, from the registry and from the file. *)
Lemma release_port_empty_project :
  project_name <$> dict_get 9233 (registry two_allocations) = Some "proj2" ∧
  (release_port 9233 (Some "") two_allocations).1 = true ∧
  dict_get 9233 (registry (release_port 9233 (Some "") two_allocations).2) = None ∧
  (dict_get 9233 <$> disk (release_port 9233 (Some "") two_allocations).2) = Some None.
Proof. vm_compute. by split_and!. Qed.


(** C10.  Without a project, [release_port] removes the allocation of an
    allocated port and answers [True], whoever owns it; the file is
    rewritten with the new registry and no other port is touched.  The
    same call with a project that is not the owner is refused. *)
Theorem release_port_without_project p st a :
  dict_get p (registry st) = Some a →
  ∃ st', release_port p None st = (true, st') ∧
         registry st' = dict_del p (registry st) ∧
         dict_get p (registry st') = None ∧
         disk st' = Some (registry st') ∧
         (∀ q, q ≠ p → dict_get q (registry st') = dict_get q (registry st)) ∧
         (∀ s, s ≠ "" → project_name a ≠ s → release_port p (Some s) st = (false, st)).
Proof.
  intros Ha. unfold release_port, bind, get_registry, put_registry, _save_registry, ret.
  rewrite Ha. simpl. eexists. split_and!; try done; simpl.
  - apply dict_get_del_eq.
  - intros q Hq. by apply dict_get_del_ne.
  - intros s Hs Hown. destruct (String.eqb_spec s ""); [done|]. simpl.
    by rewrite bool_decide_eq_false_2 by congruence.
Qed.

Lemma release_port_without_project_witness :
  ∃ st', release_port 9233 None two_allocations = (true, st') ∧
         dict_get 9233 (registry st') = None ∧
         dict_get 9232 (registry st') = Some (sample_allocation 9232 "proj1" "panelA" 0).
Proof.
  destruct (release_port_without_project 9233 two_allocations
              (sample_allocation 9233 "proj2" "panelB" 0) eq_refl)
    as (st' & Hrun & _ & Hgone & _ & Hother & _).
  exists st'. split_and!; [done | done |].
  rewrite Hother by lia. reflexivity.
Defined.

(** *** The rest of the registry *)

(** A plug-in configuration, as [auto_allocate_for_project] reads it: a
    dictionary with the keys ['name'], ['preferred_port'] and
    ['port_type'], of which only the first must be there. *)
Record Config := {
  name : option string;
  preferred_port : option Z;
  port_type : option string;
}.

(** The dictionary from plug-in names to ports that
    [auto_allocate_for_project] builds. *)
Fixpoint names_get (k : string) (d : list (string * Z)) : option Z :=
  match d with
  | [] => None
  | (k', v) :: d' => if String.eqb k' k then Some v else names_get k d'
  end.

Fixpoint names_set (k : string) (v : Z) (d : list (string * Z)) : list (string * Z) :=
  match d with
  | [] => [(k, v)]
  | (k', v') :: d' => if String.eqb k' k then (k, v) :: d' else (k', v') :: names_set k v d'
  end.

Section Rest.
Context (O : Oracle).

(** [get_project_ports] *)
Definition get_project_ports (project : string) : M (list PortAllocation) :=
  reg <- get_registry ;;
  ret (List.filter (λ allocation, String.eqb (project_name allocation) project) reg.*2).

(** The loop of [get_available_ports]. *)
Fixpoint scan_available (ports : list Z) : M (list Z) :=
  match ports with
  | [] => ret []
  | p :: rest =>
      ok <- _can_allocate_port O p ;;
      available <- scan_available rest ;;
      ret (if (ok : bool) then p :: available else available)
  end.

Definition get_available_ports (type : string) : M (list Z) :=
  scan_available (port_range type).

(** The loop of [auto_allocate_for_project]; [None] stands for the
    [KeyError] that [config['name']] raises when the key is missing. *)
Fixpoint allocate_each (project : string) (configs : list Config)
    (allocations : list (string * Z)) : M (option (list (string * Z))) :=
  match configs with
  | [] => ret (Some allocations)
  | config :: rest =>
      match name config with
      | None => ret None
      | Some plugin =>
          allocated <- allocate_port O project plugin (preferred_port config)
                         (if port_type config is Some type then type else "debug") ;;
          allocate_each project rest
            (match allocated with
             | Some p => if truthy_int allocated then names_set plugin p allocations
                         else allocations
             | None => allocations
             end)
      end
  end.

Definition auto_allocate_for_project (project : string) (configs : list Config)
    : M (option (list (string * Z))) :=
  allocate_each project configs [].

End Rest.

Arguments allocate_port : simpl never.


(** *** What an allocation leaves in the registry *)

(** The entry that [_register_allocation] writes at time [t]. *)
Definition new_entry (project plugin : string) (p t : Z) : PortAllocation :=
  {| port := p; project_name := project; plugin_name := plugin; status := "reserved";
     allocated_at := t; last_seen := t; process_id := None;
     debug_url := Some ("http://localhost:" +:+ pretty p) |}.

(** The entry of port [q] in [r'] is the one of [r], or that one marked
    available: nothing was created for [q] and its owner, its dates and its
    URL were not touched. *)
Definition kept (q : Z) (r r' : dict PortAllocation) : Prop :=
  ∀ a', dict_get q r' = Some a' →
        ∃ a, dict_get q r = Some a ∧ (a' = a ∨ a' = set_status "available" a).

Lemma kept_refl q r : kept q r r.
Proof. intros a' Ha. exists a'. by split; [|left]. Qed.

Lemma kept_trans q r1 r2 r3 : kept q r1 r2 → kept q r2 r3 → kept q r1 r3.
Proof.
  intros H12 H23 a3 Ha3. destruct (H23 a3 Ha3) as (a2 & Ha2 & Hor2).
  destruct (H12 a2 Ha2) as (a1 & Ha1 & Hor1). exists a1. split; [done|].
  destruct Hor2 as [->| ->], Hor1 as [->| ->]; auto.
Qed.

Section Entries.
Context (O : Oracle).

Lemma _register_allocation_run p project plugin st :
  _register_allocation O p project plugin st =
    (tt, {| registry := dict_set p (new_entry project plugin p (clock O (trace st))) (registry st);
            disk := Some (dict_set p (new_entry project plugin p (clock O (trace st)))
                            (registry st));
            trace := (trace st ++ [Now (clock O (trace st))]) ++
                     [Save (dict_set p (new_entry project plugin p (clock O (trace st)))
                              (registry st))] |}).
Proof. reflexivity. Qed.

(** [_can_allocate_port] never writes the file, and in memory it changes at
    most the status of the port it was asked about. *)
Lemma _can_allocate_port_registry p st :
  disk (_can_allocate_port O p st).2 = disk st ∧
  (registry (_can_allocate_port O p st).2 = registry st ∨
   ∃ a, dict_get p (registry st) = Some a ∧
        registry (_can_allocate_port O p st).2
          = dict_set p (set_status "available" a) (registry st)).
Proof.
  unfold _can_allocate_port. destruct (is_reserved p); [by split; [|left]|].
  unfold_m. simpl. destruct (dict_get p (registry st)) as [a|] eqn:Ha; simpl.
  - destruct (bool_decide _); simpl.
    + destruct (lsof O (trace st) p); simpl; split; try done; [by left|].
      right. by exists a.
    + split; [done | by left].
  - split; [done | by left].
Qed.

Lemma _can_allocate_port_kept p q st :
  kept q (registry st) (registry (_can_allocate_port O p st).2).
Proof.
  destruct (_can_allocate_port_registry p st) as [_ [-> | (a & Ha & ->)]];
    [apply kept_refl|].
  intros a' Ha'. destruct (decide (p = q)) as [<-|Hne].
  - rewrite dict_get_set_eq in Ha'. simplify_eq. exists a. auto.
  - rewrite dict_get_set_ne in Ha' by done. exists a'. auto.
Qed.

Lemma _cleanup_stale_allocations_kept q st :
  kept q (registry st) (registry (_cleanup_stale_allocations O st).2).
Proof.
  destruct (_cleanup_stale_allocations O st) as [[] st'] eqn:Hrun.
  apply _cleanup_stale_allocations_spec in Hrun as (stale & st1 & _ & Hreg & _).
  simpl. rewrite Hreg. intros a'. rewrite dict_get_del_all.
  case_bool_decide; [done|]. intros Ha. exists a'. auto.
Qed.

(** The successful end of a scan: the returned port has a fresh entry and
    the file holds the registry. *)
Definition registered (project plugin : string) (p : Z) (st st' : State) : Prop :=
  disk st' = Some (registry st') ∧
  ∃ t, Now t ∈ events_since (trace st) (trace st') ∧
       dict_get p (registry st') = Some (new_entry project plugin p t).

Lemma registered_before project plugin p st0 st st' :
  extends st0 st → extends st st' → registered project plugin p st st' →
  registered project plugin p st0 st'.
Proof.
  intros [e0 H0] [e1 H1] (Hdisk & t & Hin & Hget). split; [done|]. exists t.
  split; [|done]. rewrite H1, events_since_app in Hin.
  rewrite H1, H0, <- app_assoc, events_since_app. apply elem_of_app. by right.
Qed.

Lemma _register_allocation_registered p project plugin st :
  registered project plugin p st (_register_allocation O p project plugin st).2.
Proof.
  rewrite _register_allocation_run. split; [done|]. simpl.
  exists (clock O (trace st)). rewrite <- app_assoc, events_since_app.
  split; [apply list_elem_of_here | apply dict_get_set_eq].
Qed.

Lemma scan_range_registered ports project plugin st p st' :
  scan_range O ports project plugin st = (Some p, st') →
  registered project plugin p st st'.
Proof.
  revert st. induction ports as [|p0 ports IH]; intros st; simpl.
  - by unfold ret.
  - unfold bind at 1.
    pose proof (_can_allocate_port_extends O p0 st) as Hext.
    destruct (_can_allocate_port O p0 st) as [[] st1] eqn:Hcan; red_pairs.
    + unfold bind, ret.
      pose proof (_register_allocation_registered p0 project plugin st1) as Hreg.
      pose proof (_register_allocation_extends O p0 project plugin st1) as Hext'.
      destruct (_register_allocation O p0 project plugin st1) as [[] st2]; red_pairs.
      intros [= <- <-]. by eapply registered_before.
    + intros Hrun. pose proof (scan_range_extends O ports project plugin st1) as Hext'.
      rewrite Hrun in Hext'. eapply registered_before; [done | done | by apply IH].
Qed.

Lemma scan_range_kept ports project plugin st q r st' :
  scan_range O ports project plugin st = (r, st') → r ≠ Some q →
  kept q (registry st) (registry st').
Proof.
  revert st. induction ports as [|p0 ports IH]; intros st; simpl.
  - unfold ret. intros [= <- <-] _. apply kept_refl.
  - unfold bind at 1.
    pose proof (_can_allocate_port_kept p0 q st) as Hkept.
    destruct (_can_allocate_port O p0 st) as [[] st1]; red_pairs.
    + unfold bind, ret. rewrite _register_allocation_run. intros [= <- <-] Hne.
      eapply kept_trans; [done|]. unfold kept. simpl. intros a'.
      rewrite dict_get_set_ne by congruence. intros Ha. exists a'. auto.
    + intros Hrun Hne. eapply kept_trans; [done | by eapply IH].
Qed.

Lemma allocate_port_registered project plugin preferred type st p st' :
  allocate_port O project plugin preferred type st = (Some p, st') →
  registered project plugin p st st'.
Proof.
  unfold allocate_port. unfold bind at 1.
  pose proof (_cleanup_stale_allocations_extends O st) as Hext0.
  destruct (_cleanup_stale_allocations O st) as [[] st0]; red_pairs.
  unfold bind at 1.
  assert (Hscan : ∀ st1, extends st0 st1 →
            scan_range O (port_range type) project plugin st1 = (Some p, st') →
            registered project plugin p st st').
  { intros st1 Hext1 Hrun.
    pose proof (scan_range_extends O (port_range type) project plugin st1) as Hext'.
    rewrite Hrun in Hext'.
    eapply registered_before; [by eapply extends_trans | done |].
    by eapply scan_range_registered. }
  destruct preferred as [p0|]; [|by apply Hscan, extends_refl].
  destruct (truthy_int (Some p0)); [|by apply Hscan, extends_refl].
  unfold bind at 1.
  pose proof (_can_allocate_port_extends O p0 st0) as Hext1.
  destruct (_can_allocate_port O p0 st0) as [[] st1]; red_pairs; [|by apply Hscan].
  unfold bind, ret.
  pose proof (_register_allocation_registered p0 project plugin st1) as Hreg.
  pose proof (_register_allocation_extends O p0 project plugin st1) as Hext2.
  destruct (_register_allocation O p0 project plugin st1) as [[] st2]; red_pairs.
  intros [= <- <-]. eapply registered_before; [|done|done]. by eapply extends_trans.
Qed.

End Entries.


(** X1.  When [allocate_port] returns a port, the registry holds for that
    port an entry with the project and the plug-in of the call, the status
    "reserved", both dates equal to a clock reading of the call, no process
    id and the URL of the port; the file holds the whole registry, so that
    a registry object created afterwards starts from it. *)
Theorem allocate_port_writes_entry O project plugin preferred type st p st' :
  allocate_port O project plugin preferred type st = (Some p, st') →
  (∃ t, Now t ∈ events_since (trace st) (trace st') ∧
        dict_get p (registry st') = Some (new_entry project plugin p t)) ∧
  disk st' = Some (registry st') ∧
  ∀ tr, registry (init (disk st') tr) = registry st'.
Proof.
  intros (Hdisk & t & Hin & Hget)%allocate_port_registered.
  split_and!; [by exists t | done |]. intros tr. by rewrite Hdisk.
Qed.

Lemma allocate_port_writes_entry_witness :
  let run := allocate_port (all_free 7) "proj1" "panelA" None "debug" (init None []) in
  run.1 = Some 9232 ∧
  dict_get 9232 (registry run.2) = Some (new_entry "proj1" "panelA" 9232 7) ∧
  disk run.2 = Some (registry run.2).
Proof.
  intros run.
  destruct (allocate_port_writes_entry (all_free 7) "proj1" "panelA" None "debug"
              (init None []) 9232 run.2) as ((t & Hin & Hget) & Hdisk & _).
  { by vm_compute. }
  split_and!; [by vm_compute | | done].
  replace t with 7 in Hget; [done|].
  vm_compute in Hin.
  repeat (apply elem_of_cons in Hin as [Hin|Hin]; [by simplify_eq|]).
  by apply elem_of_nil in Hin.
Defined.

(** X2.  [allocate_port] leaves the other ports to their owners: for every
    port other than the one it returns, an entry found afterwards was there
    before, with the same project, plug-in, dates and URL; at most its
    status was set to "available".  This holds as well when the call
    returns [None]. *)
Theorem allocate_port_spares_others O project plugin preferred type st r st' q :
  allocate_port O project plugin preferred type st = (r, st') →
  r ≠ Some q →
  ∀ a', dict_get q (registry st') = Some a' →
        ∃ a, dict_get q (registry st) = Some a ∧ (a' = a ∨ a' = set_status "available" a).
Proof.
  unfold allocate_port. unfold bind at 1.
  pose proof (_cleanup_stale_allocations_kept O q st) as Hkept0.
  destruct (_cleanup_stale_allocations O st) as [[] st0]; red_pairs.
  unfold bind at 1.
  assert (Hscan : ∀ st1, kept q (registry st) (registry st1) →
            scan_range O (port_range type) project plugin st1 = (r, st') →
            r ≠ Some q → kept q (registry st) (registry st')).
  { intros st1 Hkept1 Hrun Hne. eapply kept_trans; [done|]. by eapply scan_range_kept. }
  destruct preferred as [p0|]; [|by apply Hscan].
  destruct (truthy_int (Some p0)); [|by apply Hscan].
  unfold bind at 1.
  pose proof (_can_allocate_port_kept O p0 q st0) as Hkept1.
  destruct (_can_allocate_port O p0 st0) as [[] st1]; red_pairs.
  - unfold bind, ret. rewrite _register_allocation_run. intros [= <- <-] Hne.
    eapply kept_trans; [done|]. eapply kept_trans; [done|]. unfold kept. simpl.
    intros a'. rewrite dict_get_set_ne by congruence. intros Ha. exists a'. auto.
  - apply Hscan. by eapply kept_trans.
Qed.

(** Ports 9232 and 9233 are recorded for two projects; nothing is bound. *)
Lemma allocate_port_spares_others_witness :
  let run := allocate_port (all_free 5) "proj3" "panelC" None "debug" two_allocations in
  run.1 = Some 9232 ∧
  dict_get 9233 (registry run.2)
    = Some (sample_allocation 9233 "proj2" "panelB" 0).
Proof.
  intros run. split; [by vm_compute|].
  destruct (dict_get 9233 (registry run.2)) as [a'|] eqn:Ha'; [|by vm_compute in Ha'].
  destruct (allocate_port_spares_others (all_free 5) "proj3" "panelC" None "debug"
              two_allocations run.1 run.2 9233 (surjective_pairing _) ltac:(by vm_compute)
              a' Ha') as (a & Ha & Hor).
  vm_compute in Ha'. by simplify_eq.
Defined.

(** X3.  What [allocate_port] gave out, [release_port] takes back: with
    the project of the allocation it answers [True], the entry is gone, the
    file is rewritten and the other entries stay; with the name of another
    project it answers [False] and changes nothing. *)
Theorem allocate_then_release O project plugin preferred type st p st1 :
  allocate_port O project plugin preferred type st = (Some p, st1) →
  (∃ st2, release_port p (Some project) st1 = (true, st2) ∧
          dict_get p (registry st2) = None ∧
          disk st2 = Some (registry st2) ∧
          ∀ q, q ≠ p → dict_get q (registry st2) = dict_get q (registry st1)) ∧
  (∀ other, other ≠ "" → other ≠ project →
            release_port p (Some other) st1 = (false, st1)).
Proof.
  intros (Hdisk & t & Hin & Hget)%allocate_port_registered.
  unfold release_port, bind, get_registry, put_registry, _save_registry, ret.
  rewrite Hget. simpl. rewrite bool_decide_eq_true_2 by done. rewrite andb_false_r.
  split.
  - eexists. split; [done|]. simpl. split_and!; [apply dict_get_del_eq | done |].
    intros q Hq. by apply dict_get_del_ne.
  - intros other Hother Hne. destruct (String.eqb_spec other ""); [done|]. simpl.
    rewrite bool_decide_eq_false_2 by congruence. done.
Qed.

Lemma allocate_then_release_witness :
  let st1 := (allocate_port (all_free 0) "proj1" "panelA" None "debug" (init None [])).2 in
  (release_port 9232 (Some "proj1") st1).1 = true ∧
  registry (release_port 9232 (Some "proj1") st1).2 = [] ∧
  release_port 9232 (Some "proj2") st1 = (false, st1).
Proof.
  intros st1.
  destruct (allocate_then_release (all_free 0) "proj1" "panelA" None "debug" (init None [])
              9232 st1) as [(st2 & Hrun & _) Hother]; [by vm_compute|].
  split_and!; [by rewrite Hrun | by vm_compute | by apply Hother].
Defined.


(** *** The sweep and recent allocations *)

(** X4.  An allocation that is never more than 24 hours behind the clock
    survives [_cleanup_stale_allocations] unchanged, whatever [lsof]
    answers about its port. *)
Theorem cleanup_keeps_recent O st p a :
  NoDup (registry st).*1 →
  dict_get p (registry st) = Some a →
  (∀ tr, clock O tr - allocated_at a ≤ hours24) →
  dict_get p (registry (_cleanup_stale_allocations O st).2) = Some a.
Proof.
  intros Hnd Ha Hrecent.
  destruct (_cleanup_stale_allocations O st) as [[] st'] eqn:Hrun.
  apply _cleanup_stale_allocations_spec in Hrun as (stale & st1 & Hscan & Hreg & _).
  apply scan_stale_spec in Hscan as (_ & _ & _ & Hev).
  simpl. rewrite Hreg, dict_get_del_all. case_bool_decide as Hin; [|done].
  destruct (Hev p Hin) as (a' & Hin' & t & evs1 & evs2 & _ & -> & _ & Hold).
  rewrite (dict_get_NoDup _ _ _ Hnd Hin') in Ha. simplify_eq.
  specialize (Hrecent (trace st ++ evs1)). lia.
Qed.

(** Port 9232 was allocated at 0; at 24 hours sharp it is unbound. *)
Lemma cleanup_keeps_recent_witness :
  dict_get 9232 (registry (_cleanup_stale_allocations (all_free hours24) two_allocations).2)
    = Some (sample_allocation 9232 "proj1" "panelA" 0).
Proof.
  apply (cleanup_keeps_recent (all_free hours24) two_allocations).
  - vm_compute. apply NoDup_cons. split; [by intros [=]%list_elem_of_singleton|].
    apply NoDup_singleton.
  - reflexivity.
  - intros tr. by vm_compute.
Defined.

Section Idle.
Context (O : Oracle).

Lemma scan_stale_idle items st :
  (∀ p a tr, (p, a) ∈ items → clock O tr - allocated_at a ≤ hours24) →
  ∃ evs, scan_stale O items st
           = ([], {| registry := registry st; disk := disk st; trace := trace st ++ evs |}) ∧
         length evs = length items ∧
         Forall (λ e, if e is Now _ then True else False) evs.
Proof.
  revert st. induction items as [|[p a] items IH]; intros st Hrecent; simpl.
  - exists []. rewrite app_nil_r. by destruct st.
  - unfold_m. simpl.
    destruct (hours24 <? clock O (trace st) - allocated_at a) eqn:Hold.
    { apply Z.ltb_lt in Hold.
      specialize (Hrecent p a (trace st) (list_elem_of_here _ _)). lia. }
    edestruct (IH {| registry := registry st; disk := disk st;
                     trace := trace st ++ [Now (clock O (trace st))] |})
      as (evs & Hrun & Hlen & Hall).
    { intros p' a' tr Hin. apply (Hrecent p' a'). by apply list_elem_of_further. }
    exists (Now (clock O (trace st)) :: evs). rewrite Hrun. simpl.
    rewrite <- app_assoc. split_and!; [done | by rewrite Hlen |].
    by apply Forall_cons.
Qed.

End Idle.

(** X5.  When no allocation is more than 24 hours behind the clock, the
    sweep does nothing but read the clock, once for every entry: [lsof] is
    not run, the registry is what it was and the file is not written. *)
Theorem cleanup_without_stale O st :
  (∀ p a tr, (p, a) ∈ registry st → clock O tr - allocated_at a ≤ hours24) →
  ∃ evs, _cleanup_stale_allocations O st
           = (tt, {| registry := registry st; disk := disk st; trace := trace st ++ evs |}) ∧
         length evs = length (registry st) ∧
         Forall (λ e, if e is Now _ then True else False) evs.
Proof.
  intros Hrecent. destruct (scan_stale_idle O (registry st) st Hrecent) as (evs & Hrun & Hlen & Hall).
  exists evs. split; [|done].
  unfold _cleanup_stale_allocations. unfold bind at 1. unfold get_registry at 1.
  unfold bind at 1. rewrite Hrun. reflexivity.
Qed.

Lemma cleanup_without_stale_witness :
  _cleanup_stale_allocations (all_free hour) two_allocations
    = (tt, {| registry := registry two_allocations; disk := disk two_allocations;
              trace := [Now hour; Now hour] |}).
Proof.
  destruct (cleanup_without_stale (all_free hour) two_allocations) as (evs & Hrun & _).
  - intros p a tr Hin. vm_compute in Hin.
    repeat (apply elem_of_cons in Hin as [Hin|Hin]; [simplify_eq; by vm_compute|]).
    by apply elem_of_nil in Hin.
  - rewrite Hrun. by vm_compute.
Defined.


(** *** Listing ports *)

Lemma dict_get_elem_of {V} (k : Z) (v : V) (d : dict V) : dict_get k d = Some v → (k, v) ∈ d.
Proof.
  induction d as [|[k' v'] d IH]; simpl; [done|].
  destruct (k' =? k) eqn:E.
  - apply Z.eqb_eq in E. intros [= ->]. subst. apply list_elem_of_here.
  - intros H. by apply list_elem_of_further, IH.
Qed.

(** X6.  [get_project_ports] changes nothing, lists only allocations of
    the project asked for, each of them an entry of the registry, and after
    a successful [allocate_port] lists the allocation just made. *)
Theorem get_project_ports_lists_allocation O project plugin preferred type st p st1 :
  allocate_port O project plugin preferred type st = (Some p, st1) →
  (get_project_ports project st1).2 = st1 ∧
  (∃ a, a ∈ (get_project_ports project st1).1 ∧ port a = p ∧ plugin_name a = plugin) ∧
  (∀ a, a ∈ (get_project_ports project st1).1 →
        project_name a = project ∧ ∃ q, (q, a) ∈ registry st1).
Proof.
  intros (Hdisk & t & Hin & Hget)%allocate_port_registered.
  unfold get_project_ports, bind, get_registry, ret. simpl. split_and!; [done | |].
  - exists (new_entry project plugin p t). split; [|done].
    apply list_elem_of_In, filter_In. split; [|apply String.eqb_refl].
    apply list_elem_of_In, list_elem_of_fmap. exists (p, new_entry project plugin p t).
    split; [done | by apply dict_get_elem_of].
  - intros a [Ha Hproj]%list_elem_of_In%filter_In. split; [by apply String.eqb_eq|].
    apply list_elem_of_In, list_elem_of_fmap in Ha as ([q a'] & -> & Hqa). by exists q.
Qed.

Lemma get_project_ports_lists_allocation_witness :
  let st1 := (allocate_port (all_free 0) "proj1" "panelC" None "debug" two_allocations).2 in
  (get_project_ports "proj1" st1).1 = [new_entry "proj1" "panelC" 9232 0] ∧
  (get_project_ports "proj2" st1).1 = [sample_allocation 9233 "proj2" "panelB" 0].
Proof.
  intros st1.
  destruct (get_project_ports_lists_allocation (all_free 0) "proj1" "panelC" None "debug"
              two_allocations 9232 st1) as (_ & (a & Ha & _) & _); [by vm_compute|].
  split; by vm_compute.
Defined.

Section Available.
Context (O : Oracle).

Lemma scan_available_stable in_use ports st :
  (∀ tr q, lsof O tr q = in_use q) →
  (scan_available O ports st).1 = List.filter (allocatable in_use) ports.
Proof.
  intros Hst. revert st. induction ports as [|p ports IH]; intros st; simpl; [done|].
  unfold bind at 1.
  pose proof (_can_allocate_port_stable O in_use p st Hst) as Hcan.
  destruct (_can_allocate_port O p st) as [ok st1]; red_pairs. subst ok.
  unfold bind, ret. specialize (IH st1).
  destruct (scan_available O ports st1) as [available st2]; red_pairs. subst available.
  by destruct (allocatable in_use p).
Qed.

Lemma find_head_filter {A} (f : A → bool) (l : list A) : find f l = head (List.filter f l).
Proof. induction l as [|x l IH]; simpl; [done|]. by destruct (f x). Qed.

(** The effects of one question to [_can_allocate_port]: the file, the
    set of recorded ports and the entries of the other ports stay; the only
    events are probes. *)
Definition probes_only (evs : list Event) : Prop :=
  Forall (λ e, if e is Lsof _ _ then True else False) evs.

Lemma _can_allocate_port_effects p st :
  let st' := (_can_allocate_port O p st).2 in
  disk st' = disk st ∧
  (∃ evs, trace st' = trace st ++ evs ∧ probes_only evs) ∧
  (∀ q, q ≠ p → dict_get q (registry st') = dict_get q (registry st)) ∧
  (∀ q, is_Some (dict_get q (registry st')) ↔ is_Some (dict_get q (registry st))) ∧
  ((_can_allocate_port O p st).1 = true → is_reserved p = false).
Proof.
  unfold _can_allocate_port, probes_only. destruct (is_reserved p) eqn:Hres.
  { simpl. split_and!; try done. exists []. by rewrite app_nil_r. }
  unfold_m. simpl. destruct (dict_get p (registry st)) as [a|] eqn:Ha; simpl.
  - destruct (bool_decide _); simpl.
    + destruct (lsof O (trace st) p); simpl.
      * split_and!; try done. eexists [_]. split; [done|]. by repeat constructor.
      * split_and!; try done.
        -- eexists [_; _]. rewrite <- app_assoc. split; [done|]. by repeat constructor.
        -- intros q Hq. by apply dict_get_set_ne.
        -- intros q. destruct (decide (p = q)) as [<-|Hne].
           ++ rewrite dict_get_set_eq, Ha. split; by eexists.
           ++ by rewrite dict_get_set_ne.
    + split_and!; try done. eexists [_]. split; [done|]. by repeat constructor.
  - split_and!; try done. eexists [_]. split; [done|]. by repeat constructor.
Qed.

(** A port with a recorded, unbound allocation: the question downgrades
    the allocation and answers yes. *)
Lemma _can_allocate_port_downgrades p a st :
  is_reserved p = false → (∀ tr, lsof O tr p = false) →
  dict_get p (registry st) = Some a → status a ∈ ["active"; "reserved"] →
  (_can_allocate_port O p st).1 = true ∧
  dict_get p (registry (_can_allocate_port O p st).2) = Some (set_status "available" a).
Proof.
  intros Hres Hfree Ha Hstatus. unfold _can_allocate_port. rewrite Hres. unfold_m. simpl.
  rewrite Ha. simpl. rewrite bool_decide_eq_true_2 by done. simpl.
  rewrite !Hfree. simpl. split; [done | apply dict_get_set_eq].
Qed.

Lemma scan_available_effects ports st available st' :
  scan_available O ports st = (available, st') →
  disk st' = disk st ∧
  (∃ evs, trace st' = trace st ++ evs ∧ probes_only evs) ∧
  (∀ q, q ∉ ports → dict_get q (registry st') = dict_get q (registry st)) ∧
  (∀ q, is_Some (dict_get q (registry st')) ↔ is_Some (dict_get q (registry st))) ∧
  (∀ q, kept q (registry st) (registry st')) ∧
  available `sublist_of` ports ∧
  Forall (λ p, is_reserved p = false) available.
Proof.
  revert st available st'. induction ports as [|p ports IH]; intros st available st'; simpl.
  - unfold ret. intros [= <- <-]. split_and!; try done; [|intros q; apply kept_refl].
    exists []. rewrite app_nil_r. split; [done | constructor].
  - unfold bind at 1.
    pose proof (_can_allocate_port_effects p st) as (Hd1 & (e1 & Ht1 & Hp1) & Ho1 & Hk1 & Hr1).
    pose proof (λ q, _can_allocate_port_kept O p q st) as Hkept1.
    destruct (_can_allocate_port O p st) as [ok st1]; red_pairs.
    unfold bind at 1.
    destruct (scan_available O ports st1) as [available2 st2] eqn:Hrest.
    apply IH in Hrest as (Hd2 & (e2 & Ht2 & Hp2) & Ho2 & Hk2 & Hkept2 & Hsub & Hres).
    unfold ret. intros [= <- <-]. split_and!.
    + congruence.
    + exists (e1 ++ e2). rewrite Ht2, Ht1, app_assoc. split; [done|].
      by apply Forall_app.
    + intros q [Hne Hnotin]%not_elem_of_cons. rewrite Ho2 by done. by apply Ho1.
    + intros q. by rewrite Hk2.
    + intros q. by eapply kept_trans.
    + destruct ok; [by apply sublist_skip | by apply sublist_cons].
    + destruct ok; [|done]. apply Forall_cons. split; [by apply Hr1 | done].
Qed.

End Available.


(** X7.  With an [lsof] whose answers do not change, [get_available_ports]
    returns the ports of the range that are not reserved and not in use, in
    ascending order, and the port that [allocate_port] hands out when no
    port is preferred is the first of them. *)
Theorem get_available_ports_stable O in_use type st :
  (∀ tr q, lsof O tr q = in_use q) →
  (get_available_ports O type st).1 = List.filter (allocatable in_use) (port_range type) ∧
  ∀ project plugin st0,
    (allocate_port O project plugin None type st0).1 = head (get_available_ports O type st).1.
Proof.
  intros Hst. unfold get_available_ports. rewrite (scan_available_stable O in_use) by done.
  split; [done|]. intros project plugin st0. rewrite <- find_head_filter.
  unfold allocate_port. unfold bind at 1.
  destruct (_cleanup_stale_allocations O st0) as [[] st1]; red_pairs.
  unfold bind at 1. by apply scan_range_stable.
Qed.

(** Ports 9233 and 9234 are in use. *)
Definition two_taken : Oracle :=
  {| lsof := λ _ q, bool_decide (q = 9233 ∨ q = 9234); clock := λ _, 0;
     is_plugin := λ _ _, false |}.

Lemma get_available_ports_stable_witness :
  take 3 (get_available_ports two_taken "debug" (init None [])).1 = [9232; 9235; 9236] ∧
  (allocate_port two_taken "proj1" "panelA" None "debug" (init None [])).1 = Some 9232.
Proof.
  destruct (get_available_ports_stable two_taken (λ q, bool_decide (q = 9233 ∨ q = 9234))
              "debug" (init None [])) as [Hlist Hhead]; [done|].
  split; [by vm_compute|]. rewrite Hhead, Hlist. by vm_compute.
Defined.

(** X8.  [get_available_ports] only probes: whatever [lsof] answers, it
    does not write the file, it neither adds nor removes an entry, and an
    entry keeps its owner, dates and URL; the ports it returns are ports of
    the range, in the order of the range, and none of them is reserved. *)
Theorem get_available_ports_effects O type st available st' :
  get_available_ports O type st = (available, st') →
  disk st' = disk st ∧
  (∃ evs, trace st' = trace st ++ evs ∧ probes_only evs) ∧
  (∀ q, is_Some (dict_get q (registry st')) ↔ is_Some (dict_get q (registry st))) ∧
  (∀ q a', dict_get q (registry st') = Some a' →
           ∃ a, dict_get q (registry st) = Some a ∧ (a' = a ∨ a' = set_status "available" a)) ∧
  available `sublist_of` port_range type ∧
  Forall (λ p, is_reserved p = false) available.
Proof.
  intros (Hd & Hev & _ & Hk & Hkept & Hsub & Hres)%scan_available_effects.
  split_and!; done.
Qed.

Lemma get_available_ports_effects_witness :
  let run := get_available_ports two_taken "cep_legacy" two_allocations in
  run.1 = [7003; 7004; 7005; 7006; 7007; 7008; 7009; 7010] ∧
  disk run.2 = disk two_allocations ∧ registry run.2 = registry two_allocations.
Proof.
  intros run.
  destruct (get_available_ports_effects two_taken "cep_legacy" two_allocations run.1 run.2
              (surjective_pairing _)) as (Hd & _).
  split_and!; [by vm_compute | done | by vm_compute].
Defined.

Section Downgrade.
Context (O : Oracle).

Lemma scan_available_downgrades ports q a st available st' :
  NoDup ports → q ∈ ports →
  is_reserved q = false → (∀ tr, lsof O tr q = false) →
  dict_get q (registry st) = Some a → status a ∈ ["active"; "reserved"] →
  scan_available O ports st = (available, st') →
  q ∈ available ∧ dict_get q (registry st') = Some (set_status "available" a).
Proof.
  intros Hnd Hin Hres Hfree. revert st available st'.
  induction ports as [|p ports IH]; intros st available st' Ha Hstatus Hrun;
    [by apply elem_of_nil in Hin|].
  apply NoDup_cons in Hnd as [Hnotin Hnd]. simpl in Hrun. unfold bind at 1 in Hrun.
  destruct (_can_allocate_port O p st) as [ok st1] eqn:Hp.
  unfold bind at 1 in Hrun.
  destruct (scan_available O ports st1) as [rest st2] eqn:Hrest.
  unfold ret in Hrun. injection Hrun as <- <-.
  destruct (decide (p = q)) as [->|Hne].
  - destruct (_can_allocate_port_downgrades O q a st Hres Hfree Ha Hstatus) as [Hok Hget].
    rewrite Hp in Hok, Hget. red_pairs. subst ok.
    apply scan_available_effects in Hrest as (_ & _ & Hother & _).
    split; [apply list_elem_of_here|]. by rewrite Hother.
  - apply elem_of_cons in Hin as [->|Hin]; [done|].
    pose proof (_can_allocate_port_effects O p st) as Heff. rewrite Hp in Heff.
    red_pairs. destruct Heff as (_ & _ & Hother & _).
    destruct (IH Hnd Hin st1 rest st2) as [Hq Hget]; [by rewrite Hother | done | done |].
    split; [|done]. destruct ok; [by apply list_elem_of_further | done].
Qed.

End Downgrade.

(** X9.  Asking for the available ports is not a mere reading: a recorded
    allocation with status "active" or "reserved", on a port of the range
    that is not reserved and that [lsof] finds unbound, is marked
    "available" in memory, and its port is listed as available although its
    entry is still in the registry; the file keeps the old status. *)
Theorem get_available_ports_downgrades O type st q a :
  q ∈ port_range type → is_reserved q = false → (∀ tr, lsof O tr q = false) →
  dict_get q (registry st) = Some a → status a ∈ ["active"; "reserved"] →
  q ∈ (get_available_ports O type st).1 ∧
  dict_get q (registry (get_available_ports O type st).2) = Some (set_status "available" a) ∧
  disk (get_available_ports O type st).2 = disk st.
Proof.
  intros Hin Hres Hfree Ha Hstatus. unfold get_available_ports.
  destruct (scan_available O (port_range type) st) as [available st'] eqn:Hrun. red_pairs.
  destruct (scan_available_downgrades O (port_range type) q a st available st')
    as [Hq Hget]; try done.
  { unfold port_range. destruct (ranges_get type port_ranges). apply NoDup_seqZ. }
  split_and!; [done | done |].
  by apply scan_available_effects in Hrun as (? & _).
Qed.

Lemma get_available_ports_downgrades_witness :
  let run := get_available_ports two_taken "debug" two_allocations in
  9232 ∈ run.1 ∧
  status <$> dict_get 9232 (registry run.2) = Some "available" ∧
  (λ d, status <$> dict_get 9232 d) <$> disk run.2 = Some (Some "reserved").
Proof.
  intros run.
  destruct (get_available_ports_downgrades two_taken "debug" two_allocations 9232
              (sample_allocation 9232 "proj1" "panelA" 0)) as (Hin & Hget & Hdisk).
  - vm_compute port_range. do 2 apply list_elem_of_further. apply list_elem_of_here.
  - reflexivity.
  - intros tr. by vm_compute.
  - reflexivity.
  - apply list_elem_of_further, list_elem_of_here.
  - split_and!; [done | by vm_compute | by vm_compute].
Defined.


(** X10.  The outcomes of [mark_port_active].  For a port without an entry
    it answers [False] and does nothing at all.  For a recorded port it
    reads the clock once and asks the validator once; the entry becomes
    "active" with the new [last_seen] in memory whatever the validator
    says, but the file is rewritten (and [debug_url] set) only when the
    validator finds the plug-in: on [False] the file keeps its old content.
    No other entry changes. *)
Theorem mark_port_active_outcomes O p st ok st' :
  mark_port_active O p st = (ok, st') →
  match dict_get p (registry st) with
  | None => ok = false ∧ st' = st
  | Some a =>
      ∃ t, trace st' = trace st ++ Now t :: Validate p ok ::
                                   (if ok then [Save (registry st')] else []) ∧
           (∀ q, q ≠ p → dict_get q (registry st') = dict_get q (registry st)) ∧
           if ok then
             dict_get p (registry st')
             = Some (set_debug_url ("http://localhost:" +:+ pretty p)
                       (set_last_seen t (set_status "active" a))) ∧
             disk st' = Some (registry st')
           else
             dict_get p (registry st') = Some (set_last_seen t (set_status "active" a)) ∧
             disk st' = disk st
  end.
Proof.
  unfold mark_port_active, update_allocation. unfold_m. simpl.
  destruct (dict_get p (registry st)) as [a|] eqn:Ha; simpl.
  - rewrite Ha. simpl. rewrite dict_get_set_eq. simpl.
    destruct (is_plugin O _ p) eqn:Hplugin; simpl.
    + rewrite dict_get_set_eq. simpl. intros [= <- <-]. simpl.
      exists (clock O (trace st)). rewrite <- !app_assoc. split_and!; try done.
      * intros q Hq. by rewrite !dict_get_set_ne.
      * apply dict_get_set_eq.
    + intros [= <- <-]. simpl.
      exists (clock O (trace st)). rewrite <- app_assoc. split_and!; try done.
      * intros q Hq. by rewrite !dict_get_set_ne.
      * apply dict_get_set_eq.
  - intros [= <- <-]. split; [done|]. by destruct st.
Qed.


Lemma mark_port_active_outcomes_witness :
  let run := mark_port_active two_taken 9232 two_allocations in
  run.1 = false ∧
  status <$> dict_get 9232 (registry run.2) = Some "active" ∧
  disk run.2 = disk two_allocations.
Proof.
  intros run. subst run.
  destruct (mark_port_active two_taken 9232 two_allocations) as [ok st'] eqn:Hrun.
  pose proof (mark_port_active_outcomes two_taken 9232 two_allocations ok st' Hrun) as H.
  assert (ok = false) as -> by (vm_compute in Hrun; congruence).
  simpl in H. destruct H as (t & _ & _ & Hget & Hdisk).
  simpl. rewrite Hget. by split_and!.
Defined.

(** The port that [allocate_port] settles on when the answers of [lsof] do
    not change: the preferred port if it is truthy and allocatable, else
    the first allocatable port of the range. *)
Definition choice (in_use : Z → bool) (preferred : option Z) (type : string) : option Z :=
  match preferred with
  | Some p =>
      if truthy_int preferred && allocatable in_use p then preferred
      else find (allocatable in_use) (port_range type)
  | None => find (allocatable in_use) (port_range type)
  end.

Definition type_of (config : Config) : string :=
  if port_type config is Some type then type else "debug".

Definition record_choice (in_use : Z → bool) (allocations : list (string * Z))
    (config : Config) : list (string * Z) :=
  match name config, choice in_use (preferred_port config) (type_of config) with
  | Some plugin, Some p => names_set plugin p allocations
  | _, _ => allocations
  end.

Lemma names_get_set k v n d :
  names_get n (names_set k v d) = if String.eqb k n then Some v else names_get n d.
Proof.
  induction d as [|[k' v'] d IH]; simpl; [done|].
  destruct (String.eqb k' k) eqn:Hk; simpl.
  - apply String.eqb_eq in Hk as ->. by destruct (String.eqb k n).
  - rewrite IH. destruct (String.eqb k' n) eqn:Hn; [|done].
    apply String.eqb_eq in Hn as ->. by rewrite String.eqb_sym, Hk.
Qed.

Lemma port_range_nonzero type : Forall (λ p, p ≠ 0) (port_range type).
Proof.
  unfold port_range, port_ranges. cbn [ranges_get].
  repeat (destruct (String.eqb _ type); [refine (bool_decide_unpack _ _); by vm_compute|]).
  refine (bool_decide_unpack _ _); by vm_compute.
Qed.

Lemma choice_truthy in_use preferred type p :
  choice in_use preferred type = Some p → truthy_int (Some p) = true.
Proof.
  assert (Hfind : find (allocatable in_use) (port_range type) = Some p →
                  truthy_int (Some p) = true).
  { intros [Hin _]%find_some. apply list_elem_of_In in Hin.
    pose proof (port_range_nonzero type) as Hnz. rewrite Forall_forall in Hnz.
    apply Hnz in Hin. simpl. apply negb_true_iff. lia. }
  unfold choice. destruct preferred as [q|]; [|done].
  destruct (truthy_int (Some q)) eqn:Hq; simpl; [|done].
  destruct (allocatable in_use q); [|done]. by intros [= <-].
Qed.

Section Several.
Context (O : Oracle) (in_use : Z → bool).
Hypothesis stable : ∀ tr q, lsof O tr q = in_use q.

Lemma allocate_port_stable project plugin preferred type st :
  (allocate_port O project plugin preferred type st).1 = choice in_use preferred type.
Proof.
  unfold allocate_port, choice. unfold bind at 1.
  destruct (_cleanup_stale_allocations O st) as [[] st1]; red_pairs.
  unfold bind at 1.
  destruct preferred as [p|].
  - destruct (truthy_int (Some p)); simpl.
    + unfold bind at 1.
      pose proof (_can_allocate_port_stable O in_use p st1 stable) as Hcan.
      destruct (_can_allocate_port O p st1) as [ok st2]; red_pairs. subst ok.
      destruct (allocatable in_use p).
      * unfold bind at 1.
        by destruct (_register_allocation O p project plugin st2) as [[] st3].
      * unfold ret. red_pairs. by apply scan_range_stable.
    + unfold ret. red_pairs. by apply scan_range_stable.
  - unfold ret. red_pairs. by apply scan_range_stable.
Qed.

Lemma allocate_each_stable project configs allocations st :
  Forall (λ config, is_Some (name config)) configs →
  (allocate_each O project configs allocations st).1
  = Some (fold_left (record_choice in_use) configs allocations).
Proof.
  intros Hnamed. revert allocations st.
  induction Hnamed as [|config configs [plugin Hname] _ IH]; intros allocations st; [done|].
  simpl. rewrite Hname. unfold bind at 1.
  pose proof (allocate_port_stable project plugin (preferred_port config)
                (if port_type config is Some type then type else "debug") st) as Hport.
  destruct (allocate_port O project plugin _ _ st) as [allocated st1]; red_pairs.
  rewrite IH. do 2 f_equal. unfold record_choice, type_of. rewrite Hname, <- Hport.
  destruct allocated as [p|] eqn:Hp; [|done].
  symmetry in Hport. apply choice_truthy in Hport. by rewrite Hport.
Qed.

End Several.

Section Interrupted.
Context (O : Oracle).

Lemma allocate_each_named project configs allocations st :
  Forall (λ config, is_Some (name config)) configs →
  is_Some (allocate_each O project configs allocations st).1.
Proof.
  intros Hnamed. revert allocations st.
  induction Hnamed as [|config configs [plugin Hname] _ IH]; intros allocations st; [done|].
  simpl. rewrite Hname. unfold bind at 1.
  destruct (allocate_port O project plugin _ _ st) as [allocated st1]. apply IH.
Qed.

Lemma allocate_each_app project configs1 configs2 allocations st :
  allocate_each O project (configs1 ++ configs2) allocations st
  = match allocate_each O project configs1 allocations st with
    | (Some allocations', st') => allocate_each O project configs2 allocations' st'
    | (None, st') => (None, st')
    end.
Proof.
  revert allocations st. induction configs1 as [|config configs1 IH]; intros allocations st;
    [done|].
  simpl. destruct (name config) as [plugin|]; [|done].
  unfold bind at 1 2.
  destruct (allocate_port O project plugin _ _ st) as [allocated st1]. apply IH.
Qed.

End Interrupted.

(** X11.  With an [lsof] whose answers do not change during the call,
    [auto_allocate_for_project] gives each named plug-in the port that
    [allocate_port] would choose for it alone (the preferred port if
    allocatable, else the first allocatable port of its range): the
    allocations made earlier in the same call have no influence. *)
Theorem auto_allocate_for_project_stable O in_use project configs st :
  (∀ tr q, lsof O tr q = in_use q) →
  Forall (λ config, is_Some (name config)) configs →
  (auto_allocate_for_project O project configs st).1
  = Some (fold_left (record_choice in_use) configs []).
Proof. intros Hst Hnamed. by apply allocate_each_stable. Qed.

Definition panel (plugin : string) : Config :=
  {| name := Some plugin; preferred_port := None; port_type := None |}.

Lemma auto_allocate_for_project_stable_witness :
  (auto_allocate_for_project two_taken "proj1"
     [panel "panelA";
      {| name := Some "server"; preferred_port := Some 9234; port_type := Some "vite" |}]
     (init None [])).1
  = Some [("panelA", 9232); ("server", 5173)].
Proof.
  rewrite (auto_allocate_for_project_stable two_taken
             (λ q, bool_decide (q = 9233 ∨ q = 9234))); [by vm_compute | done |].
  repeat constructor; by eexists.
Defined.

(** X12.  Two plug-ins of one call are given the same port: when no
    configuration prefers a port, all are of one port type and [lsof] does
    not change its answers (nothing binds a port between two allocations of
    the same call), every plug-in of the returned dictionary has the same
    port. *)
Theorem auto_allocate_for_project_shares_port O in_use project type configs st
    allocations plugin1 plugin2 p1 p2 :
  (∀ tr q, lsof O tr q = in_use q) →
  Forall (λ config, is_Some (name config) ∧ preferred_port config = None ∧
                    type_of config = type) configs →
  (auto_allocate_for_project O project configs st).1 = Some allocations →
  names_get plugin1 allocations = Some p1 →
  names_get plugin2 allocations = Some p2 →
  p1 = p2.
Proof.
  intros Hst Hconfigs. unfold auto_allocate_for_project.
  rewrite (allocate_each_stable O in_use) by (done || by eapply Forall_impl; [done|intros ? []]).
  intros [= <-].
  assert (Hinv : ∀ acc port,
            (∀ n v, names_get n acc = Some v → Some v = port) →
            port = find (allocatable in_use) (port_range type) →
            ∀ n v, names_get n (fold_left (record_choice in_use) configs acc) = Some v →
                   Some v = port).
  { clear plugin1 plugin2 p1 p2. intros acc port Hacc ->. revert acc Hacc.
    induction Hconfigs as [|config configs (Hname & Hpref & Htype) _ IH]; intros acc Hacc;
      [done|].
    simpl. apply IH. unfold record_choice, choice. rewrite Hpref, Htype.
    destruct (name config) as [plugin|]; [|done].
    destruct (find _ _) as [p|] eqn:Hfind; [|done].
    intros n v. rewrite names_get_set. destruct (String.eqb plugin n); [|by apply Hacc].
    by intros [= <-]. }
  intros H1 H2.
  assert (Hnil : ∀ n v, names_get n [] = Some v →
                        Some v = find (allocatable in_use) (port_range type)) by done.
  apply (Hinv [] _ Hnil eq_refl) in H1. apply (Hinv [] _ Hnil eq_refl) in H2.
  congruence.
Qed.

Lemma auto_allocate_for_project_shares_port_witness :
  (auto_allocate_for_project two_taken "proj1" [panel "panelA"; panel "panelB"]
     (init None [])).1
  = Some [("panelA", 9232); ("panelB", 9232)] ∧ 9232 = 9232.
Proof.
  split; [by vm_compute|].
  apply (auto_allocate_for_project_shares_port two_taken
           (λ q, bool_decide (q = 9233 ∨ q = 9234)) "proj1" "debug"
           [panel "panelA"; panel "panelB"] (init None [])
           [("panelA", 9232); ("panelB", 9232)] "panelA" "panelB").
  - done.
  - repeat constructor; by eexists.
  - by vm_compute.
  - reflexivity.
  - reflexivity.
Defined.

(** X13.  A configuration without a 'name' key makes
    [auto_allocate_for_project] raise [KeyError]: the caller gets no
    dictionary, the configurations after it are not looked at, but the
    ports of the named configurations before it have been allocated and
    stay in the registry and in the file, exactly as if the call had
    stopped there. *)
Theorem auto_allocate_for_project_missing_name O project configs config rest st :
  Forall (λ config, is_Some (name config)) configs →
  name config = None →
  auto_allocate_for_project O project (configs ++ config :: rest) st
  = (None, (auto_allocate_for_project O project configs st).2).
Proof.
  intros Hnamed Hname. unfold auto_allocate_for_project. rewrite allocate_each_app.
  pose proof (allocate_each_named O project configs [] st Hnamed) as [allocations Hsome].
  destruct (allocate_each O project configs [] st) as [r st']. red_pairs. subst r.
  simpl. by rewrite Hname.
Qed.

Lemma auto_allocate_for_project_missing_name_witness :
  let run := auto_allocate_for_project two_taken "proj1"
               [panel "panelA";
                {| name := None; preferred_port := Some 9240; port_type := None |};
                panel "panelB"] (init None []) in
  run.1 = None ∧
  project_name <$> dict_get 9232 (registry run.2) = Some "proj1" ∧
  disk run.2 = Some (registry run.2).
Proof.
  intros run. subst run.
  rewrite (auto_allocate_for_project_missing_name two_taken "proj1" [panel "panelA"]
             {| name := None; preferred_port := Some 9240; port_type := None |}
             [panel "panelB"]); [by vm_compute | | done].
  repeat constructor; by eexists.
Defined.

End Registry.

(** ** EfficientLocalhostValidator (efficient_localhost_validator.py) *)
Module Validator.

(** What [json.loads] builds. *)
#[local] Unset Elimination Schemes.
Inductive json :=
| JNull
| JBool (b : bool)
| JInt (n : Z)
| JFloat (lexeme : string)
| JStr (s : string)
| JArr (items : list json)
| JObj (fields : list (string * json)).
#[local] Set Elimination Schemes.

(** The exceptions that the handlers of [validate_port] tell apart.
    [Other] is any other [Exception]; it carries [str(e)]. *)
Inductive Exn :=
| HTTPError (code : Z) (msg : string)
| URLError (reason : string)
| Other (message : string).

(** [str(e)] *)
Definition str_exn (e : Exn) : string :=
  match e with
  | HTTPError code msg => "HTTP Error " +:+ pretty code +:+ ": " +:+ msg
  | URLError reason => "<urlopen error " +:+ reason +:+ ">"
  | Other message => message
  end.

(** The name Python gives to the type of a value. *)
Definition type_name (j : json) : string :=
  match j with
  | JNull => "NoneType" | JBool _ => "bool" | JInt _ => "int" | JFloat _ => "float"
  | JStr _ => "str" | JArr _ => "list" | JObj _ => "dict"
  end.

(** The characters of a string, one string each.  (A [string] here is a
    sequence of bytes; the loop below fails on the first item, so only
    whether there is one matters.) *)
Fixpoint chars (s : string) : list json :=
  match s with
  | EmptyString => []
  | String c rest => JStr (String c EmptyString) :: chars rest
  end.

(** [for target in targets]: the values that the loop visits. *)
Definition py_iter (targets : json) : Exn + list json :=
  match targets with
  | JArr items => inr items
  | JObj fields => inr (JStr <$> fields.*1)
  | JStr s => inr (chars s)
  | _ => inl (Other ("'" +:+ type_name targets +:+ "' object is not iterable"))
  end.

Fixpoint fields_get (key : string) (fields : list (string * json)) : option json :=
  match fields with
  | [] => None
  | (k, v) :: rest => if String.eqb k key then Some v else fields_get key rest
  end.

(** [target.get(key, default)] *)
Definition py_get (target : json) (key : string) (default : json) : Exn + json :=
  match target with
  | JObj fields => inr (if fields_get key fields is Some v then v else default)
  | _ => inl (Other ("'" +:+ type_name target +:+ "' object has no attribute 'get'"))
  end.

(** [needle in container] for a [str] needle. *)
Definition py_in (needle : string) (container : json) : Exn + bool :=
  match container with
  | JStr s => inr (str_contains needle s)
  | JArr items =>
      inr (existsb (λ x, if x is JStr s then String.eqb s needle else false) items)
  | JObj fields => inr (existsb (String.eqb needle) fields.*1)
  | _ => inl (Other ("argument of type '" +:+ type_name container +:+ "' is not iterable"))
  end.

(** The body of the loop over the targets: the title of the first target
    that names the plug-in, or that mentions CEP or Extension. *)
Fixpoint find_plugin (plugin_name : option string) (targets : list json)
    : Exn + option json :=
  match targets with
  | [] => inr None
  | target :: rest =>
      match py_get target "title" (JStr "") with
      | inl e => inl e
      | inr title =>
          let named :=
            match plugin_name with
            | Some n => if truthy_str plugin_name then py_in n title else inr false
            | None => inr false
            end in
          match named with
          | inl e => inl e
          | inr true => inr (Some title)
          | inr false =>
              match py_in "CEP" title with
              | inl e => inl e
              | inr true => inr (Some title)
              | inr false =>
                  match py_in "Extension" title with
                  | inl e => inl e
                  | inr true => inr (Some title)
                  | inr false => find_plugin plugin_name rest
                  end
              end
          end
      end
  end.

(** What the decoded response makes of the result, once it is decoded:
    [for target in targets: ...]. *)
Definition inspect_targets (plugin_name : option string) (targets : json)
    : Exn + option json :=
  match py_iter targets with
  | inl e => inl e
  | inr items => find_plugin plugin_name items
  end.

(** The dictionary that [validate_port] returns; ['plugin_title'] is
    present only once a plug-in was recognised. *)
Record Result := {
  port : Z;
  plugin_name : option string;
  available : bool;
  reachable : bool;
  is_plugin : bool;
  error : option string;
  timestamp : Z;
  from_cache : bool;
  plugin_title : option json;
}.

(** The dictionary as [validate_port] first builds it. *)
Definition fresh_result (p : Z) (name : option string) (now : Z) : Result :=
  {| port := p; plugin_name := name; available := false; reachable := false;
     is_plugin := false; error := None; timestamp := now; from_cache := false;
     plugin_title := None |}.

#[local] Instance Result_inhabited : Inhabited Result := populate (fresh_result 0 None 0).

Definition set_from_cache (b : bool) (r : Result) : Result :=
  {| port := port r; plugin_name := plugin_name r; available := available r;
     reachable := reachable r; is_plugin := is_plugin r; error := error r;
     timestamp := timestamp r; from_cache := b; plugin_title := plugin_title r |}.

Definition set_error (e : string) (r : Result) : Result :=
  {| port := port r; plugin_name := plugin_name r; available := available r;
     reachable := reachable r; is_plugin := is_plugin r; error := Some e;
     timestamp := timestamp r; from_cache := from_cache r; plugin_title := plugin_title r |}.

(** [result['reachable'] = True; result['available'] = True] *)
Definition set_reachable_available (r : Result) : Result :=
  {| port := port r; plugin_name := plugin_name r; available := true;
     reachable := true; is_plugin := is_plugin r; error := error r;
     timestamp := timestamp r; from_cache := from_cache r; plugin_title := plugin_title r |}.

(** [result['is_plugin'] = True; result['plugin_title'] = title] *)
Definition set_plugin (title : json) (r : Result) : Result :=
  {| port := port r; plugin_name := plugin_name r; available := available r;
     reachable := reachable r; is_plugin := true; error := error r;
     timestamp := timestamp r; from_cache := from_cache r; plugin_title := Some title |}.

(** The three [except] clauses after the request: what each of them
    writes under ['error']. *)
Definition http_error_text (e : Exn) : string :=
  match e with
  | HTTPError code _ => "HTTP error: " +:+ pretty code
  | URLError reason => "URL error: " +:+ reason
  | Other message => "Unexpected error: " +:+ message
  end.

(** Answers of the system. *)
Inductive ConnectAnswer :=
| ConnectCode (rc : Z)              (* what [connect_ex] returned *)
| ConnectRaised (message : string)  (* creating or connecting the socket raised *).

Inductive HttpAnswer :=
| HttpRaised (e : Exn)              (* [urlopen], [read] or [decode] raised *)
| HttpNotJson (message : string)    (* [json.loads] raised on the body *)
| HttpJson (targets : json)         (* the decoded body *).

Inductive Event :=
| Now (t : Z)
| Connect (p : Z) (a : ConnectAnswer)
| HttpGet (p : Z) (a : HttpAnswer)
| SaveCache (data : dict Result).

Record Oracle := {
  clock : list Event → Z;
  connect : list Event → Z → ConnectAnswer;
  http_json : list Event → Z → HttpAnswer;
}.

(** A validator object in its world.  The result dictionaries are objects:
    [validate_port] stores the very dictionary it returns in [self._cache]
    and later changes it in place, so the cache maps a port to a reference
    into [heap] and a result is returned as a reference. *)
Record State := {
  cache : dict nat;
  heap : list Result;
  disk : option (dict Result);
  trace : list Event;
}.

(** Computations that may raise; the state survives a raise. *)
Definition M (A : Type) : Type := State → (Exn + A) * State.

Definition ret {A} (a : A) : M A := λ st, (inr a, st).
Definition raise {A} (e : Exn) : M A := λ st, (inl e, st).
Definition bind {A B} (m : M A) (f : A → M B) : M B :=
  λ st, match m st with
        | (inr a, st') => f a st'
        | (inl e, st') => (inl e, st')
        end.
(** [try: m except Exception as e: handler e] *)
Definition try_except {A} (m : M A) (handler : Exn → M A) : M A :=
  λ st, match m st with
        | (inl e, st') => handler e st'
        | (inr a, st') => (inr a, st')
        end.
Definition lift {A} (r : Exn + A) : M A := λ st, (r, st).

Declare Scope raising_scope.
Notation "x <- m ;; k" := (bind m (λ x, k))
  (at level 62, m at next level, right associativity) : raising_scope.
Notation "m ;;; k" := (bind m (λ _, k))
  (at level 62, right associativity) : raising_scope.
#[local] Open Scope raising_scope.

Definition get_cache : M (dict nat) := λ st, (inr (cache st), st).
(** Reading an object.  A reference held by the cache or by a caller
    always points into the heap; the default is never seen. *)
Definition deref (r : nat) : M Result := λ st, (inr (heap st !!! r), st).

(** A new dictionary object. *)
Definition new_object (v : Result) : M nat :=
  λ st, (inr (length (heap st)),
         {| cache := cache st; heap := heap st ++ [v]; disk := disk st; trace := trace st |}).
(** [obj[key] = value], in place. *)
Definition modify (r : nat) (f : Result → Result) : M unit :=
  λ st, (inr tt, {| cache := cache st; heap := alter f r (heap st); disk := disk st;
                    trace := trace st |}).
(** [self._cache[str(port)] = result] *)
Definition cache_store (p : Z) (r : nat) : M unit :=
  λ st, (inr tt, {| cache := dict_set p r (cache st); heap := heap st; disk := disk st;
                    trace := trace st |}).

(** What [json.dump(self._cache)] writes: the content of every cached
    object, under its key. *)
Definition snapshot (c : dict nat) (h : list Result) : dict Result :=
  omap (λ '(p, r), (λ v, (p, v)) <$> h !! r) c.

(** [_save_cache] where the file can be written; the calls in which the
    write raises are in [Storage] below. *)
Definition _save_cache : M unit :=
  λ st, let data := snapshot (cache st) (heap st) in
        (inr tt, {| cache := cache st; heap := heap st; disk := Some data;
                    trace := trace st ++ [SaveCache data] |}).

(** [self.cache_duration], 300 seconds, in microseconds. *)
Definition cache_duration : Z := 300 * 1000000.

Section WithOracle.
Context (O : Oracle).

Definition datetime_now : M Z :=
  λ st, let t := clock O (trace st) in
        (inr t, {| cache := cache st; heap := heap st; disk := disk st;
                   trace := trace st ++ [Now t] |}).

(** The socket is created, given a 2 second timeout and connected with
    [connect_ex]. *)
Definition socket_connect_ex (p : Z) : M Z :=
  λ st, let a := connect O (trace st) p in
        let st' := {| cache := cache st; heap := heap st; disk := disk st;
                      trace := trace st ++ [Connect p a] |} in
        match a with
        | ConnectCode rc => (inr rc, st')
        | ConnectRaised message => (inl (Other message), st')
        end.

(** [json.loads(urlopen('http://localhost:p/json', timeout=2).read().decode())] *)
Definition urlopen_json (p : Z) : M json :=
  λ st, let a := http_json O (trace st) p in
        let st' := {| cache := cache st; heap := heap st; disk := disk st;
                      trace := trace st ++ [HttpGet p a] |} in
        match a with
        | HttpRaised e => (inl e, st')
        | HttpNotJson message => (inl (Other message), st')
        | HttpJson targets => (inr targets, st')
        end.

Definition _is_cache_valid (p : Z) : M bool :=
  c <- get_cache ;;
  match dict_get p c with
  | None => ret false
  | Some r =>
      cached <- deref r ;;
      now <- datetime_now ;;
      ret (now - timestamp cached <? cache_duration)
  end.

(** The part of [validate_port] below the comment "Perform validation". *)
Definition perform_validation (p : Z) (name : option string) : M nat :=
  now <- datetime_now ;;
  result <- new_object (fresh_result p name now) ;;
  returned <-
    try_except
      (connection_result <- socket_connect_ex p ;;
       if negb (connection_result =? 0) then
         modify result (set_error "Port not open") ;;;
         cache_store p result ;;; _save_cache ;;; ret true
       else ret false)
      (λ e, modify result (set_error ("Socket error: " +:+ str_exn e)) ;;;
            cache_store p result ;;; _save_cache ;;; ret true) ;;
  if (returned : bool) then ret result
  else
    try_except
      (targets <- urlopen_json p ;;
       modify result set_reachable_available ;;;
       found <- lift (inspect_targets name targets) ;;
       match found with
       | Some title => modify result (set_plugin title)
       | None => ret tt
       end)
      (λ e, modify result (set_error (http_error_text e))) ;;;
    cache_store p result ;;; _save_cache ;;; ret result.

Definition validate_port (p : Z) (name : option string) (force : bool) : M nat :=
  valid <- (if force then ret false else _is_cache_valid p) ;;
  if (valid : bool) then
    c <- get_cache ;;
    match dict_get p c with
    | Some cached => modify cached (set_from_cache true) ;;; ret cached
    | None => raise (Other "KeyError")
    end
  else perform_validation p name.

End WithOracle.

(** [EfficientLocalhostValidator()] in a world whose cache file holds [d]:
    every entry of the file becomes an object of its own. *)
Definition init (d : option (dict Result)) (tr : list Event) : State :=
  let entries := if d is Some entries then entries else [] in
  {| cache := zip entries.*1 (seq 0 (length entries)); heap := entries.*2;
     disk := d; trace := tr |}.

Arguments perform_validation : simpl never.

(** *** One probe, spelled out *)

(** What the decoded or failed response makes of the fresh result. *)
Definition response_result (name : option string) (res0 : Result) (h : HttpAnswer) : Result :=
  match h with
  | HttpRaised e => set_error (http_error_text e) res0
  | HttpNotJson message => set_error ("Unexpected error: " +:+ message) res0
  | HttpJson targets =>
      match inspect_targets name targets with
      | inl e => set_error (http_error_text e) (set_reachable_available res0)
      | inr (Some title) => set_plugin title (set_reachable_available res0)
      | inr None => set_reachable_available res0
      end
  end.

(** The result of a probe whose socket answered [a] and whose request, if
    one was made, answered [h]. *)
Definition probe_result (name : option string) (res0 : Result)
    (a : ConnectAnswer) (h : HttpAnswer) : Result :=
  match a with
  | ConnectCode rc =>
      if rc =? 0 then response_result name res0 h else set_error "Port not open" res0
  | ConnectRaised message => set_error ("Socket error: " +:+ message) res0
  end.

(** The request is made only after [connect_ex] returned 0. *)
Definition probe_events (p : Z) (a : ConnectAnswer) (h : HttpAnswer) : list Event :=
  Connect p a ::
  match a with
  | ConnectCode rc => if rc =? 0 then [HttpGet p h] else []
  | ConnectRaised _ => []
  end.

Lemma alter_last {A} (f : A → A) (l : list A) (x : A) :
  alter f (length l) (l ++ [x]) = l ++ [f x].
Proof.
  replace (length l) with (length l + 0)%nat by lia. by rewrite alter_app_r.
Qed.

Ltac unfold_m :=
  unfold bind, ret, raise, try_except, lift, get_cache, deref, new_object, modify,
    cache_store, _save_cache in *.

Lemma perform_validation_run O p name st :
  let t := clock O (trace st) in
  let a := connect O (trace st ++ [Now t]) p in
  let h := http_json O ((trace st ++ [Now t]) ++ [Connect p a]) p in
  let r := length (heap st) in
  let res := probe_result name (fresh_result p name t) a h in
  let c' := dict_set p r (cache st) in
  let h' := heap st ++ [res] in
  perform_validation O p name st =
    (inr r, {| cache := c'; heap := h'; disk := Some (snapshot c' h');
               trace := trace st ++ Now t :: probe_events p a h ++ [SaveCache (snapshot c' h')] |}).
Proof.
  cbv zeta.
  unfold perform_validation, datetime_now, socket_connect_ex, urlopen_json. unfold_m.
  unfold probe_result, probe_events, response_result.
  cbn -[snapshot fresh_result inspect_targets "++" dict_set alter].
  destruct (connect O (trace st ++ [Now (clock O (trace st))]) p) as [rc|message];
    cbn -[snapshot fresh_result inspect_targets "++" dict_set alter].
  - destruct (rc =? 0) eqn:Hrc;
      cbn -[snapshot fresh_result inspect_targets "++" dict_set alter].
    + destruct (http_json O _ p) as [e|message|targets];
        cbn -[snapshot fresh_result inspect_targets "++" dict_set alter].
      * rewrite !alter_last. by rewrite <- !app_assoc.
      * rewrite !alter_last. by rewrite <- !app_assoc.
      * destruct (inspect_targets name targets) as [e|[title|]];
          cbn -[snapshot fresh_result inspect_targets "++" dict_set alter];
          rewrite ?alter_last; by rewrite <- !app_assoc.
    + rewrite !alter_last. by rewrite <- !app_assoc.
  - rewrite !alter_last. by rewrite <- !app_assoc.
Qed.

(** *** The two ways through [validate_port] *)

(** [st] after the clock was read once more. *)
Definition after_clock (O : Oracle) (st : State) : State :=
  {| cache := cache st; heap := heap st; disk := disk st;
     trace := trace st ++ [Now (clock O (trace st))] |}.

(** The state in which the cached dictionary of [r] is marked. *)
Definition served (O : Oracle) (st : State) (r : nat) : State :=
  {| cache := cache st; heap := alter (set_from_cache true) r (heap st); disk := disk st;
     trace := trace st ++ [Now (clock O (trace st))] |}.

Lemma validate_port_cases (O : Oracle) (p : Z) (name : option string) (force : bool)
    (st : State) :
  (∃ r, force = false ∧ dict_get p (cache st) = Some r ∧
        clock O (trace st) - timestamp (heap st !!! r) < cache_duration ∧
        validate_port O p name force st = (inr r, served O st r)) ∨
  (∃ st0, (st0 = st ∨ st0 = after_clock O st) ∧
          validate_port O p name force st = perform_validation O p name st0).
Proof.
  unfold validate_port. destruct force.
  - right. exists st. split; [by left|]. unfold_m. by destruct st.
  - unfold _is_cache_valid, datetime_now. unfold_m. simpl.
    destruct (dict_get p (cache st)) as [r|] eqn:Hp; simpl.
    + destruct (_ <? cache_duration) eqn:Hage; simpl.
      * left. exists r. rewrite Hp. simpl. split_and!; try done. lia.
      * right. exists (after_clock O st). split; [by right | done].
    + right. exists st. split; [by left|]. by destruct st.
Qed.

(** A call that probes leaves these events behind. *)
Lemma validate_port_probing (O : Oracle) (st st0 : State) :
  st0 = st ∨ st0 = after_clock O st →
  ∃ pre, trace st0 = trace st ++ pre ∧ heap st0 = heap st ∧ cache st0 = cache st ∧
         ∀ q a, (Connect q a ∉ pre) ∧ ∀ h, (HttpGet q h ∉ pre).
Proof.
  intros [->| ->].
  - exists []. rewrite app_nil_r. split_and!; try done. intros q a.
    split; [|intros h]; apply not_elem_of_nil.
  - exists [Now (clock O (trace st))]. split_and!; try done. intros q a.
    split; [|intros h]; by intros [=]%list_elem_of_singleton.
Qed.

(** A call that probes: the object it returns is new, it holds the result
    of the probe, it is the cache entry of the port, and the events are the
    clock, the socket, the request if there was one, and the save. *)
Lemma validate_port_probe_spec (O : Oracle) (p : Z) (name : option string) (force : bool)
    (st st0 : State) :
  st0 = st ∨ st0 = after_clock O st →
  validate_port O p name force st = perform_validation O p name st0 →
  ∃ pre t a h st',
    validate_port O p name force st = (inr (length (heap st)), st') ∧
    heap st' = heap st ++ [probe_result name (fresh_result p name t) a h] ∧
    cache st' = dict_set p (length (heap st)) (cache st) ∧
    events_since (trace st) (trace st') =
      pre ++ Now t :: probe_events p a h ++ [SaveCache (snapshot (cache st') (heap st'))] ∧
    ∀ q b, (Connect q b ∉ pre) ∧ ∀ x, (HttpGet q x ∉ pre).
Proof.
  intros Hst0 Hrun. rewrite Hrun.
  destruct (validate_port_probing O st st0 Hst0) as (pre & Htr & Hheap & Hcache & Hpre).
  rewrite perform_validation_run. rewrite Hheap, Hcache, Htr.
  eexists pre, _, _, _, _. split; [reflexivity|]. simpl. split_and!; try done.
  by rewrite <- app_assoc, events_since_app.
Qed.

Lemma probe_events_Connect p a h q b : Connect q b ∈ probe_events p a h → q = p ∧ b = a.
Proof.
  unfold probe_events. intros [[= -> ->]|Hin]%elem_of_cons; [done|].
  destruct a as [rc|m]; [destruct (rc =? 0)|];
    repeat (apply elem_of_cons in Hin as [[=]|Hin]); by apply elem_of_nil in Hin.
Qed.

Lemma probe_events_HttpGet p a h q x :
  HttpGet q x ∈ probe_events p a h → q = p ∧ x = h ∧ a = ConnectCode 0.
Proof.
  unfold probe_events. intros [[=]|Hin]%elem_of_cons.
  destruct a as [rc|m]; [destruct (rc =? 0) eqn:Hrc|].
  - apply Z.eqb_eq in Hrc. subst rc.
    apply elem_of_cons in Hin as [[= -> ->]|Hin]; [done | by apply elem_of_nil in Hin].
  - by apply elem_of_nil in Hin.
  - by apply elem_of_nil in Hin.
Qed.

(** In the events of a probing call, the socket and the request appear
    once, with the answers that made the result. *)
Lemma probing_trace_Connect pre t p a h d q b :
  (∀ q b, (Connect q b ∉ pre) ∧ ∀ x, (HttpGet q x ∉ pre)) →
  Connect q b ∈ pre ++ Now t :: probe_events p a h ++ [SaveCache d] → q = p ∧ b = a.
Proof.
  intros Hpre [Hin|[[=]|[Hin|Hin]%elem_of_app]%elem_of_cons]%elem_of_app.
  - by destruct (proj1 (Hpre q b)).
  - by apply probe_events_Connect in Hin.
  - by apply list_elem_of_singleton in Hin.
Qed.

Lemma probing_trace_HttpGet pre t p a h d q x :
  (∀ q b, (Connect q b ∉ pre) ∧ ∀ x, (HttpGet q x ∉ pre)) →
  HttpGet q x ∈ pre ++ Now t :: probe_events p a h ++ [SaveCache d] →
  q = p ∧ x = h ∧ a = ConnectCode 0.
Proof.
  intros Hpre [Hin|[[=]|[Hin|Hin]%elem_of_app]%elem_of_cons]%elem_of_app.
  - by destruct (proj2 (Hpre q (ConnectCode 0)) x).
  - by apply probe_events_HttpGet in Hin.
  - by apply list_elem_of_singleton in Hin.
Qed.

Lemma lookup_last_object (h : list Result) (res : Result) :
  (h ++ [res]) !! length h = Some res.
Proof. by rewrite list_lookup_middle. Qed.

(** *** Worlds with fixed answers *)

(** Nothing listens on the machine: every connection is refused (111 is
    [ECONNREFUSED]); the clock advances by a second at every event. *)
Definition ticking (tr : list Event) : Z := 1000000 * Z.of_nat (length tr).

Definition nothing_listens : Oracle :=
  {| clock := ticking; connect := λ _ _, ConnectCode 111;
     http_json := λ _ _, HttpRaised (URLError "[Errno 111] Connection refused") |}.

(** *** A response that does not parse *)

(** What the loop over the targets raises is a [TypeError] or an
    [AttributeError], never one of the two [urllib] exceptions. *)
Lemma find_plugin_raises name items e :
  find_plugin name items = inl e → ∃ message, e = Other message.
Proof.
  induction items as [|target items IH]; simpl; [done|].
  destruct target; simpl; try (intros [= <-]; by eexists).
  match goal with |- context [match ?t with Some v => v | None => _ end] =>
    generalize t; intros title end.
  assert (Hin : ∀ needle r, py_in needle
            (match title with Some v => v | None => JStr "" end) = inl r →
            ∃ message, r = Other message).
  { intros needle r. destruct title as [[]|]; simpl; intros [= <-]; by eexists. }
  destruct name as [n|]; simpl.
  - destruct (negb (String.eqb n "")).
    + destruct (py_in n _) as [r|[]] eqn:E1; [intros [= <-]; by eapply Hin | by intros [=] |].
      destruct (py_in "CEP" _) as [r|[]] eqn:E2; [intros [= <-]; by eapply Hin | by intros [=] |].
      destruct (py_in "Extension" _) as [r|[]] eqn:E3;
        [intros [= <-]; by eapply Hin | by intros [=] | done].
    + destruct (py_in "CEP" _) as [r|[]] eqn:E2; [intros [= <-]; by eapply Hin | by intros [=] |].
      destruct (py_in "Extension" _) as [r|[]] eqn:E3;
        [intros [= <-]; by eapply Hin | by intros [=] | done].
  - destruct (py_in "CEP" _) as [r|[]] eqn:E2; [intros [= <-]; by eapply Hin | by intros [=] |].
    destruct (py_in "Extension" _) as [r|[]] eqn:E3;
      [intros [= <-]; by eapply Hin | by intros [=] | done].
Qed.

Lemma inspect_targets_raises name targets e :
  inspect_targets name targets = inl e → ∃ message, e = Other message.
Proof.
  unfold inspect_targets. destruct (py_iter targets) as [r|items] eqn:E.
  - intros [= <-]. destruct targets; simpl in E; simplify_eq; by eexists.
  - apply find_plugin_raises.
Qed.

(** *** Served from the cache *)

(** Whatever way the call takes, the object it returns is the cache entry
    of the port. *)
Lemma validate_port_result_cached (O : Oracle) (p : Z) (name : option string)
    (force : bool) (st st' : State) (r : nat) :
  validate_port O p name force st = (inr r, st') → dict_get p (cache st') = Some r.
Proof.
  intros Hrun.
  destruct (validate_port_cases O p name force st)
    as [(r0 & _ & Hp & _ & Hserved)|(st0 & Hst0 & Hprobe)].
  - rewrite Hserved in Hrun. by simplify_eq.
  - destruct (validate_port_probe_spec O p name force st st0 Hst0 Hprobe)
      as (pre & t & a & h & st1 & Hrun1 & _ & Hcache & _).
    rewrite Hrun1 in Hrun. simplify_eq. rewrite Hcache. apply dict_get_set_eq.
Qed.

(** C4.  Without [force], when the cache holds for the port a result less
    than 300 seconds old, [validate_port] returns that very dictionary,
    with ['from_cache'] true and every other key as it was; no other
    dictionary changes, the cache and the cache file are what they were, and
    the call reads the clock and does nothing else: no socket, no request,
    no write of the cache file.  So after any call that returned a result,
    a second call within 300 seconds of the result's time stamp returns
    the same dictionary, key for key, but for ['from_cache'], which is
    true. *)
Theorem validate_port_served_from_cache (O : Oracle) (p : Z) (name : option string)
    (st : State) :
  (∀ r res, dict_get p (cache st) = Some r → heap st !! r = Some res →
            clock O (trace st) - timestamp res < cache_duration →
            ∃ st',
              validate_port O p name false st = (inr r, st') ∧
              heap st' !! r
              = Some {| port := port res; plugin_name := plugin_name res;
                        available := available res; reachable := reachable res;
                        is_plugin := is_plugin res; error := error res;
                        timestamp := timestamp res; from_cache := true;
                        plugin_title := plugin_title res |} ∧
              (∀ r', r' ≠ r → heap st' !! r' = heap st !! r') ∧
              cache st' = cache st ∧ disk st' = disk st ∧
              trace st' = trace st ++ [Now (clock O (trace st))]) ∧
  (∀ name1 force r1 st1 res1,
     validate_port O p name1 force st = (inr r1, st1) →
     heap st1 !! r1 = Some res1 →
     clock O (trace st1) - timestamp res1 < cache_duration →
     ∃ st2,
       validate_port O p name false st1 = (inr r1, st2) ∧
       heap st2 !! r1
       = Some {| port := port res1; plugin_name := plugin_name res1;
                 available := available res1; reachable := reachable res1;
                 is_plugin := is_plugin res1; error := error res1;
                 timestamp := timestamp res1; from_cache := true;
                 plugin_title := plugin_title res1 |} ∧
       (∀ r', r' ≠ r1 → heap st2 !! r' = heap st1 !! r') ∧
       cache st2 = cache st1 ∧ disk st2 = disk st1 ∧
       trace st2 = trace st1 ++ [Now (clock O (trace st1))]).
Proof.
  assert (Hone : ∀ st r res,
            dict_get p (cache st) = Some r → heap st !! r = Some res →
            clock O (trace st) - timestamp res < cache_duration →
            ∃ st',
              validate_port O p name false st = (inr r, st') ∧
              heap st' !! r
              = Some {| port := port res; plugin_name := plugin_name res;
                        available := available res; reachable := reachable res;
                        is_plugin := is_plugin res; error := error res;
                        timestamp := timestamp res; from_cache := true;
                        plugin_title := plugin_title res |} ∧
              (∀ r', r' ≠ r → heap st' !! r' = heap st !! r') ∧
              cache st' = cache st ∧ disk st' = disk st ∧
              trace st' = trace st ++ [Now (clock O (trace st))]).
  { clear st. intros st r res Hp Hres Hage. exists (served O st r). split_and!; try done.
    - unfold validate_port, _is_cache_valid, datetime_now. unfold_m. simpl.
      rewrite Hp. simpl. rewrite (list_lookup_total_correct _ _ _ Hres).
      destruct (_ <? cache_duration) eqn:E; [|lia]. simpl. by rewrite Hp.
    - simpl. by rewrite list_lookup_alter_eq, Hres.
    - intros r' Hne. simpl. by apply list_lookup_alter_ne. }
  split; [apply Hone|].
  intros name1 force r1 st1 res1 Hrun Hres Hage.
  apply Hone; [|done..]. by eapply validate_port_result_cached.
Qed.

(** A panel answers on the port. *)
Definition panel_up : Oracle :=
  {| clock := ticking; connect := λ _ _, ConnectCode 0;
     http_json := λ _ _, HttpJson (JArr [JObj [("title", JStr "AI SFX Generator");
                                              ("url", JStr "http://localhost:3001/main/")]]) |}.

(** What the first call finds. *)
Definition panel_result : Result :=
  {| port := 9230; plugin_name := Some "AI SFX Generator"; available := true;
     reachable := true; is_plugin := true; error := None; timestamp := 0;
     from_cache := false; plugin_title := Some (JStr "AI SFX Generator") |}.

Lemma validate_port_served_from_cache_witness :
  let first := validate_port panel_up 9230 (Some "AI SFX Generator") false (init None []) in
  let second := validate_port panel_up 9230 (Some "AI SFX Generator") false first.2 in
  first.1 = inr 0%nat ∧ second.1 = inr 0%nat ∧
  heap first.2 !! 0%nat = Some panel_result ∧
  from_cache panel_result = false ∧
  heap second.2 !! 0%nat
  = Some {| port := 9230; plugin_name := Some "AI SFX Generator"; available := true;
            reachable := true; is_plugin := true; error := None; timestamp := 0;
            from_cache := true; plugin_title := Some (JStr "AI SFX Generator") |}.
Proof.
  intros first second.
  assert (H1 : validate_port panel_up 9230 (Some "AI SFX Generator") false (init None [])
               = (inr 0%nat, first.2)) by (vm_compute; reflexivity).
  assert (Hres : heap first.2 !! 0%nat = Some panel_result) by (vm_compute; reflexivity).
  destruct (validate_port_served_from_cache panel_up 9230 (Some "AI SFX Generator")
              (init None [])) as [_ Htwice].
  destruct (Htwice (Some "AI SFX Generator") false 0%nat first.2 panel_result H1 Hres)
    as (st2 & Hrun2 & Hres2 & _); [vm_compute; reflexivity|].
  assert (Hsecond : second = (inr 0%nat, st2)) by exact Hrun2.
  split_and!; [vm_compute; reflexivity | by rewrite Hsecond | done | done |].
  rewrite Hsecond. exact Hres2.
Defined.


(** ** When the validator probes, and what a probe leaves behind *)

(** The call cannot answer from the cache: it is forced, or the cache has
    no entry for the port, or the entry is 300 seconds old or more. *)
Definition stale (O : Oracle) (p : Z) (force : bool) (st : State) : Prop :=
  force = true ∨
  ∀ r, dict_get p (cache st) = Some r →
       cache_duration ≤ clock O (trace st) - timestamp (heap st !!! r).

Lemma validate_port_fresh (O : Oracle) p name st r :
  dict_get p (cache st) = Some r →
  clock O (trace st) - timestamp (heap st !!! r) < cache_duration →
  validate_port O p name false st = (inr r, served O st r).
Proof.
  intros Hp Hage. unfold validate_port, _is_cache_valid, datetime_now. unfold_m. simpl.
  rewrite Hp. simpl. destruct (_ <? cache_duration) eqn:E; [|lia]. simpl. by rewrite Hp.
Qed.

Lemma stale_or_fresh (O : Oracle) p force st :
  stale O p force st ∨
  ∃ r, force = false ∧ dict_get p (cache st) = Some r ∧
       clock O (trace st) - timestamp (heap st !!! r) < cache_duration.
Proof.
  unfold stale. destruct force; [by left; left|].
  destruct (dict_get p (cache st)) as [r|]; [|by left; right].
  destruct (decide (clock O (trace st) - timestamp (heap st !!! r) < cache_duration)).
  - right. by exists r.
  - left. right. intros ? [= <-]. lia.
Qed.

Lemma validate_port_stale (O : Oracle) p name force st :
  stale O p force st →
  ∃ pre t a h st',
    validate_port O p name force st = (inr (length (heap st)), st') ∧
    heap st' = heap st ++ [probe_result name (fresh_result p name t) a h] ∧
    cache st' = dict_set p (length (heap st)) (cache st) ∧
    disk st' = Some (snapshot (cache st') (heap st')) ∧
    events_since (trace st) (trace st') =
      pre ++ Now t :: probe_events p a h ++ [SaveCache (snapshot (cache st') (heap st'))] ∧
    ∀ q b, (Connect q b ∉ pre) ∧ ∀ x, (HttpGet q x ∉ pre).
Proof.
  intros Hstale.
  destruct (validate_port_cases O p name force st) as [(r & -> & Hp & Hage & _)|(st0 & Hst0 & Hrun)].
  { destruct Hstale as [[=]|Hstale]. specialize (Hstale r Hp). lia. }
  rewrite Hrun.
  destruct (validate_port_probing O st st0 Hst0) as (pre & Htr & Hheap & Hcache & Hpre).
  rewrite perform_validation_run. rewrite Hheap, Hcache, Htr.
  eexists pre, _, _, _, _. split; [reflexivity|]. simpl. split_and!; try done.
  by rewrite <- app_assoc, events_since_app.
Qed.

Lemma probe_result_invariants name p t a h :
  let res := probe_result name (fresh_result p name t) a h in
  port res = p ∧ plugin_name res = name ∧ timestamp res = t ∧ from_cache res = false ∧
  available res = reachable res ∧
  (is_plugin res = true →
   reachable res = true ∧ error res = None ∧ is_Some (plugin_title res)) ∧
  (is_plugin res = false → plugin_title res = None) ∧
  (reachable res = false → is_Some (error res)).
Proof.
  cbv zeta. unfold probe_result, response_result.
  destruct a as [rc|m];
    [destruct (rc =? 0);
       [destruct h as [e|m|targets];
          [| |destruct (inspect_targets name targets) as [e|[title|]]]|]|];
    simpl; split_and!; done || eauto.
Qed.



(** X15.  [validate_port] touches the network exactly when it cannot
    answer from the cache: a connection is tried if and only if the call is
    forced, or the cache has no entry for the port, or the entry is 300
    seconds old or more.  Only the port asked about is ever tried, and a
    request is sent only after [connect_ex] returned 0. *)
Theorem validate_port_touches_network (O : Oracle) (p : Z) (name : option string)
    (force : bool) (st : State) :
  let evs := events_since (trace st) (trace (validate_port O p name force st).2) in
  ((∃ a, Connect p a ∈ evs) ↔
   force = true ∨
   ∀ r, dict_get p (cache st) = Some r →
        cache_duration ≤ clock O (trace st) - timestamp (heap st !!! r)) ∧
  (∀ q a, Connect q a ∈ evs → q = p) ∧
  (∀ q x, HttpGet q x ∈ evs → q = p ∧ Connect p (ConnectCode 0) ∈ evs).
Proof.
  cbv zeta. fold (stale O p force st).
  destruct (stale_or_fresh O p force st) as [Hstale|(r & -> & Hp & Hage)].
  - destruct (validate_port_stale O p name force st Hstale)
      as (pre & t & a & h & st1 & Hrun1 & _ & _ & _ & Hevs & Hpre).
    rewrite Hrun1. simpl. rewrite Hevs. split_and!.
    + split; [done|]. intros _. exists a. apply elem_of_app. right.
      apply list_elem_of_further, list_elem_of_here.
    + by intros q b [-> _]%probing_trace_Connect.
    + intros q x Hin. pose proof Hin as (-> & _ & ->)%probing_trace_HttpGet; [|done].
      split; [done|]. apply elem_of_app. right.
      apply list_elem_of_further, list_elem_of_here.
  - rewrite (validate_port_fresh O p name st r Hp Hage). simpl. rewrite events_since_app.
    split_and!.
    + split.
      * by intros [a [=]%list_elem_of_singleton].
      * intros [[=]|Hstale]. specialize (Hstale r Hp). lia.
    + by intros q a [=]%list_elem_of_singleton.
    + by intros q x [=]%list_elem_of_singleton.
Qed.





(** ** The loop over the targets, on a well-formed answer *)

(** [target.get('title', '')] of a JSON object, when it is a string. *)
Definition title_of (fields : list (string * json)) : option string :=
  match fields_get "title" fields with
  | Some (JStr s) => Some s
  | Some _ => None
  | None => Some ""
  end.

(** The condition of the loop on a title that is a string. *)
Definition recognised (name : option string) (title : string) : bool :=
  match name with
  | Some n => truthy_str name && str_contains n title
  | None => false
  end || str_contains "CEP" title || str_contains "Extension" title.

(** X18.  On a list of JSON objects whose titles, where present, are
    strings, the loop over the targets raises nothing and stops at the
    first target, in the order of the list, whose title contains the
    plug-in name (if one was given and is not empty), "CEP" or
    "Extension"; a target without title counts as the empty title.  So a
    target of another extension listed before the plug-in asked for is the
    one that is reported. *)
Theorem inspect_targets_well_formed (name : option string)
    (objects : list (list (string * json))) (titles : list string) :
  Forall2 (λ fields title, title_of fields = Some title) objects titles →
  inspect_targets name (JArr (JObj <$> objects))
  = inr (JStr <$> find (recognised name) titles).
Proof.
  unfold inspect_targets. cbn [py_iter].
  induction 1 as [|fields title objects titles Htitle _ IH]; [done|].
  cbn [fmap list_fmap find_plugin find py_get]. fold (@fmap list _ _ _ JObj objects).
  assert (Hget : (if fields_get "title" fields is Some v then v else JStr "") = JStr title).
  { unfold title_of in Htitle. destruct (fields_get "title" fields) as [[]|]; by simplify_eq. }
  rewrite Hget. cbn [py_in].
  destruct (recognised name title) eqn:Hrec; [|rewrite <- IH]; clear IH;
    unfold recognised in Hrec;
    (destruct name as [n|]; [destruct (truthy_str (Some n))|]);
    repeat match goal with
           | |- context [str_contains ?x title] => destruct (str_contains x title)
           end;
    simpl in Hrec; done.
Qed.

Lemma inspect_targets_well_formed_witness :
  inspect_targets (Some "AI SFX")
    (JArr [JObj [("url", JStr "about:blank")];
           JObj [("title", JStr "Other Extension")];
           JObj [("title", JStr "AI SFX Generator")]])
  = inr (Some (JStr "Other Extension")).
Proof.
  apply (inspect_targets_well_formed (Some "AI SFX")
           [[("url", JStr "about:blank")]; [("title", JStr "Other Extension")];
            [("title", JStr "AI SFX Generator")]]
           [""; "Other Extension"; "AI SFX Generator"]).
  repeat constructor.
Defined.

(** ** The cache file *)

Lemma dict_get_snapshot p (c : dict nat) (h : list Result) r v :
  dict_get p c = Some r → h !! r = Some v → dict_get p (snapshot c h) = Some v.
Proof.
  intros Hp Hr. induction c as [|[q r'] c IH]; [done|].
  unfold snapshot in *. cbn [omap list_omap dict_get] in *.
  destruct (q =? p) eqn:Hq.
  - simplify_eq. rewrite Hr. cbn. by rewrite Hq.
  - destruct (h !! r') as [v'|]; cbn; [rewrite Hq|]; by apply IH.
Qed.

Lemma dict_get_zip_seq {V} p (d : @dict V) v k :
  dict_get p d = Some v →
  ∃ i, dict_get p (zip d.*1 (seq k (length d))) = Some (k + i)%nat ∧ d.*2 !! i = Some v.
Proof.
  revert k. induction d as [|[q w] d IH]; intros k Hp; [done|].
  cbn in Hp |- *. destruct (q =? p) eqn:Hq.
  - simplify_eq. exists 0%nat. by rewrite Nat.add_0_r.
  - destruct (IH (S k) Hp) as (i & Hget & Hi). exists (S i).
    by rewrite Nat.add_succ_r.
Qed.

Lemma init_lookup p d v tr :
  dict_get p d = Some v →
  ∃ r, dict_get p (cache (init (Some d) tr)) = Some r ∧ heap (init (Some d) tr) !! r = Some v.
Proof.
  intros Hp. destruct (dict_get_zip_seq p d v 0 Hp) as (i & Hget & Hi). by exists i.
Qed.



(** ** Clearing the cache *)

(** [clear_cache]: the cache becomes a new empty dictionary, the empty
    cache is written, and the file, which exists by then, is removed.  The
    dictionaries handed out earlier are not touched. *)
Definition clear_cache : M unit :=
  (λ st, (inr tt, {| cache := []; heap := heap st; disk := disk st; trace := trace st |})) ;;;
  _save_cache ;;;
  (λ st, (inr tt, {| cache := cache st; heap := heap st;
                     disk := if disk st is Some _ then None else disk st;
                     trace := trace st |})).

(** X20.  After [clear_cache] nothing is remembered: the cache is empty
    and the cache file is gone although it was written a moment before, so
    that the next [validate_port], for any port, forced or not, in this
    object or in one created afterwards, tries the socket again.  The
    dictionaries returned by earlier calls keep their content. *)
Theorem clear_cache_forgets (st : State) :
  let st1 := (clear_cache st).2 in
  cache st1 = [] ∧ disk st1 = None ∧ heap st1 = heap st ∧
  trace st1 = trace st ++ [SaveCache []] ∧
  (∀ tr, cache (init (disk st1) tr) = []) ∧
  ∀ (O : Oracle) p name force st2,
    st2 = st1 ∨ (∃ tr, st2 = init (disk st1) tr) →
    ∃ a, Connect p a ∈ events_since (trace st2) (trace (validate_port O p name force st2).2).
Proof.
  cbv zeta. unfold clear_cache. unfold_m. cbn. split_and!; try done.
  intros O p name force st2 Hst2.
  assert (Hempty : cache st2 = []) by (by destruct Hst2 as [->|[tr ->]]).
  destruct (validate_port_stale O p name force st2)
    as (pre & t & a & h & st3 & Hrun & _ & _ & _ & Hevs & _).
  { right. by rewrite Hempty. }
  rewrite Hrun. cbn [snd]. rewrite Hevs. exists a. apply elem_of_app. right.
  apply list_elem_of_further, list_elem_of_here.
Qed.


(** ** A probing call, in terms of the answers of the world *)

Lemma validate_port_stale_run (O : Oracle) p name force st :
  stale O p force st →
  ∃ pre, (pre = [] ∨ pre = [Now (clock O (trace st))]) ∧
    let tr0 := trace st ++ pre in
    let t := clock O tr0 in
    let a := connect O (tr0 ++ [Now t]) p in
    let h := http_json O ((tr0 ++ [Now t]) ++ [Connect p a]) p in
    let res := probe_result name (fresh_result p name t) a h in
    let c' := dict_set p (length (heap st)) (cache st) in
    let h' := heap st ++ [res] in
    validate_port O p name force st =
      (inr (length (heap st)),
       {| cache := c'; heap := h'; disk := Some (snapshot c' h');
          trace := tr0 ++ Now t :: probe_events p a h ++ [SaveCache (snapshot c' h')] |}).
Proof.
  intros Hstale.
  destruct (validate_port_cases O p name force st)
    as [(r & -> & Hp & Hage & _)|(st0 & [->| ->] & Hrun)].
  - destruct Hstale as [[=]|Hstale]. specialize (Hstale r Hp). lia.
  - exists []. split; [by left|]. rewrite app_nil_r, Hrun. apply perform_validation_run.
  - exists [Now (clock O (trace st))]. split; [by right|]. rewrite Hrun.
    apply perform_validation_run.
Qed.

Lemma lookup_total_snoc (h : list Result) (res : Result) (r : nat) :
  (h ++ [res]) !!! r = h !!! r ∨ (h ++ [res]) !!! r = res.
Proof.
  rewrite !list_lookup_total_alt.
  destruct (decide (r < length h)%nat); [left; by rewrite lookup_app_l|].
  destruct (decide (r = length h)) as [->|]; [right; by rewrite lookup_last_object|].
  left. rewrite !lookup_ge_None_2; [done | lia | rewrite length_app; simpl; lia].
Qed.

Lemma available_served (h : list Result) (r r' : nat) :
  available (alter (set_from_cache true) r h !!! r') = available (h !!! r').
Proof.
  rewrite !list_lookup_total_alt. destruct (decide (r = r')) as [->|].
  - rewrite list_lookup_alter_eq. by destruct (h !! r').
  - by rewrite list_lookup_alter_ne.
Qed.


Lemma probe_refused name res0 p rc h :
  rc ≠ 0 →
  probe_result name res0 (ConnectCode rc) h = set_error "Port not open" res0 ∧
  probe_events p (ConnectCode rc) h = [Connect p (ConnectCode rc)].
Proof.
  intros Hrc. unfold probe_result, probe_events. by destruct (Z.eqb_spec rc 0).
Qed.

Lemma probe_answered name res0 p targets :
  available (probe_result name res0 (ConnectCode 0) (HttpJson targets)) = true ∧
  probe_events p (ConnectCode 0) (HttpJson targets)
  = [Connect p (ConnectCode 0); HttpGet p (HttpJson targets)].
Proof.
  split; [|done]. unfold probe_result, response_result. simpl.
  by destruct (inspect_targets name targets) as [e|[title|]].
Qed.

End Validator.

(** * [validate_port] when the cache file may fail to be written

    [_save_cache] opens the cache file for writing and dumps the cache
    into it; both can raise [OSError].  In [validate_port] the save after a
    refused connection sits inside the [try] of the socket check, so that
    its failure is caught by the handler of that [try], which saves again;
    the save in that handler and the save at the end of the method are
    outside every handler.  The model above is the method in a world where
    the file can always be written; here the write may fail. *)
Module Storage.

Import Validator (json, JNull, JBool, JInt, JFloat, JStr, JArr, JObj,
  Exn, HTTPError, URLError, Other, str_exn, inspect_targets,
  Result, port, plugin_name, available, reachable, is_plugin, error, timestamp, from_cache,
  plugin_title, fresh_result, set_from_cache, set_error, set_reachable_available, set_plugin,
  http_error_text, ConnectAnswer, ConnectCode, ConnectRaised,
  HttpAnswer, HttpRaised, HttpNotJson, HttpJson, snapshot, cache_duration).

#[local] Existing Instance Validator.Result_inhabited.

(** What writing the cache file did: [truncated] tells whether the file
    was opened, and so emptied or cut short, before the error; such a file
    is not JSON and [_load_cache] reads it as no cache. *)
Inductive WriteAnswer :=
| Written
| WriteRaised (message : string) (truncated : bool).

Inductive Event :=
| Now (t : Z)
| Connect (p : Z) (a : ConnectAnswer)
| HttpGet (p : Z) (a : HttpAnswer)
| SaveCache (data : dict Result) (a : WriteAnswer).

Record Oracle := {
  clock : list Event → Z;
  connect : list Event → Z → ConnectAnswer;
  http_json : list Event → Z → HttpAnswer;
  write : list Event → WriteAnswer;
}.

(** As in the validator; [disk] is the cache that a later [_load_cache]
    would read. *)
Record State := {
  cache : dict nat;
  heap : list Result;
  disk : option (dict Result);
  trace : list Event;
}.

Definition M (A : Type) : Type := State → (Exn + A) * State.

Definition ret {A} (a : A) : M A := λ st, (inr a, st).
Definition raise {A} (e : Exn) : M A := λ st, (inl e, st).
Definition bind {A B} (m : M A) (f : A → M B) : M B :=
  λ st, match m st with
        | (inr a, st') => f a st'
        | (inl e, st') => (inl e, st')
        end.
(** [try: m except Exception as e: handler e] *)
Definition try_except {A} (m : M A) (handler : Exn → M A) : M A :=
  λ st, match m st with
        | (inl e, st') => handler e st'
        | (inr a, st') => (inr a, st')
        end.
Definition lift {A} (r : Exn + A) : M A := λ st, (r, st).

Declare Scope storage_scope.
Notation "x <- m ;; k" := (bind m (λ x, k))
  (at level 62, m at next level, right associativity) : storage_scope.
Notation "m ;;; k" := (bind m (λ _, k))
  (at level 62, right associativity) : storage_scope.
#[local] Open Scope storage_scope.

Definition get_cache : M (dict nat) := λ st, (inr (cache st), st).
Definition deref (r : nat) : M Result := λ st, (inr (heap st !!! r), st).
Definition new_object (v : Result) : M nat :=
  λ st, (inr (length (heap st)),
         {| cache := cache st; heap := heap st ++ [v]; disk := disk st; trace := trace st |}).
Definition modify (r : nat) (f : Result → Result) : M unit :=
  λ st, (inr tt, {| cache := cache st; heap := alter f r (heap st); disk := disk st;
                    trace := trace st |}).
Definition cache_store (p : Z) (r : nat) : M unit :=
  λ st, (inr tt, {| cache := dict_set p r (cache st); heap := heap st; disk := disk st;
                    trace := trace st |}).

Section WithOracle.
Context (O : Oracle).

(** [_save_cache]: the file holds the cache afterwards, or the write
    raised [OSError] with [str(e) = message]. *)
Definition _save_cache : M unit :=
  λ st, let data := snapshot (cache st) (heap st) in
        let a := write O (trace st) in
        match a with
        | Written =>
            (inr tt, {| cache := cache st; heap := heap st; disk := Some data;
                        trace := trace st ++ [SaveCache data a] |})
        | WriteRaised message truncated =>
            (inl (Other message),
             {| cache := cache st; heap := heap st;
                disk := if truncated then None else disk st;
                trace := trace st ++ [SaveCache data a] |})
        end.

Definition datetime_now : M Z :=
  λ st, let t := clock O (trace st) in
        (inr t, {| cache := cache st; heap := heap st; disk := disk st;
                   trace := trace st ++ [Now t] |}).

Definition socket_connect_ex (p : Z) : M Z :=
  λ st, let a := connect O (trace st) p in
        let st' := {| cache := cache st; heap := heap st; disk := disk st;
                      trace := trace st ++ [Connect p a] |} in
        match a with
        | ConnectCode rc => (inr rc, st')
        | ConnectRaised message => (inl (Other message), st')
        end.

Definition urlopen_json (p : Z) : M json :=
  λ st, let a := http_json O (trace st) p in
        let st' := {| cache := cache st; heap := heap st; disk := disk st;
                      trace := trace st ++ [HttpGet p a] |} in
        match a with
        | HttpRaised e => (inl e, st')
        | HttpNotJson message => (inl (Other message), st')
        | HttpJson targets => (inr targets, st')
        end.

Definition _is_cache_valid (p : Z) : M bool :=
  c <- get_cache ;;
  match dict_get p c with
  | None => ret false
  | Some r =>
      cached <- deref r ;;
      now <- datetime_now ;;
      ret (now - timestamp cached <? cache_duration)
  end.

(** The part of [validate_port] below the comment "Perform validation". *)
Definition perform_validation (p : Z) (name : option string) : M nat :=
  now <- datetime_now ;;
  result <- new_object (fresh_result p name now) ;;
  returned <-
    try_except
      (connection_result <- socket_connect_ex p ;;
       if negb (connection_result =? 0) then
         modify result (set_error "Port not open") ;;;
         cache_store p result ;;; _save_cache ;;; ret true
       else ret false)
      (λ e, modify result (set_error ("Socket error: " +:+ str_exn e)) ;;;
            cache_store p result ;;; _save_cache ;;; ret true) ;;
  if (returned : bool) then ret result
  else
    try_except
      (targets <- urlopen_json p ;;
       modify result set_reachable_available ;;;
       found <- lift (inspect_targets name targets) ;;
       match found with
       | Some title => modify result (set_plugin title)
       | None => ret tt
       end)
      (λ e, modify result (set_error (http_error_text e))) ;;;
    cache_store p result ;;; _save_cache ;;; ret result.

Definition validate_port (p : Z) (name : option string) (force : bool) : M nat :=
  valid <- (if force then ret false else _is_cache_valid p) ;;
  if (valid : bool) then
    c <- get_cache ;;
    match dict_get p c with
    | Some cached => modify cached (set_from_cache true) ;;; ret cached
    | None => raise (Other "KeyError")
    end
  else perform_validation p name.

End WithOracle.

(** [EfficientLocalhostValidator()] in a world whose cache file holds [d],
    entries as [validate_port] writes them: the timestamp of each is one
    that [datetime.fromisoformat] reads. *)
Definition init (d : option (dict Result)) (tr : list Event) : State :=
  let entries := if d is Some entries then entries else [] in
  {| cache := zip entries.*1 (seq 0 (length entries)); heap := entries.*2;
     disk := d; trace := tr |}.

(** The messages of the writes that failed. *)
Definition failed_writes (evs : list Event) : list string :=
  omap (λ e, if e is SaveCache _ (WriteRaised message _) then Some message else None) evs.


(** ** The ways through a probe *)

Lemma dict_set_twice {V} (k : Z) (v : V) (d : dict V) :
  dict_set k v (dict_set k v d) = dict_set k v d.
Proof.
  induction d as [|[k' v'] d IH]; simpl; [by rewrite Z.eqb_refl|].
  destruct (k' =? k) eqn:Hk; simpl; [by rewrite Z.eqb_refl|]. by rewrite Hk, IH.
Qed.

Ltac unfold_m :=
  unfold bind, ret, raise, try_except, lift, get_cache, deref, new_object, modify,
    cache_store in *.

(** How a call ends on its last write: with the result, the file holding
    the cache, or with the error of the write. *)
Definition finished (st : State) (out : Exn + nat) (w : WriteAnswer) (st' : State) : Prop :=
  match w with
  | Written =>
      out = inr (length (heap st)) ∧ disk st' = Some (snapshot (cache st') (heap st'))
  | WriteRaised message _ => out = inl (Other message)
  end.

(** A probe reads the clock, makes the dictionary, tries the socket, and
    then goes one of four ways: the socket raised; the connection was
    refused and the cache written; the connection was refused, the write
    failed and the handler of the socket check took over; the connection
    was made and the request sent. *)
Lemma perform_validation_shapes (O : Oracle) p name st out st' :
  perform_validation O p name st = (out, st') →
  ∃ t a tail res,
    trace st' = trace st ++ Now t :: Connect p a :: tail ∧
    heap st' = heap st ++ [res] ∧
    cache st' = dict_set p (length (heap st)) (cache st) ∧
    ((∃ m w, a = ConnectRaised m ∧
             tail = [SaveCache (snapshot (cache st') (heap st')) w] ∧
             res = set_error ("Socket error: " +:+ m) (fresh_result p name t) ∧
             finished st out w st') ∨
     (∃ rc, a = ConnectCode rc ∧ rc ≠ 0 ∧
            tail = [SaveCache (snapshot (cache st') (heap st')) Written] ∧
            res = set_error "Port not open" (fresh_result p name t) ∧
            finished st out Written st') ∨
     (∃ rc m truncated d w,
        a = ConnectCode rc ∧ rc ≠ 0 ∧
        tail = [SaveCache d (WriteRaised m truncated);
                SaveCache (snapshot (cache st') (heap st')) w] ∧
        res = set_error ("Socket error: " +:+ m) (fresh_result p name t) ∧
        finished st out w st') ∨
     (∃ h w, a = ConnectCode 0 ∧
             tail = [HttpGet p h; SaveCache (snapshot (cache st') (heap st')) w] ∧
             res = Validator.response_result name (fresh_result p name t) h ∧
             finished st out w st')).
Proof.
  unfold perform_validation, datetime_now, socket_connect_ex, urlopen_json, _save_cache.
  unfold_m. unfold finished, Validator.response_result.
  cbn -[snapshot fresh_result inspect_targets "++" dict_set alter].
  destruct (connect O (trace st ++ [Now (clock O (trace st))]) p) as [rc|m];
    cbn -[snapshot fresh_result inspect_targets "++" dict_set alter].
  - destruct (Z.eqb_spec rc 0) as [->|Hrc];
      cbn -[snapshot fresh_result inspect_targets "++" dict_set alter].
    + (* the connection was made *)
      destruct (http_json O _ p) as [e|message|targets];
        cbn -[snapshot fresh_result inspect_targets "++" dict_set alter].
      all: try (destruct (inspect_targets name targets) as [e|[title|]] eqn:Hloop;
                cbn -[snapshot fresh_result inspect_targets "++" dict_set alter]).
      all: destruct (write O _) as [|m2 truncated2] eqn:Hw; intros [= <- <-];
        cbn -[snapshot fresh_result inspect_targets "++" dict_set alter];
        rewrite ?Validator.alter_last, <- ?app_assoc;
        eexists _, _, _, _; (split; [reflexivity|]); (split; [reflexivity|]);
        (split; [reflexivity|]);
        do 3 right; eexists _, _; (split; [reflexivity|]); (split; [reflexivity|]);
        cbn -[snapshot fresh_result inspect_targets "++" dict_set alter];
        rewrite ?Hw, ?Hloop; done.
    + (* the connection was refused *)
      match goal with
      | |- context [write O ?tr] => destruct (write O tr) as [|m1 truncated1] eqn:Hw1
      end; cbn -[snapshot fresh_result inspect_targets "++" dict_set alter].
      * intros [= <- <-]. cbn -[snapshot fresh_result inspect_targets "++" dict_set alter].
        rewrite ?Validator.alter_last, <- ?app_assoc.
        eexists _, _, _, _. split; [reflexivity|]. split; [reflexivity|].
        split; [reflexivity|]. right. left. eexists. by split_and!.
      * match goal with
        | |- context [write O ?tr] => destruct (write O tr) as [|m2 truncated2] eqn:Hw2
        end; intros [= <- <-];
          cbn -[snapshot fresh_result inspect_targets "++" dict_set alter];
          rewrite ?Validator.alter_last, ?dict_set_twice, <- ?app_assoc;
          (eexists _, _, _, _; split; [reflexivity|]; split; [reflexivity|]; split;
           [reflexivity|]; do 2 right; left; eexists _, _, _, _, _;
           split_and!; try reflexivity; try done).
  - (* the socket raised *)
    match goal with
    | |- context [write O ?tr] => destruct (write O tr) as [|m2 truncated2] eqn:Hw
    end; intros [= <- <-];
      cbn -[snapshot fresh_result inspect_targets "++" dict_set alter];
      rewrite ?Validator.alter_last, <- ?app_assoc;
      (eexists _, _, _, _; split; [reflexivity|]; split; [reflexivity|];
       split; [reflexivity|]; left; eexists _, _; by split_and!).
Qed.


(** ** The two ways through [validate_port] *)

Lemma validate_port_ways (O : Oracle) p name force st out st' :
  validate_port O p name force st = (out, st') →
  (∃ r, force = false ∧ dict_get p (cache st) = Some r ∧
        clock O (trace st) - timestamp (heap st !!! r) < cache_duration ∧
        out = inr r ∧
        st' = {| cache := cache st; heap := alter (set_from_cache true) r (heap st);
                 disk := disk st; trace := trace st ++ [Now (clock O (trace st))] |}) ∨
  (∃ pre st0,
     (pre = [] ∨ pre = [Now (clock O (trace st))]) ∧
     st0 = {| cache := cache st; heap := heap st; disk := disk st;
              trace := trace st ++ pre |} ∧
     perform_validation O p name st0 = (out, st')).
Proof.
  unfold validate_port. destruct force.
  - intros Hrun. right. exists [], st. split; [by left|]. rewrite app_nil_r.
    split; [by destruct st|]. exact Hrun.
  - unfold _is_cache_valid, datetime_now. unfold_m. simpl.
    destruct (dict_get p (cache st)) as [r|] eqn:Hp; simpl.
    + destruct (_ <? cache_duration) eqn:Hage; simpl.
      * rewrite Hp. intros [= <- <-]. left. exists r. split_and!; try done. lia.
      * intros Hrun. right. eexists [_], _. split; [by right|]. split; [reflexivity|].
        exact Hrun.
    + intros Hrun. right. exists [], st. split; [by left|]. rewrite app_nil_r.
      split; [by destruct st|]. exact Hrun.
Qed.

(** What a probing call leaves: the shapes of [perform_validation], seen
    from the state in which [validate_port] was called. *)
Lemma validate_port_probe_shapes (O : Oracle) p name force st out st' :
  validate_port O p name force st = (out, st') →
  (∃ r, force = false ∧ dict_get p (cache st) = Some r ∧ out = inr r ∧
        events_since (trace st) (trace st') = [Now (clock O (trace st))] ∧
        heap st' = alter (set_from_cache true) r (heap st) ∧
        cache st' = cache st ∧ disk st' = disk st) ∨
  (∃ pre t a tail res,
     (pre = [] ∨ pre = [Now (clock O (trace st))]) ∧
     events_since (trace st) (trace st') = pre ++ Now t :: Connect p a :: tail ∧
     heap st' = heap st ++ [res] ∧
     cache st' = dict_set p (length (heap st)) (cache st) ∧
     ((∃ m w, a = ConnectRaised m ∧
              tail = [SaveCache (snapshot (cache st') (heap st')) w] ∧
              res = set_error ("Socket error: " +:+ m) (fresh_result p name t) ∧
              finished st out w st') ∨
      (∃ rc, a = ConnectCode rc ∧ rc ≠ 0 ∧
             tail = [SaveCache (snapshot (cache st') (heap st')) Written] ∧
             res = set_error "Port not open" (fresh_result p name t) ∧
             finished st out Written st') ∨
      (∃ rc m truncated d w,
         a = ConnectCode rc ∧ rc ≠ 0 ∧
         tail = [SaveCache d (WriteRaised m truncated);
                 SaveCache (snapshot (cache st') (heap st')) w] ∧
         res = set_error ("Socket error: " +:+ m) (fresh_result p name t) ∧
         finished st out w st') ∨
      (∃ h w, a = ConnectCode 0 ∧
              tail = [HttpGet p h; SaveCache (snapshot (cache st') (heap st')) w] ∧
              res = Validator.response_result name (fresh_result p name t) h ∧
              finished st out w st'))).
Proof.
  intros [(r & -> & Hp & _ & -> & ->)|(pre & st0 & Hpre & -> & Hrun)]%validate_port_ways.
  - left. exists r. cbn [trace heap cache disk]. rewrite events_since_app. by split_and!.
  - right. apply perform_validation_shapes in Hrun as (t & a & tail & res & Ht & Hh & Hc & Hways).
    cbn [trace heap cache disk] in *. exists pre, t, a, tail, res.
    split; [done|]. rewrite Ht, <- app_assoc, events_since_app. split_and!; try done.
Qed.


(** Membership in a list that is written out. *)
Ltac elems H :=
  repeat first
    [ apply elem_of_app in H as [H|H]
    | apply elem_of_cons in H as [H|H]
    | apply elem_of_nil in H; destruct H ].

(** Worlds with fixed answers; the clock advances by a second at every
    event. *)
Definition world (c : ConnectAnswer) (h : HttpAnswer) (w : WriteAnswer) : Oracle :=
  {| clock := λ tr, 1000000 * Z.of_nat (length tr);
     connect := λ _ _, c; http_json := λ _ _, h; write := λ _, w |}.

(** ** A transport connection that fails *)




(** The disk is full when the refusal is to be recorded and has room again
    a moment later: the refused connection is reported as a socket error. *)
Definition disk_full_once : Oracle :=
  {| clock := λ tr, 1000000 * Z.of_nat (length tr);
     connect := λ _ _, ConnectCode 111;
     http_json := λ _ _, HttpRaised (URLError "refused");
     write := λ tr, if existsb (λ e, if e is SaveCache _ _ then true else false) tr
                    then Written
                    else WriteRaised "[Errno 28] No space left on device" true |}.

Lemma refused_with_a_failed_write :
  let '(out, st') := validate_port disk_full_once 9230 None false (init None []) in
  ∃ res, out = inr 0%nat ∧ heap st' !! 0%nat = Some res ∧
         error res = Some "Socket error: [Errno 28] No space left on device".
Proof. vm_compute. eexists. by split_and!. Qed.

(** The disk stays full: the call raises. *)
Lemma validate_port_raises_when_disk_full :
  let O := world (ConnectCode 111) (HttpRaised (URLError "refused"))
             (WriteRaised "[Errno 28] No space left on device" true) in
  (validate_port O 9230 None false (init None [])).1
  = inl (Other "[Errno 28] No space left on device").
Proof. vm_compute. reflexivity. Qed.


(** ** A response that does not parse *)

(** C5, as the code has it.  No failure of the probe is raised to the
    caller: [validate_port] raises only when the last write of the cache
    file raises, and it returns whenever no write fails.  In a result that
    is returned after a successful connection: a body that is not JSON
    gives the error "Unexpected error: " with the message and leaves
    ['reachable'] and ['available'] false, since they are set only once
    [json.loads] has returned; a body that is JSON gives ['reachable'] and
    ['available'] true, and an error, with ['is_plugin'] false, exactly
    when the loop over the targets raises; a decoded body on which the loop
    does not raise is no error, whatever its shape, and ['is_plugin'] tells
    whether the loop found a title; a request that raised gives the error
    of its handler and leaves ['reachable'] false. *)
Theorem validate_port_parse_failure (O : Oracle) (p : Z) (name : option string)
    (force : bool) (st st' : State) (out : Exn + nat) :
  validate_port O p name force st = (out, st') →
  let evs := events_since (trace st) (trace st') in
  (∀ e, out = inl e →
        ∃ message data truncated,
          e = Other message ∧
          last evs = Some (SaveCache data (WriteRaised message truncated))) ∧
  (failed_writes evs = [] → ∃ r, out = inr r) ∧
  (∀ r, out = inr r → Connect p (ConnectCode 0) ∈ evs →
        ∃ res, heap st' !! r = Some res ∧ dict_get p (cache st') = Some r ∧
          from_cache res = false ∧
          (∀ message, HttpGet p (HttpNotJson message) ∈ evs →
             error res = Some ("Unexpected error: " +:+ message) ∧
             reachable res = false ∧ available res = false ∧ is_plugin res = false) ∧
          (∀ targets, HttpGet p (HttpJson targets) ∈ evs →
             reachable res = true ∧ available res = true ∧
             match inspect_targets name targets with
             | inl e =>
                 error res = Some ("Unexpected error: " +:+ str_exn e) ∧
                 is_plugin res = false ∧ plugin_title res = None
             | inr found =>
                 error res = None ∧
                 is_plugin res = (if found is Some _ then true else false) ∧
                 plugin_title res = found
             end) ∧
          (∀ e, HttpGet p (HttpRaised e) ∈ evs →
             error res = Some (http_error_text e) ∧
             reachable res = false ∧ available res = false ∧ is_plugin res = false)).
Proof.
  intros Hrun. cbv zeta.
  apply validate_port_probe_shapes in Hrun
    as [(r & _ & Hp & -> & Hevs & _)|
        (pre & t & a & tail & res & Hpre & Hevs & Hheap & Hcache & Hways)].
  { rewrite Hevs. split; [done|]. split; [by exists r|].
    intros r' _ Hin. by elems Hin. }
  rewrite Hevs.
  assert (Hlook : heap st' !! length (heap st) = Some res ∧
                  dict_get p (cache st') = Some (length (heap st))).
  { rewrite Hheap, Hcache. split; [by rewrite list_lookup_middle | apply dict_get_set_eq]. }
  clear Hheap Hcache.
  destruct Hways as [(m & w & -> & -> & -> & Hend)|[(rc & -> & Hrc & -> & -> & Hend)|
                     [(rc & m & tr & d & w & -> & Hrc & -> & -> & Hend)|
                      (h & w & -> & -> & -> & Hend)]]].
  - (* the socket raised *)
    destruct w as [|m2 tr2]; cbn [finished] in Hend.
    + destruct Hend as [-> _]. split; [done|]. split; [by eexists|].
      intros r _ Hin. destruct Hpre as [->| ->]; by elems Hin.
    + subst out. split_and!.
      * intros e [= <-]. eexists m2, _, tr2. split; [done|].
        destruct Hpre as [->| ->]; reflexivity.
      * unfold failed_writes. rewrite omap_app. by destruct Hpre as [->| ->].
      * done.
  - (* refused, and written *)
    destruct Hend as [-> _]. split; [done|]. split; [by eexists|].
    intros r _ Hin. destruct Hpre as [->| ->]; elems Hin; by simplify_eq.
  - (* refused, the write failed, the handler wrote again *)
    split_and!.
    + destruct w as [|m2 tr2]; cbn [finished] in Hend; [by destruct Hend as [-> _]|].
      subst out. intros e [= <-]. eexists m2, _, tr2. split; [done|].
      destruct Hpre as [->| ->]; reflexivity.
    + unfold failed_writes. rewrite omap_app. by destruct Hpre as [->| ->].
    + intros r _ Hin. destruct Hpre as [->| ->]; elems Hin; by simplify_eq.
  - (* the connection was made and the request sent *)
    destruct w as [|m2 tr2]; cbn [finished] in Hend.
    + destruct Hend as [-> _]. split; [done|]. split; [by eexists|].
      intros r [= <-] _. exists (Validator.response_result name (fresh_result p name t) h).
      split; [apply Hlook|]. split; [apply Hlook|].
      assert (Hh : ∀ x, HttpGet p x ∈ pre ++ Now t :: Connect p (ConnectCode 0) ::
                          [HttpGet p h; SaveCache (snapshot (cache st') (heap st')) Written] →
                        x = h).
      { intros x Hx. destruct Hpre as [->| ->]; elems Hx; by simplify_eq. }
      split_and!.
      * destruct h as [e|message|targets]; simpl; try done.
        by destruct (inspect_targets name targets) as [e|[title|]].
      * intros message <-%Hh. done.
      * intros targets <-%Hh. simpl.
        destruct (inspect_targets name targets) as [e|[title|]] eqn:Hloop; [|done..].
        destruct (Validator.inspect_targets_raises _ _ _ Hloop) as [message ->]. done.
      * intros e <-%Hh. done.
    + subst out. split_and!.
      * intros e [= <-]. eexists m2, _, tr2. split; [done|].
        destruct Hpre as [->| ->]; reflexivity.
      * unfold failed_writes. rewrite omap_app. by destruct Hpre as [->| ->].
      * done.
Qed.


(** Something listens and sends back one JSON object instead of a list of
    them: the loop runs over its keys, which are strings, and raises. *)
Lemma validate_port_parse_failure_witness :
  let O := world (ConnectCode 0) (HttpJson (JObj [("title", JStr "AI SFX Generator")]))
             Written in
  let run := validate_port O 9230 (Some "AI SFX Generator") false (init None []) in
  ∃ res, run.1 = inr 0%nat ∧ heap run.2 !! 0%nat = Some res ∧
         reachable res = true ∧ available res = true ∧ is_plugin res = false ∧
         error res = Some "Unexpected error: 'str' object has no attribute 'get'".
Proof.
  intros O run.
  pose proof (validate_port_parse_failure O 9230 (Some "AI SFX Generator") false
                (init None []) run.2 run.1 (surjective_pairing _)) as H.
  cbv zeta in H. destruct H as (_ & _ & Hreturned).
  destruct (Hreturned 0%nat) as (res & Hres & _ & _ & _ & Hjson & _).
  - vm_compute. reflexivity.
  - vm_compute. apply list_elem_of_further, list_elem_of_here.
  - destruct (Hjson (JObj [("title", JStr "AI SFX Generator")])) as (Hreach & Havail & Hloop).
    { vm_compute. do 2 apply list_elem_of_further. apply list_elem_of_here. }
    exists res. split; [vm_compute; reflexivity|]. split; [exact Hres|].
    split; [exact Hreach|]. split; [exact Havail|].
    vm_compute in Hloop. destruct Hloop as (Herr & Hplug & _). by split.
Defined.

(** Three bodies that are not what the endpoint of a debugger sends, after
    a successful connection.  A body that is not JSON: the error is set,
    but ['reachable'] and ['available'] are false.  The empty object: the
    loop has nothing to visit and no error is set.  A target whose title is
    a list that holds "Extension": the membership test succeeds and the
    port is taken for a plug-in, with the list as its title. *)
Lemma unparsed_body_is_not_reachable :
  (let O := world (ConnectCode 0)
              (HttpNotJson "Expecting value: line 1 column 1 (char 0)") Written in
   let '(out, st') := validate_port O 9230 (Some "AI SFX Generator") false (init None []) in
   Connect 9230 (ConnectCode 0) ∈ trace st' ∧
   ∃ res, out = inr 0%nat ∧ heap st' !! 0%nat = Some res ∧
          error res = Some "Unexpected error: Expecting value: line 1 column 1 (char 0)" ∧
          reachable res = false ∧ available res = false ∧ is_plugin res = false) ∧
  (let O := world (ConnectCode 0) (HttpJson (JObj [])) Written in
   let '(out, st') := validate_port O 9230 (Some "AI SFX Generator") false (init None []) in
   ∃ res, out = inr 0%nat ∧ heap st' !! 0%nat = Some res ∧
          error res = None ∧ reachable res = true ∧ is_plugin res = false) ∧
  (let O := world (ConnectCode 0)
              (HttpJson (JArr [JObj [("title", JArr [JStr "Extension"])]])) Written in
   let '(out, st') := validate_port O 9230 (Some "AI SFX Generator") false (init None []) in
   ∃ res, out = inr 0%nat ∧ heap st' !! 0%nat = Some res ∧
          error res = None ∧ reachable res = true ∧ is_plugin res = true ∧
          plugin_title res = Some (JArr [JStr "Extension"])).
Proof.
  split_and!.
  - vm_compute. split; [apply list_elem_of_further, list_elem_of_here|].
    eexists. by split_and!.
  - vm_compute. eexists. by split_and!.
  - vm_compute. eexists. by split_and!.
Qed.

(** The body does not parse and the disk is full: the call raises the
    error of the write.  The result with the error of the body is in the
    cache of the object, not in the file. *)
Lemma parse_failure_and_disk_full :
  let O := world (ConnectCode 0) (HttpNotJson "Expecting value: line 1 column 1 (char 0)")
             (WriteRaised "[Errno 28] No space left on device" true) in
  let '(out, st') := validate_port O 9230 None false (init None []) in
  out = inl (Other "[Errno 28] No space left on device") ∧
  disk st' = None ∧
  ∃ res, heap st' !! 0%nat = Some res ∧ dict_get 9230 (cache st') = Some 0%nat ∧
         error res = Some "Unexpected error: Expecting value: line 1 column 1 (char 0)".
Proof. vm_compute. split_and!; try done. eexists. by split_and!. Qed.



(** ** Where every write goes through *)

(** An event of a call as the model of the validator has it, which does not
    tell whether the write went through. *)
Definition forget_event (e : Event) : Validator.Event :=
  match e with
  | Now t => Validator.Now t
  | Connect p a => Validator.Connect p a
  | HttpGet p a => Validator.HttpGet p a
  | SaveCache data _ => Validator.SaveCache data
  end.

Definition forget (st : State) : Validator.State :=
  {| Validator.cache := cache st; Validator.heap := heap st; Validator.disk := disk st;
     Validator.trace := forget_event <$> trace st |}.

(** A world of the validator, with a cache file that can always be
    written. *)
Definition writable (V : Validator.Oracle) : Oracle :=
  {| clock := λ tr, Validator.clock V (forget_event <$> tr);
     connect := λ tr, Validator.connect V (forget_event <$> tr);
     http_json := λ tr, Validator.http_json V (forget_event <$> tr);
     write := λ _, Written |}.

(** The two models of a computation do the same. *)
Definition agrees {A} (v : Validator.M A) (m : M A) : Prop :=
  ∀ st, v (forget st) = ((m st).1, forget (m st).2).

Lemma agrees_ret {A} (a : A) : agrees (Validator.ret a) (ret a).
Proof. done. Qed.

Lemma agrees_raise {A} (e : Exn) : agrees (@Validator.raise A e) (raise e).
Proof. done. Qed.

Lemma agrees_lift {A} (r : Exn + A) : agrees (Validator.lift r) (lift r).
Proof. done. Qed.

Lemma agrees_bind {A B} (v : Validator.M A) (m : M A) (f : A → Validator.M B)
    (g : A → M B) :
  agrees v m → (∀ a, agrees (f a) (g a)) → agrees (Validator.bind v f) (bind m g).
Proof.
  intros Hm Hf st. unfold Validator.bind, bind. rewrite Hm.
  destruct (m st) as [[e|a] st1]; cbn [fst snd]; [done | apply Hf].
Qed.

Lemma agrees_try_except {A} (v : Validator.M A) (m : M A) (f : Exn → Validator.M A)
    (g : Exn → M A) :
  agrees v m → (∀ e, agrees (f e) (g e)) →
  agrees (Validator.try_except v f) (try_except m g).
Proof.
  intros Hm Hf st. unfold Validator.try_except, try_except. rewrite Hm.
  destruct (m st) as [[e|a] st1]; cbn [fst snd]; [apply Hf | done].
Qed.

Lemma agrees_get_cache : agrees Validator.get_cache get_cache.
Proof. done. Qed.

Lemma agrees_deref r : agrees (Validator.deref r) (deref r).
Proof. done. Qed.

Lemma agrees_new_object v : agrees (Validator.new_object v) (new_object v).
Proof. done. Qed.

Lemma agrees_modify r f : agrees (Validator.modify r f) (modify r f).
Proof. done. Qed.

Lemma agrees_cache_store p r : agrees (Validator.cache_store p r) (cache_store p r).
Proof. done. Qed.

Section Writable.
Context (V : Validator.Oracle).

Lemma agrees_datetime_now : agrees (Validator.datetime_now V) (datetime_now (writable V)).
Proof.
  intros st. unfold Validator.datetime_now, datetime_now, forget. cbn. by rewrite fmap_app.
Qed.

Lemma agrees_socket_connect_ex p :
  agrees (Validator.socket_connect_ex V p) (socket_connect_ex (writable V) p).
Proof.
  intros st. unfold Validator.socket_connect_ex, socket_connect_ex, forget. cbn.
  destruct (Validator.connect V _ p); cbn; by rewrite fmap_app.
Qed.

Lemma agrees_urlopen_json p :
  agrees (Validator.urlopen_json V p) (urlopen_json (writable V) p).
Proof.
  intros st. unfold Validator.urlopen_json, urlopen_json, forget. cbn.
  destruct (Validator.http_json V _ p); cbn; by rewrite fmap_app.
Qed.

Lemma agrees_save_cache : agrees Validator._save_cache (_save_cache (writable V)).
Proof.
  intros st. unfold Validator._save_cache, _save_cache, forget. cbn. by rewrite fmap_app.
Qed.

Create HintDb agrees.

#[local] Hint Resolve agrees_ret agrees_raise agrees_lift agrees_get_cache agrees_deref
  agrees_new_object agrees_modify agrees_cache_store agrees_datetime_now
  agrees_socket_connect_ex agrees_urlopen_json agrees_save_cache : agrees.

Ltac agrees_step :=
  first
    [ solve [auto 1 with agrees nocore]
    | simple apply agrees_bind; [|intros ?]
    | simple apply agrees_try_except; [|intros ?]
    | match goal with
      | |- agrees (if ?c then _ else _) _ => destruct c
      | |- agrees (match ?x with _ => _ end) _ => destruct x
      end ].

Lemma agrees_perform_validation p name :
  agrees (Validator.perform_validation V p name) (perform_validation (writable V) p name).
Proof.
  unfold Validator.perform_validation, perform_validation. repeat agrees_step.
Qed.

(** In a world where the cache file can always be written a call runs as
    in the model of the validator: same answer, same cache, same
    dictionaries, same file, same events. *)
Lemma validate_port_writable (p : Z) (name : option string) (force : bool) (st : State) :
  Validator.validate_port V p name force (forget st)
  = ((validate_port (writable V) p name force st).1,
     forget (validate_port (writable V) p name force st).2).
Proof.
  revert st. change (agrees (Validator.validate_port V p name force)
                       (validate_port (writable V) p name force)).
  pose proof agrees_perform_validation.
  unfold Validator.validate_port, validate_port, Validator._is_cache_valid, _is_cache_valid.
  repeat agrees_step.
Qed.

End Writable.

End Storage.

(** * [batch_validate] and the pre-flight checks

    [EfficientLocalhostValidator.pre_flight_check] with its four checks and
    [batch_validate], which calls [validate_port] in a loop and sleeps
    between two attempts.  The calls of [validate_port] run the model above
    on the cache of the object; the world here has the processes and the
    sleeps besides the events of a call, and its answers may depend on all
    of them. *)
Module Batch.

#[local] Existing Instance Validator.Result_inhabited.

(** The dictionary that [pre_flight_check] returns. *)
Record Checks := {
  premiere_running : bool;
  debug_mode_enabled : bool;
  network_available : bool;
  ports_accessible : bool;
}.

Inductive Event :=
| Pgrep (returncode : option Z)    (* [None]: [subprocess.run] raised *)
| Defaults (stdout : option string)
    (* [result.stdout.strip()]; [None]: [subprocess.run] raised *)
| CreateConnection (connected : bool)  (* to localhost:80 *)
| TestPort (raised : bool)             (* socket and [connect_ex] on 9230 *)
| Sleep (seconds : Z)
| Call (e : Validator.Event)           (* an event of [validate_port] *).

Record Oracle := {
  pgrep : list Event → option Z;
  defaults_read : list Event → option string;
  create_connection : list Event → bool;
  test_port : list Event → bool;
  clock : list Event → Z;
  connect : list Event → Z → Validator.ConnectAnswer;
  http_json : list Event → Z → Validator.HttpAnswer;
}.

(** The validator object (its cache, the dictionaries it handed out, its
    cache file) and what happened so far. *)
Record State := {
  cache : dict nat;
  heap : list Validator.Result;
  disk : option (dict Validator.Result);
  trace : list Event;
}.

Definition M (A : Type) : Type := State → (Validator.Exn + A) * State.

Definition ret {A} (a : A) : M A := λ st, (inr a, st).
Definition bind {A B} (m : M A) (f : A → M B) : M B :=
  λ st, match m st with
        | (inr a, st') => f a st'
        | (inl e, st') => (inl e, st')
        end.

Declare Scope batch_scope.
Notation "x <- m ;; k" := (bind m (λ x, k))
  (at level 62, m at next level, right associativity) : batch_scope.
Notation "m ;;; k" := (bind m (λ _, k))
  (at level 62, right associativity) : batch_scope.
#[local] Open Scope batch_scope.

Definition emit (e : Event) : M unit :=
  λ st, (inr tt, {| cache := cache st; heap := heap st; disk := disk st;
                    trace := trace st ++ [e] |}).

(** [result['available']] on a dictionary that [validate_port] returned. *)
Definition deref (r : nat) : M Validator.Result := λ st, (inr (heap st !!! r), st).

(** The validator's view of a state, and the state after a call. *)
Definition to_validator (st : State) : Validator.State :=
  {| Validator.cache := cache st; Validator.heap := heap st; Validator.disk := disk st;
     Validator.trace := [] |}.

Definition of_validator (tr : list Event) (v : Validator.State) : State :=
  {| cache := Validator.cache v; heap := Validator.heap v; disk := Validator.disk v;
     trace := tr ++ (Call <$> Validator.trace v) |}.

Section WithOracle.
Context (O : Oracle).

(** What a call of [validate_port] that starts after [tr] is answered. *)
Definition during (tr : list Event) : Validator.Oracle :=
  {| Validator.clock := λ evs, clock O (tr ++ (Call <$> evs));
     Validator.connect := λ evs p, connect O (tr ++ (Call <$> evs)) p;
     Validator.http_json := λ evs p, http_json O (tr ++ (Call <$> evs)) p |}.

Definition validate_port (p : Z) (name : option string) (force : bool) : M nat :=
  λ st, let '(out, v) := Validator.validate_port (during (trace st)) p name force
                           (to_validator st) in
        (out, of_validator (trace st) v).

Definition time_sleep (seconds : Z) : M unit := emit (Sleep seconds).

(** [pgrep -f 'Adobe Premiere Pro'] returned 0. *)
Definition _check_premiere_running : M bool :=
  λ st, let a := pgrep O (trace st) in
        (inr (if a is Some rc then rc =? 0 else false),
         {| cache := cache st; heap := heap st; disk := disk st;
            trace := trace st ++ [Pgrep a] |}).

(** [defaults read com.adobe.CSXS.11 PlayerDebugMode] printed 1. *)
Definition _check_debug_mode : M bool :=
  λ st, let a := defaults_read O (trace st) in
        (inr (if a is Some stdout then String.eqb stdout "1" else false),
         {| cache := cache st; heap := heap st; disk := disk st;
            trace := trace st ++ [Defaults a] |}).

(** Both branches of [_check_network] return [True]. *)
Definition _check_network : M bool :=
  λ st, let a := create_connection O (trace st) in
        (inr (if a then true else true),
         {| cache := cache st; heap := heap st; disk := disk st;
            trace := trace st ++ [CreateConnection a] |}).

Definition _check_port_accessibility : M bool :=
  λ st, let a := test_port O (trace st) in
        (inr (negb a),
         {| cache := cache st; heap := heap st; disk := disk st;
            trace := trace st ++ [TestPort a] |}).

Definition pre_flight_check : M Checks :=
  running <- _check_premiere_running ;;
  debug <- _check_debug_mode ;;
  network <- _check_network ;;
  ports <- _check_port_accessibility ;;
  ret {| premiere_running := running; debug_mode_enabled := debug;
         network_available := network; ports_accessible := ports |}.

(** A value of the dictionary that [batch_validate] returns: the literal
    [{'error': 'Premiere Pro not running', 'available': False}] or a
    dictionary returned by [validate_port]. *)
Inductive Entry :=
| NotRunning
| Validated (r : nat).

(** The [while] loop for one port, [attempts] being the counter; it runs
    the body at most [max_attempts - attempts] times, the bound is [fuel]. *)
Fixpoint attempts_loop (fuel : nat) (p : Z) (name : string) (attempts max_attempts : Z)
    (results : dict Entry) : M (dict Entry) :=
  match fuel with
  | 0%nat => ret results
  | S fuel' =>
      if attempts <? max_attempts then
        result <- validate_port p (Some name) (0 <? attempts) ;;
        res <- deref result ;;
        if Validator.available res || (attempts =? max_attempts - 1) then
          ret (dict_set p (Validated result) results)
        else
          (if attempts + 1 <? max_attempts then time_sleep 1 else ret tt) ;;;
          attempts_loop fuel' p name (attempts + 1) max_attempts results
      else ret results
  end.

(** The [for] loop over the ports. *)
Fixpoint validate_each (ports : list (Z * string)) (max_attempts : Z)
    (results : dict Entry) : M (dict Entry) :=
  match ports with
  | [] => ret results
  | (p, name) :: rest =>
      results' <- attempts_loop (Z.to_nat max_attempts) p name 0 max_attempts results ;;
      validate_each rest max_attempts results'
  end.

Definition batch_validate (ports : list (Z * string)) (max_attempts : Z) : M (dict Entry) :=
  pre_flight <- pre_flight_check ;;
  if negb (premiere_running pre_flight) then
    ret (foldl (λ results '(p, _), dict_set p NotRunning results) [] ports)
  else validate_each ports max_attempts [].

End WithOracle.

(** [k for k, v in pre_flight.items() if not v], in
    [LocalhostOrchestrator.initialize_project]. *)
Definition failed_checks (pre_flight : Checks) : list string :=
  (if premiere_running pre_flight then [] else ["premiere_running"]) ++
  (if debug_mode_enabled pre_flight then [] else ["debug_mode_enabled"]) ++
  (if network_available pre_flight then [] else ["network_available"]) ++
  (if ports_accessible pre_flight then [] else ["ports_accessible"]).

(** [key in failed_checks] *)
Definition mentions (key : string) (failed : list string) : bool :=
  existsb (String.eqb key) failed.

(** [LocalhostOrchestrator._get_pre_flight_recommendations] *)
Definition _get_pre_flight_recommendations (failed : list string) : list string :=
  (if mentions "premiere_running" failed then ["Start Adobe Premiere Pro"] else []) ++
  (if mentions "debug_mode_enabled" failed
   then ["Enable debug mode: defaults write com.adobe.CSXS.11 PlayerDebugMode 1"] else []) ++
  (if mentions "network_available" failed then ["Check network connectivity"] else []) ++
  (if mentions "ports_accessible" failed then ["Check firewall settings"] else []).

(** The world of a first state. *)
Definition init (d : option (dict Validator.Result)) (tr : list Event) : State :=
  {| cache := Validator.cache (Validator.init d []); heap := Validator.heap (Validator.init d []);
     disk := d; trace := tr |}.

(** The seconds slept, and the ports on which a connection was tried. *)
Definition sleeps (tr : list Event) : list Z :=
  omap (λ e, if e is Sleep s then Some s else None) tr.

Definition connects (tr : list Event) : list Z :=
  omap (λ e, if e is Call (Validator.Connect p _) then Some p else None) tr.


(** ** One call, when the ports of a list all behave alike *)

(** Every port of the list answers ([b] true: the connection succeeds and
    the body is JSON), or every port refuses the connection ([b] false). *)
Definition uniform (O : Oracle) (b : bool) (ports : list Z) : Prop :=
  ∀ p tr, p ∈ ports →
    if b then connect O tr p = Validator.ConnectCode 0 ∧
              ∃ targets, http_json O tr p = Validator.HttpJson targets
    else ∃ rc, rc ≠ 0 ∧ connect O tr p = Validator.ConnectCode rc.

(** What the cache holds for the ports of the list says as much. *)
Definition cache_agrees (b : bool) (ports : list Z) (st : State) : Prop :=
  ∀ p r, p ∈ ports → dict_get p (cache st) = Some r →
         Validator.available (heap st !!! r) = b.

Lemma sleeps_app tr1 tr2 : sleeps (tr1 ++ tr2) = sleeps tr1 ++ sleeps tr2.
Proof. apply omap_app. Qed.

Lemma connects_app tr1 tr2 : connects (tr1 ++ tr2) = connects tr1 ++ connects tr2.
Proof. apply omap_app. Qed.

Lemma sleeps_calls evs : sleeps (Call <$> evs) = [].
Proof. induction evs as [|e evs IH]; [done|]. by cbn. Qed.

Lemma connects_calls evs :
  connects (Call <$> evs)
  = omap (λ e, if e is Validator.Connect p _ then Some p else None) evs.
Proof. induction evs as [|e evs IH]; [done|]. cbn. rewrite <- IH. by destruct e. Qed.

Section Calls.
Context (O : Oracle) (b : bool) (ports : list Z).
Hypothesis alike : uniform O b ports.

Lemma validate_port_uniform p name force st :
  p ∈ ports → cache_agrees b ports st →
  ∃ r st' evs,
    validate_port O p name force st = (inr r, st') ∧
    trace st' = trace st ++ evs ∧ sleeps evs = [] ∧
    (connects evs = [p] ∨ (force = false ∧ connects evs = [])) ∧
    Validator.available (heap st' !!! r) = b ∧
    cache_agrees b ports st' ∧
    (∀ r', Validator.available (heap st !!! r') = b →
           Validator.available (heap st' !!! r') = b).
Proof.
  intros Hp Hinv. unfold validate_port.
  destruct (Validator.stale_or_fresh (during O (trace st)) p force (to_validator st))
    as [Hstale|(r & -> & Hc & Hage)].
  - destruct (Validator.validate_port_stale_run _ p name force _ Hstale) as (pre & Hpre & Hrun).
    cbv zeta in Hrun. rewrite Hrun. clear Hrun. cbn [to_validator Validator.trace app] in *.
    set (t := Validator.clock (during O (trace st)) pre).
    set (a := Validator.connect (during O (trace st)) (pre ++ [Validator.Now t]) p).
    set (h := Validator.http_json (during O (trace st))
                ((pre ++ [Validator.Now t]) ++ [Validator.Connect p a]) p).
    set (res := Validator.probe_result name (Validator.fresh_result p name t) a h).
    assert (Hres : Validator.available res = b ∧
                   omap (λ e, if e is Validator.Connect p _ then Some p else None)
                     (Validator.probe_events p a h) = [p]).
    { pose proof (alike p (trace st ++ (Call <$> (pre ++ [Validator.Now t]))) Hp) as Ha.
      destruct b.
      - destruct Ha as [Ha _].
        pose proof (alike p (trace st ++ (Call <$> ((pre ++ [Validator.Now t]) ++
                                                    [Validator.Connect p a]))) Hp)
          as [_ [targets Hh]].
        assert (Ha' : a = Validator.ConnectCode 0) by exact Ha.
        assert (Hh' : h = Validator.HttpJson targets) by exact Hh.
        unfold res. rewrite Hh', Ha'.
        destruct (Validator.probe_answered name (Validator.fresh_result p name t) p targets)
          as [-> ->]. done.
      - destruct Ha as (rc & Hrc & Ha).
        assert (Ha' : a = Validator.ConnectCode rc) by exact Ha.
        unfold res. rewrite Ha'.
        destruct (Validator.probe_refused name (Validator.fresh_result p name t) p rc h Hrc)
          as [-> ->]. done. }
    destruct Hres as [Hav Hconn].
    eexists _, _, _. split; [reflexivity|].
    cbn [of_validator to_validator trace heap cache Validator.trace Validator.heap
         Validator.cache].
    split; [reflexivity|].
    split; [apply sleeps_calls|]. rewrite connects_calls. split_and!.
    + left. rewrite omap_app. cbn [omap list_omap]. rewrite omap_app, Hconn.
      by destruct Hpre as [->| ->].
    + by rewrite list_lookup_total_middle.
    + intros q r Hq. cbn [of_validator to_validator heap cache Validator.heap Validator.cache].
      destruct (decide (p = q)) as [<-|Hne].
      * rewrite dict_get_set_eq. intros [= <-]. by rewrite list_lookup_total_middle.
      * rewrite dict_get_set_ne by done. intros Hr.
        destruct (Validator.lookup_total_snoc (heap st) res r) as [-> | ->]; [|done].
        by apply (Hinv q).
    + intros r' Hr'. by destruct (Validator.lookup_total_snoc (heap st) res r') as [-> | ->].
  - rewrite (Validator.validate_port_fresh _ p name _ r Hc Hage).
    eexists _, _, _. split; [reflexivity|]. cbn [of_validator trace heap cache Validator.trace
      Validator.heap Validator.cache Validator.served to_validator].
    split; [reflexivity|]. split; [done|]. split_and!.
    + by right.
    + rewrite Validator.available_served. by apply (Hinv p).
    + intros q r' Hq Hr'.
      cbn [of_validator to_validator heap cache Validator.heap Validator.cache
           Validator.served] in *.
      rewrite Validator.available_served. by apply (Hinv q).
    + intros r' Hr'. by rewrite Validator.available_served.
Qed.

End Calls.


(** ** The loop of attempts *)

Lemma bind_ext {A B} (m : M A) (f g : A → M B) st :
  (∀ a st', f a st' = g a st') → bind m f st = bind m g st.
Proof. intros Hfg. unfold bind. by destruct (m st) as [[e|a] st']. Qed.

Section Fuel.
Context (O : Oracle).

(** The bound on the loop is never what stops it: with [max_attempts -
    attempts] turns or more, the loop does the same. *)
Lemma attempts_loop_fuel fuel p name attempts max_attempts results st :
  (Z.to_nat (max_attempts - attempts) ≤ fuel)%nat →
  attempts_loop O fuel p name attempts max_attempts results st
  = attempts_loop O (Z.to_nat (max_attempts - attempts)) p name attempts max_attempts
      results st.
Proof.
  revert attempts st. induction fuel as [|fuel IH]; intros attempts st Hfuel.
  { by replace (Z.to_nat (max_attempts - attempts)) with 0%nat by lia. }
  destruct (Z.ltb_spec attempts max_attempts) as [Hlt|Hge].
  - replace (Z.to_nat (max_attempts - attempts))
      with (S (Z.to_nat (max_attempts - (attempts + 1)))) by lia.
    cbn [attempts_loop]. destruct (attempts <? max_attempts); [|done].
    apply bind_ext; intros r st1. apply bind_ext; intros res st2.
    destruct (_ || _); [done|]. apply bind_ext; intros [] st3. apply IH. lia.
  - replace (Z.to_nat (max_attempts - attempts)) with 0%nat by lia.
    cbn [attempts_loop]. destruct (Z.ltb_spec attempts max_attempts); [lia | done].
Qed.

Lemma validate_each_no_attempts todo max_attempts results st :
  max_attempts ≤ 0 → validate_each O todo max_attempts results st = (inr results, st).
Proof.
  intros Hmax. induction todo as [|[p name] todo IH]; [done|].
  cbn [validate_each]. replace (Z.to_nat max_attempts) with 0%nat by lia.
  cbn [attempts_loop]. unfold bind, ret. apply IH.
Qed.

End Fuel.

Section Loops.
Context (O : Oracle) (ports : list Z).

Lemma cache_agrees_emit b e st :
  cache_agrees b ports st → cache_agrees b ports (emit e st).2.
Proof. done. Qed.

(** A port that answers is asked once. *)
Lemma attempts_loop_answered p name max_attempts results st :
  uniform O true ports → p ∈ ports → cache_agrees true ports st → 0 < max_attempts →
  ∃ r st' evs,
    attempts_loop O (Z.to_nat max_attempts) p name 0 max_attempts results st
      = (inr (dict_set p (Validated r) results), st') ∧
    trace st' = trace st ++ evs ∧ sleeps evs = replicate 0 1 ∧
    (0 ≤ length (connects evs) ≤ 1)%nat ∧
    Validator.available (heap st' !!! r) = true ∧
    cache_agrees true ports st' ∧
    (∀ r', Validator.available (heap st !!! r') = true →
           Validator.available (heap st' !!! r') = true).
Proof.
  intros Halike Hp Hinv Hmax.
  replace (Z.to_nat max_attempts) with (S (Z.to_nat (max_attempts - 1))) by lia.
  cbn [attempts_loop]. destruct (Z.ltb_spec 0 max_attempts) as [_|]; [|lia].
  destruct (validate_port_uniform O true ports Halike p (Some name) (0 <? 0) st Hp Hinv)
    as (r & st1 & evs & Hrun & Htr & Hsl & Hconn & Hav & Hinv1 & Hmono).
  unfold bind at 1. rewrite Hrun. unfold bind at 1, deref at 1. rewrite Hav.
  cbn [orb]. unfold ret. exists r, st1, evs. split_and!; try done; [lia|].
  destruct Hconn as [->|[_ ->]]; simpl; lia.
Qed.

(** A port that refuses is asked until the attempts are used up, with a
    sleep between two attempts. *)
Lemma attempts_loop_refused_from fuel p name attempts max_attempts results st :
  uniform O false ports → p ∈ ports → cache_agrees false ports st →
  0 ≤ attempts < max_attempts → (Z.to_nat (max_attempts - attempts) ≤ fuel)%nat →
  ∃ r st' evs,
    attempts_loop O fuel p name attempts max_attempts results st
      = (inr (dict_set p (Validated r) results), st') ∧
    trace st' = trace st ++ evs ∧
    sleeps evs = replicate (Z.to_nat (max_attempts - attempts - 1)) 1 ∧
    (connects evs = replicate (Z.to_nat (max_attempts - attempts)) p ∨
     (attempts = 0 ∧ connects evs = replicate (Z.to_nat (max_attempts - 1)) p)) ∧
    Validator.available (heap st' !!! r) = false ∧
    cache_agrees false ports st' ∧
    (∀ r', Validator.available (heap st !!! r') = false →
           Validator.available (heap st' !!! r') = false).
Proof.
  intros Halike Hp. revert attempts st.
  induction fuel as [|fuel IH]; intros attempts st Hinv Hatt Hfuel; [lia|].
  cbn [attempts_loop]. destruct (Z.ltb_spec attempts max_attempts) as [_|]; [|lia].
  destruct (validate_port_uniform O false ports Halike p (Some name) (0 <? attempts) st Hp Hinv)
    as (r & st1 & evs1 & Hrun & Htr1 & Hsl1 & Hconn1 & Hav & Hinv1 & Hmono1).
  unfold bind at 1. rewrite Hrun. unfold bind at 1, deref at 1. rewrite Hav. cbn [orb].
  assert (Hfirst : connects evs1 = [p] ∨ (attempts = 0 ∧ connects evs1 = [])).
  { destruct Hconn1 as [?|[Hforce ?]]; [by left|]. right. split; [|done].
    apply Z.ltb_ge in Hforce. lia. }
  destruct (Z.eqb_spec attempts (max_attempts - 1)) as [Hlast|Hmore].
  - unfold ret. exists r, st1, evs1. split_and!; try done.
    + rewrite Hsl1. by replace (Z.to_nat (max_attempts - attempts - 1)) with 0%nat by lia.
    + replace (Z.to_nat (max_attempts - attempts)) with 1%nat by lia.
      destruct Hfirst as [->|[-> ->]]; [by left|]. right.
      by replace (Z.to_nat (max_attempts - 1)) with 0%nat by lia.
  - destruct (Z.ltb_spec (attempts + 1) max_attempts) as [_|]; [|lia].
    unfold bind at 1, time_sleep at 1, emit at 1.
    destruct (IH (attempts + 1)
                {| cache := cache st1; heap := heap st1; disk := disk st1;
                   trace := trace st1 ++ [Sleep 1] |})
      as (r2 & st2 & evs2 & Hrun2 & Htr2 & Hsl2 & Hconn2 & Hav2 & Hinv2 & Hmono2);
      [done | lia | lia |].
    rewrite Hrun2. exists r2, st2, (evs1 ++ [Sleep 1] ++ evs2).
    cbn [trace heap] in *. split_and!; try done.
    + by rewrite Htr2, Htr1, <- !app_assoc.
    + rewrite !sleeps_app, Hsl1, Hsl2. cbn.
      replace (Z.to_nat (max_attempts - attempts - 1))
        with (S (Z.to_nat (max_attempts - (attempts + 1) - 1))) by lia. done.
    + rewrite !connects_app. cbn [connects omap list_omap app].
      destruct Hconn2 as [->|[? _]]; [|lia].
      destruct Hfirst as [->|[-> ->]].
      * left. replace (Z.to_nat (max_attempts - attempts))
          with (S (Z.to_nat (max_attempts - (attempts + 1)))) by lia. done.
      * right. split; [done|]. by replace (max_attempts - (0 + 1)) with (max_attempts - 1) by lia.
    + intros r' Hr'. apply Hmono2, Hmono1, Hr'.
Qed.

Lemma attempts_loop_refused p name max_attempts results st :
  uniform O false ports → p ∈ ports → cache_agrees false ports st → 0 < max_attempts →
  ∃ r st' evs,
    attempts_loop O (Z.to_nat max_attempts) p name 0 max_attempts results st
      = (inr (dict_set p (Validated r) results), st') ∧
    trace st' = trace st ++ evs ∧
    sleeps evs = replicate (Z.to_nat (max_attempts - 1)) 1 ∧
    (Z.to_nat (max_attempts - 1) ≤ length (connects evs) ≤ Z.to_nat max_attempts)%nat ∧
    Validator.available (heap st' !!! r) = false ∧
    cache_agrees false ports st' ∧
    (∀ r', Validator.available (heap st !!! r') = false →
           Validator.available (heap st' !!! r') = false).
Proof.
  intros Halike Hp Hinv Hmax.
  destruct (attempts_loop_refused_from (Z.to_nat max_attempts) p name 0 max_attempts
              results st Halike Hp Hinv)
    as (r & st' & evs & Hrun & Htr & Hsl & Hconn & Hav & Hinv' & Hmono); [lia | lia |].
  exists r, st', evs. split_and!; try done.
  - by replace (max_attempts - 0 - 1) with (max_attempts - 1) in Hsl by lia.
  - destruct Hconn as [->|[_ ->]]; rewrite length_replicate; lia.
  - destruct Hconn as [->|[_ ->]]; rewrite length_replicate; lia.
Qed.

End Loops.


(** ** The loop over the ports *)

(** Every entry of the result is a dictionary of [validate_port] that says
    [b] under ['available']. *)
Definition results_agree (b : bool) (results : dict Entry) (st : State) : Prop :=
  ∀ p e, dict_get p results = Some e →
         ∃ r, e = Validated r ∧ Validator.available (heap st !!! r) = b.

Section Each.
Context (O : Oracle) (b : bool) (ports : list Z) (max_attempts : Z) (s lo hi : nat).
Hypothesis one_port : ∀ p name results st,
  p ∈ ports → cache_agrees b ports st →
  ∃ r st' evs,
    attempts_loop O (Z.to_nat max_attempts) p name 0 max_attempts results st
      = (inr (dict_set p (Validated r) results), st') ∧
    trace st' = trace st ++ evs ∧ sleeps evs = replicate s 1 ∧
    (lo ≤ length (connects evs) ≤ hi)%nat ∧
    Validator.available (heap st' !!! r) = b ∧
    cache_agrees b ports st' ∧
    (∀ r', Validator.available (heap st !!! r') = b →
           Validator.available (heap st' !!! r') = b).

Lemma validate_each_uniform todo results st :
  Forall (λ x, x.1 ∈ ports) todo → cache_agrees b ports st → results_agree b results st →
  ∃ results' st' evs,
    validate_each O todo max_attempts results st = (inr results', st') ∧
    trace st' = trace st ++ evs ∧
    sleeps evs = replicate (s * length todo) 1 ∧
    (lo * length todo ≤ length (connects evs) ≤ hi * length todo)%nat ∧
    (∀ p, is_Some (dict_get p results') ↔ is_Some (dict_get p results) ∨ p ∈ todo.*1) ∧
    results_agree b results' st'.
Proof.
  intros Htodo. revert results st.
  induction Htodo as [|[p name] todo Hp _ IH]; intros results st Hinv Hres.
  { exists results, st, []. rewrite app_nil_r, Nat.mul_0_r. cbn. split_and!; try done; try lia.
    intros q. split; [by left|]. intros [?|Hq]; [done|]. by apply elem_of_nil in Hq. }
  cbn [validate_each]. cbn [fst] in Hp.
  destruct (one_port p name results st Hp Hinv)
    as (r & st1 & evs1 & Hrun1 & Htr1 & Hsl1 & Hconn1 & Hav & Hinv1 & Hmono).
  unfold bind at 1. rewrite Hrun1.
  destruct (IH (dict_set p (Validated r) results) st1 Hinv1)
    as (results' & st' & evs2 & Hrun2 & Htr2 & Hsl2 & Hconn2 & Hkeys & Hres').
  { intros q e. destruct (decide (p = q)) as [<-|Hne].
    - rewrite dict_get_set_eq. intros [= <-]. by exists r.
    - rewrite dict_get_set_ne by done. intros (r' & -> & Hr')%Hres.
      exists r'. split; [done|]. by apply Hmono. }
  rewrite Hrun2. exists results', st', (evs1 ++ evs2). split_and!; try done.
  - by rewrite Htr2, Htr1, <- app_assoc.
  - rewrite sleeps_app, Hsl1, Hsl2, <- replicate_add. f_equal. cbn [length]. lia.
  - rewrite connects_app, length_app. cbn [length]. lia.
  - rewrite connects_app, length_app. cbn [length]. lia.
  - intros q. rewrite Hkeys. cbn [fmap list_fmap fst]. rewrite elem_of_cons.
    destruct (decide (p = q)) as [<-|Hne].
    + rewrite dict_get_set_eq. split; [intros _; right; by left | intros _; by left].
    + rewrite dict_get_set_ne by done. split; [intros [?|?]; auto | intros [?|[?|?]]; auto].
      congruence.
Qed.

End Each.

(** ** The pre-flight checks *)

Lemma pre_flight_check_run (O : Oracle) st :
  ∃ d c t,
    pre_flight_check O st
    = (inr {| premiere_running := if pgrep O (trace st) is Some rc then rc =? 0 else false;
              debug_mode_enabled := if d is Some stdout then String.eqb stdout "1" else false;
              network_available := true;
              ports_accessible := negb t |},
       {| cache := cache st; heap := heap st; disk := disk st;
          trace := trace st ++ [Pgrep (pgrep O (trace st)); Defaults d; CreateConnection c;
                                TestPort t] |}).
Proof.
  unfold pre_flight_check, _check_premiere_running, _check_debug_mode, _check_network,
    _check_port_accessibility, bind, ret. cbn [trace cache heap disk].
  rewrite <- !app_assoc. cbn [app].
  destruct (create_connection O _) eqn:Hc; eexists _, _, _; reflexivity.
Qed.

Lemma not_running_entries (todo : list (Z * string)) (results : dict Entry) p :
  dict_get p (foldl (λ results '(q, _), dict_set q NotRunning results) results todo)
  = if bool_decide (p ∈ todo.*1) then Some NotRunning else dict_get p results.
Proof.
  revert results. induction todo as [|[q name] todo IH]; intros results; [done|].
  cbn [foldl fmap list_fmap fst]. rewrite IH.
  destruct (decide (q = p)) as [->|Hne].
  - rewrite dict_get_set_eq. rewrite (bool_decide_eq_true_2 (p ∈ p :: _)) by apply list_elem_of_here.
    by case_bool_decide.
  - rewrite dict_get_set_ne by done.
    case_bool_decide as Hin.
    + by rewrite bool_decide_eq_true_2 by by apply list_elem_of_further.
    + rewrite bool_decide_eq_false_2; [done|]. by intros [?|?]%elem_of_cons.
Qed.

(** X21.  When [pgrep] does not report a running Premiere Pro (it returns
    a non-zero code, or running it fails), [batch_validate] validates
    nothing: it still runs the other three checks, then returns for every
    port of the list the same error entry; no connection is tried, nothing
    is slept, and the cache and its file are as before. *)
Theorem batch_validate_premiere_not_running (O : Oracle) (todo : list (Z * string))
    (max_attempts : Z) (st : State) :
  pgrep O (trace st) ≠ Some 0 →
  ∃ results st' d c t,
    batch_validate O todo max_attempts st = (inr results, st') ∧
    trace st' = trace st ++ [Pgrep (pgrep O (trace st)); Defaults d; CreateConnection c;
                             TestPort t] ∧
    cache st' = cache st ∧ heap st' = heap st ∧ disk st' = disk st ∧
    ∀ p, dict_get p results = if bool_decide (p ∈ todo.*1) then Some NotRunning else None.
Proof.
  intros Hpgrep. unfold batch_validate. unfold bind at 1.
  destruct (pre_flight_check_run O st) as (d & c & t & ->). cbn [premiere_running].
  assert (Hnot : (if pgrep O (trace st) is Some rc then rc =? 0 else false) = false).
  { destruct (pgrep O (trace st)) as [rc|]; [|done]. apply Z.eqb_neq. congruence. }
  rewrite Hnot. cbn [negb]. unfold ret. eexists _, _, d, c, t. split; [reflexivity|].
  split_and!; try done. intros p. apply not_running_entries.
Qed.

(** Nothing runs and nothing listens. *)
Definition nothing_runs : Oracle :=
  {| pgrep := λ _, Some 1; defaults_read := λ _, Some "1"; create_connection := λ _, false;
     test_port := λ _, false; clock := λ _, 0;
     connect := λ _ _, Validator.ConnectCode 111;
     http_json := λ _ _, Validator.HttpRaised (Validator.URLError "refused") |}.

Lemma batch_validate_premiere_not_running_witness :
  (batch_validate nothing_runs [(9230, "AI SFX"); (9231, "Editing"); (9230, "again")] 3
     (init None [])).1
  = inr [(9230, NotRunning); (9231, NotRunning)].
Proof.
  destruct (batch_validate_premiere_not_running nothing_runs
              [(9230, "AI SFX"); (9231, "Editing"); (9230, "again")] 3 (init None []))
    as (results & st' & d & c & t & Hrun & _); [done|].
  rewrite Hrun. cbn [fst]. vm_compute in Hrun. injection Hrun as <- _. reflexivity.
Defined.

(** X22.  With [max_attempts] zero or negative, [batch_validate] returns
    an empty dictionary although Premiere Pro runs: no port is validated,
    no port is reported, and only the pre-flight checks have run. *)
Theorem batch_validate_no_attempts (O : Oracle) (todo : list (Z * string))
    (max_attempts : Z) (st : State) :
  pgrep O (trace st) = Some 0 → max_attempts ≤ 0 →
  ∃ st' d c t,
    batch_validate O todo max_attempts st = (inr [], st') ∧
    trace st' = trace st ++ [Pgrep (Some 0); Defaults d; CreateConnection c; TestPort t] ∧
    cache st' = cache st ∧ heap st' = heap st ∧ disk st' = disk st.
Proof.
  intros Hpgrep Hmax. unfold batch_validate. unfold bind at 1.
  destruct (pre_flight_check_run O st) as (d & c & t & ->). cbn [premiere_running].
  rewrite Hpgrep. cbn [negb Z.eqb]. rewrite validate_each_no_attempts by done.
  by eexists _, d, c, t.
Qed.

(** Premiere Pro runs; nothing listens on the debug ports. *)
Definition ports_closed : Oracle :=
  {| pgrep := λ _, Some 0; defaults_read := λ _, Some "1"; create_connection := λ _, false;
     test_port := λ _, false; clock := λ tr, 1000000 * Z.of_nat (length tr);
     connect := λ _ _, Validator.ConnectCode 111;
     http_json := λ _ _, Validator.HttpRaised (Validator.URLError "refused") |}.

Lemma batch_validate_no_attempts_witness :
  (batch_validate ports_closed [(9230, "AI SFX")] 0 (init None [])).1 = inr [].
Proof.
  destruct (batch_validate_no_attempts ports_closed [(9230, "AI SFX")] 0 (init None []))
    as (st' & d & c & t & Hrun & _); [done | lia |].
  by rewrite Hrun.
Defined.

Lemma cache_agrees_same b ports st st' :
  cache st' = cache st → heap st' = heap st →
  cache_agrees b ports st → cache_agrees b ports st'.
Proof. intros Hc Hh Hinv p r. rewrite Hc, Hh. apply Hinv. Qed.



(** Premiere Pro runs and a panel answers on every port. *)
Definition panels_up : Oracle :=
  {| pgrep := λ _, Some 0; defaults_read := λ _, Some "1"; create_connection := λ _, false;
     test_port := λ _, false; clock := λ tr, 1000000 * Z.of_nat (length tr);
     connect := λ _ _, Validator.ConnectCode 0;
     http_json := λ _ _, Validator.HttpJson
                           (Validator.JArr [Validator.JObj [("title", Validator.JStr "AI SFX")]]) |}.



(** X25.  The advice that [initialize_project] gives after failed
    pre-flight checks: [network_available] is always true, so "Check
    network connectivity" is never advised; there is one piece of advice
    for every failed check, and none exactly when [all(pre_flight.values())]
    holds. *)
Theorem pre_flight_recommendations (O : Oracle) (st : State) :
  ∃ checks st',
    pre_flight_check O st = (inr checks, st') ∧
    network_available checks = true ∧
    let advice := _get_pre_flight_recommendations (failed_checks checks) in
    ("Check network connectivity" ∉ advice) ∧
    length advice = length (failed_checks checks) ∧
    (advice = [] ↔
     premiere_running checks && debug_mode_enabled checks && network_available checks &&
     ports_accessible checks = true) ∧
    (premiere_running checks = false ↔ "Start Adobe Premiere Pro" ∈ advice).
Proof.
  destruct (pre_flight_check_run O st) as (d & c & t & ->).
  eexists _, _. split; [reflexivity|]. split; [done|]. cbn [network_available
    premiere_running debug_mode_enabled ports_accessible].
  cbv zeta.
  destruct (if pgrep O (trace st) is Some rc then rc =? 0 else false),
    (if d is Some stdout then String.eqb stdout "1" else false), (negb t);
    refine (bool_decide_unpack _ _); vm_compute; reflexivity.
Qed.

End Batch.

(** ** PluginHealthChecker (AI-SFX-Bolt/plugin_health_check.py) *)
Module Health.

(** A DevTools target: the dictionary on which [target.get] worked. *)
Definition Target := list (string * Validator.json).

(** What [check_plugin_loaded] returns.  The method asks up to five
    DevTools endpoints and classifies what it reads; the model takes the
    verdict from the environment, one constructor for each [return] of the
    method, with the port on which the plug-in was found.  What the method
    does with [self.debug_port], and the line it prints then, is in the
    model. *)
Inductive PluginStatus :=
| LoadedCorrectly (port : Z) (target : Target)
| ConnectionRefused (port : Z) (target : Target)
| PageFailed (port : Z) (target : Target)
| Loaded (port : Z) (target : Target)
| NotFound.

(** The first component of the tuple. *)
Definition status_ok (s : PluginStatus) : bool :=
  match s with
  | LoadedCorrectly _ _ | Loaded _ _ => true
  | ConnectionRefused _ _ | PageFailed _ _ | NotFound => false
  end.

(** The second component, as the method formats it. *)
Definition status_message (s : PluginStatus) : string :=
  match s with
  | LoadedCorrectly port _ => "✅ Plugin loaded correctly on port " +:+ pretty port
  | ConnectionRefused port _ =>
      "❌ Plugin on port " +:+ pretty port +:+ " but dev server connection refused"
  | PageFailed port _ => "❌ Plugin loaded on port " +:+ pretty port +:+ " but page failed"
  | Loaded port _ => "✅ Plugin loaded on port " +:+ pretty port
  | NotFound => "❌ Plugin not found on any debug port"
  end.

(** The third component; [None] when the plug-in was not found. *)
Definition status_target (s : PluginStatus) : option Target :=
  match s with
  | LoadedCorrectly _ t | ConnectionRefused _ t | PageFailed _ t | Loaded _ t => Some t
  | NotFound => None
  end.

(** [not target]: [None] and the empty dictionary are falsy. *)
Definition target_missing (t : option Target) : bool :=
  match t with
  | Some (_ :: _) => false
  | Some [] | None => true
  end.

(** [str.lower] on the ASCII letters; the messages above have no other
    cased character. *)
Definition lower_ascii (c : Ascii.ascii) : Ascii.ascii :=
  let n := Ascii.nat_of_ascii c in
  if ((65 <=? n) && (n <=? 90))%nat then Ascii.ascii_of_nat (n + 32) else c.

Fixpoint lower (s : string) : string :=
  match s with
  | EmptyString => EmptyString
  | String c rest => String (lower_ascii c) (lower rest)
  end.

(** Answers of the system. *)
Inductive Fetch :=
| FetchStatus (status : Z)        (* [urlopen] returned a response *)
| FetchURLError (text : string)   (* it raised [URLError]; [text] is [str(e)] *)
| FetchRaised (text : string)     (* it raised another exception *).

Inductive Run :=
| RunExit (returncode : Z) (stderr : string)
| RunRaised (text : string)       (* [subprocess.run] raised, a timeout for one *).

(** What a scan of the endpoints came to: what the method returns, and the
    ports on which it took a target for the plug-in, in the order of the
    scan.  The last of them is the port of the verdict when there is one;
    on the ones before, choosing the verdict raised and the scan went on
    with the next port. *)
Record PluginProbe := {
  verdict : PluginStatus;
  found_on : list Z;
}.

Inductive Script := ReloadPanel | ReopenPanel.

(** The lines that the class prints. *)
Inductive Message :=
| PerformingHealthCheck (plugin_name : string)
| Indented (line : string)
| StartingAutoRecovery
| HealthyNoRecoveryNeeded
| Step1RestartingDevServer
| FailedToRestartDevServer
| Step2ReloadingPluginPanel
| RecoveredViaPanelReload
| Step3ReloadingViaPremiere
| RecoveredViaPremiereReload
| AutoRecoveryFailed
| PluginIsHealthy
| DebugAt (debug_port : Z)
| FoundPluginOn (port debug_port : Z)
| PluginUnhealthyAttempt (attempt max_retries : Z)
| WaitingBeforeRetry
| FailedToEnsureHealthy (max_retries : Z)
| CannotReload
| PanelReloaded
| FailedToReload (stderr : string)
| FailedToReloadPlugin (text : string)
| RestartingDevServer
| DevServerRestarted
| FailedToRestartDevServerError (text : string)
| ReloadedInPremiere
| FailedToReloadInPremiere (stderr : string)
| ErrorReloadingInPremiere (text : string).

Definition newline : string := String (Ascii.ascii_of_nat 10) EmptyString.

(** The text of each line. *)
Definition render (m : Message) : string :=
  match m with
  | PerformingHealthCheck name => newline +:+ "🏥 Performing health check for " +:+ name +:+ "..."
  | Indented line => "  " +:+ line
  | StartingAutoRecovery => newline +:+ "🔧 Starting auto-recovery..."
  | HealthyNoRecoveryNeeded => "✅ Plugin is healthy, no recovery needed"
  | Step1RestartingDevServer => newline +:+ "🔄 Step 1: Restarting dev server..."
  | FailedToRestartDevServer => "❌ Failed to restart dev server"
  | Step2ReloadingPluginPanel => newline +:+ "🔄 Step 2: Reloading plugin panel..."
  | RecoveredViaPanelReload => "✅ Plugin recovered via panel reload"
  | Step3ReloadingViaPremiere => newline +:+ "🔄 Step 3: Reloading via Premiere..."
  | RecoveredViaPremiereReload => "✅ Plugin recovered via Premiere reload"
  | AutoRecoveryFailed => "❌ Auto-recovery failed"
  | PluginIsHealthy => newline +:+ "✅ Plugin is healthy!"
  | DebugAt debug_port => "🔗 Debug at: http://localhost:" +:+ pretty debug_port
  | FoundPluginOn port debug_port =>
      "  📍 Found plugin on port " +:+ pretty port +:+ " (not " +:+ pretty debug_port +:+ ")"
  | PluginUnhealthyAttempt attempt max_retries =>
      newline +:+ "⚠️ Plugin unhealthy, attempt " +:+ pretty attempt +:+ "/" +:+ pretty max_retries
  | WaitingBeforeRetry => newline +:+ "⏳ Waiting before retry..."
  | FailedToEnsureHealthy max_retries =>
      newline +:+ "❌ Failed to ensure healthy plugin after " +:+ pretty max_retries +:+ " attempts"
  | CannotReload => "❌ Cannot reload - plugin not found"
  | PanelReloaded => "✅ Plugin panel reloaded successfully"
  | FailedToReload stderr => "❌ Failed to reload: " +:+ stderr
  | FailedToReloadPlugin text => "❌ Failed to reload plugin: " +:+ text
  | RestartingDevServer => "🔄 Restarting dev server..."
  | DevServerRestarted => "✅ Dev server restarted successfully"
  | FailedToRestartDevServerError text => "❌ Failed to restart dev server: " +:+ text
  | ReloadedInPremiere => "✅ Plugin reloaded in Premiere"
  | FailedToReloadInPremiere stderr => "❌ Failed to reload in Premiere: " +:+ stderr
  | ErrorReloadingInPremiere text => "❌ Error reloading in Premiere: " +:+ text
  end.

Inductive Event :=
| DevServerGet (dev_port : Z) (a : Fetch)    (* GET http://localhost:dev_port/main/ *)
| PluginLoaded (a : PluginProbe)             (* [check_plugin_loaded] *)
| Osascript (s : Script) (a : Run)
| Pkill (raised : option string)             (* pkill -f vite *)
| Popen (raised : option string)             (* npm run dev *)
| Sleep (seconds : Z)
| Print (m : Message).

Record Oracle := {
  dev_server : list Event → Z → Fetch;
  plugin_loaded : list Event → string → Z → PluginProbe;
  osascript : list Event → Script → Run;
  pkill : list Event → option string;
  popen : list Event → option string;
}.

(** The attributes of a [PluginHealthChecker] and the history. *)
Record State := {
  plugin_name : string;
  debug_port : Z;
  dev_port : Z;
  max_retries : Z;
  trace : list Event;
}.

(** [PluginHealthChecker(plugin_name, debug_port, dev_port)] *)
Definition init (name : string) (debug dev : Z) (tr : list Event) : State :=
  {| plugin_name := name; debug_port := debug; dev_port := dev; max_retries := 3;
     trace := tr |}.

Definition M : Type → Type := StateM State.

Definition emit (e : Event) (st : State) : State :=
  {| plugin_name := plugin_name st; debug_port := debug_port st; dev_port := dev_port st;
     max_retries := max_retries st; trace := trace st ++ [e] |}.

Definition print (m : Message) : M unit := λ st, (tt, emit (Print m) st).
Definition sleep (seconds : Z) : M unit := λ st, (tt, emit (Sleep seconds) st).
Definition get_max_retries : M Z := λ st, (max_retries st, st).
Definition get_debug_port : M Z := λ st, (debug_port st, st).
Definition get_plugin_name : M string := λ st, (plugin_name st, st).

(** The dictionary that [perform_health_check] returns. *)
Record HealthResults := {
  healthy : bool;
  dev_server_ok : bool;
  dev_server_message : string;
  plugin_loaded_ok : bool;
  plugin_loaded_message : string;
  actions_taken : list string;
}.

Section WithOracle.
Context (O : Oracle).

Definition check_dev_server : M (bool * string) :=
  λ st, let a := dev_server O (trace st) (dev_port st) in
        let st' := emit (DevServerGet (dev_port st) a) st in
        match a with
        | FetchStatus status =>
            if status =? 200 then ((true, "✅ Dev server is running"), st')
            else ((false, "❌ Dev server not responding"), st')
        | FetchURLError text => ((false, "❌ Dev server not accessible: " +:+ text), st')
        | FetchRaised text => ((false, "❌ Dev server error: " +:+ text), st')
        end.

(** The requests of one call of [check_plugin_loaded], as one event. *)
Definition scan_endpoints : M PluginProbe :=
  λ st, let a := plugin_loaded O (trace st) (plugin_name st) (debug_port st) in
        (a, emit (PluginLoaded a) st).

(** [if port != self.debug_port: print(...); self.debug_port = port] *)
Definition found_plugin_on (port : Z) : M unit :=
  λ st, if bool_decide (port = debug_port st) then (tt, st)
        else (tt, {| plugin_name := plugin_name st; debug_port := port;
                     dev_port := dev_port st; max_retries := max_retries st;
                     trace := trace st ++ [Print (FoundPluginOn port (debug_port st))] |}).

Fixpoint found_plugin_on_each (ports : list Z) : M unit :=
  match ports with
  | [] => ret tt
  | port :: rest => found_plugin_on port ;;; found_plugin_on_each rest
  end.

Definition check_plugin_loaded : M PluginStatus :=
  a <- scan_endpoints ;;
  found_plugin_on_each (found_on a) ;;;
  ret (verdict a).

Definition run_osascript (s : Script) : M Run :=
  λ st, let a := osascript O (trace st) s in (a, emit (Osascript s a) st).

Definition reload_plugin_panel : M bool :=
  status <- check_plugin_loaded ;;
  if target_missing (status_target status) then print CannotReload ;;; ret false
  else
    result <- run_osascript ReloadPanel ;;
    match result with
    | RunExit returncode stderr =>
        if returncode =? 0 then print PanelReloaded ;;; ret true
        else print (FailedToReload stderr) ;;; ret false
    | RunRaised text => print (FailedToReloadPlugin text) ;;; ret false
    end.

(** The loop [for i in range(30)] of [restart_dev_server]. *)
Fixpoint wait_for_dev_server (tries : nat) : M bool :=
  match tries with
  | 0%nat => ret false
  | S tries' =>
      answer <- check_dev_server ;;
      if answer.1 then print DevServerRestarted ;;; ret true
      else sleep 1 ;;; wait_for_dev_server tries'
  end.

(** [subprocess.run(['pkill', '-f', 'vite'])] and
    [subprocess.Popen(['npm', 'run', 'dev'])]; the answer is the text of the
    exception, if one was raised. *)
Definition run_pkill : M (option string) :=
  λ st, let a := pkill O (trace st) in (a, emit (Pkill a) st).

Definition spawn_dev_server : M (option string) :=
  λ st, let a := popen O (trace st) in (a, emit (Popen a) st).

Definition restart_dev_server : M bool :=
  print RestartingDevServer ;;;
  killed <- run_pkill ;;
  match killed with
  | Some text => print (FailedToRestartDevServerError text) ;;; ret false
  | None =>
      sleep 2 ;;;
      spawned <- spawn_dev_server ;;
      match spawned with
      | Some text => print (FailedToRestartDevServerError text) ;;; ret false
      | None => wait_for_dev_server 30
      end
  end.

Definition trigger_premiere_reload : M bool :=
  result <- run_osascript ReopenPanel ;;
  match result with
  | RunExit returncode stderr =>
      if returncode =? 0 then print ReloadedInPremiere ;;; ret true
      else print (FailedToReloadInPremiere stderr) ;;; ret false
  | RunRaised text => print (ErrorReloadingInPremiere text) ;;; ret false
  end.

Definition perform_health_check : M HealthResults :=
  name <- get_plugin_name ;;
  print (PerformingHealthCheck name) ;;;
  dev <- check_dev_server ;;
  print (Indented dev.2) ;;;
  status <- check_plugin_loaded ;;
  print (Indented (status_message status)) ;;;
  ret {| healthy := dev.1 && status_ok status;
         dev_server_ok := dev.1; dev_server_message := dev.2;
         plugin_loaded_ok := status_ok status;
         plugin_loaded_message := status_message status;
         actions_taken := [] |}.

(** Steps 2 and 3 of [auto_recover]. *)
Definition reload_steps : M bool :=
  print Step2ReloadingPluginPanel ;;;
  reloaded <- reload_plugin_panel ;;
  recovered <-
    (if (reloaded : bool) then
       sleep 3 ;;; status <- check_plugin_loaded ;;
       if status_ok status then print RecoveredViaPanelReload ;;; ret true
       else ret false
     else ret false) ;;
  if (recovered : bool) then ret true
  else
    print Step3ReloadingViaPremiere ;;;
    reopened <- trigger_premiere_reload ;;
    if (reopened : bool) then
      sleep 5 ;;; final_health <- perform_health_check ;;
      if healthy final_health then print RecoveredViaPremiereReload ;;; ret true
      else print AutoRecoveryFailed ;;; ret false
    else print AutoRecoveryFailed ;;; ret false.

Definition auto_recover : M bool :=
  print StartingAutoRecovery ;;;
  health <- perform_health_check ;;
  if healthy health then print HealthyNoRecoveryNeeded ;;; ret true
  else
    restarted <-
      (if negb (dev_server_ok health) then
         print Step1RestartingDevServer ;;;
         ok <- restart_dev_server ;;
         if (ok : bool) then sleep 3 ;;; ret true
         else print FailedToRestartDevServer ;;; ret false
       else ret true) ;;
    if negb restarted then ret false
    else if negb (plugin_loaded_ok health) ||
            str_contains "page failed" (lower (plugin_loaded_message health))
    then reload_steps
    else print AutoRecoveryFailed ;;; ret false.

(** The loop [for attempt in range(self.max_retries)] of
    [ensure_healthy], and what follows it. *)
Fixpoint attempts (todo : list Z) : M bool :=
  match todo with
  | [] =>
      n <- get_max_retries ;;
      print (FailedToEnsureHealthy n) ;;; ret false
  | attempt :: rest =>
      health <- perform_health_check ;;
      if healthy health then
        print PluginIsHealthy ;;;
        port <- get_debug_port ;;
        print (DebugAt port) ;;; ret true
      else
        n <- get_max_retries ;;
        print (PluginUnhealthyAttempt (attempt + 1) n) ;;;
        recovered <- auto_recover ;;
        if (recovered : bool) then ret true
        else
          n <- get_max_retries ;;
          (if attempt <? n - 1 then print WaitingBeforeRetry ;;; sleep 5 else ret tt) ;;;
          attempts rest
  end.

Definition ensure_healthy : M bool :=
  n <- get_max_retries ;;
  attempts (seqZ 0 n).

End WithOracle.

Arguments perform_health_check : simpl never.
Arguments auto_recover : simpl never.

(** *** The debug port follows the plug-in *)

(** When the scan takes a target on another port than [self.debug_port]
    for the plug-in, the method says so and keeps that port; on the port
    it has already, it prints nothing. *)
Lemma check_plugin_loaded_moves_debug_port (O : Oracle) (st : State) (port : Z) :
  let a := plugin_loaded O (trace st) (plugin_name st) (debug_port st) in
  found_on a = [port] →
  check_plugin_loaded O st
  = (verdict a,
     if bool_decide (port = debug_port st) then emit (PluginLoaded a) st
     else {| plugin_name := plugin_name st; debug_port := port; dev_port := dev_port st;
             max_retries := max_retries st;
             trace := trace st ++ [PluginLoaded a; Print (FoundPluginOn port (debug_port st))] |}).
Proof.
  cbv zeta. intros Hfound. unfold check_plugin_loaded, bind, scan_endpoints. rewrite Hfound.
  cbn [found_plugin_on_each]. unfold bind, ret, found_plugin_on. cbn [emit debug_port].
  destruct (bool_decide (port = debug_port st)); [done|].
  unfold emit. cbn [plugin_name dev_port max_retries trace]. by rewrite <- app_assoc.
Qed.

(** The plug-in shows on 9231 with a page that failed to load. *)
Definition plugin_on_9231 : Oracle :=
  {| dev_server := λ _ _, FetchStatus 200;
     plugin_loaded := λ _ _ _,
       {| verdict := PageFailed 9231 [("title", Validator.JStr "Page failed to load")];
          found_on := [9231] |};
     osascript := λ _ _, RunExit 1 "execution error";
     pkill := λ _, None;
     popen := λ _, None |}.

Lemma check_plugin_loaded_found_elsewhere :
  let st := init "AI SFX Generator" 9230 3001 [] in
  let run := check_plugin_loaded plugin_on_9231 st in
  debug_port run.2 = 9231 ∧
  render <$> omap (λ e, if e is Print m then Some m else None) (trace run.2)
  = ["  📍 Found plugin on port 9231 (not 9230)"] ∧
  omap (λ e, if e is Print m then Some m else None)
    (events_since (trace run.2) (trace (check_plugin_loaded plugin_on_9231 run.2).2)) = [].
Proof. vm_compute. by split_and!. Qed.


(** *** Counting the attempts *)

(** The attempts that a run announced: the numbers [attempt + 1] and
    [max_retries] of every line "Plugin unhealthy, attempt i/n", in order.
    The class keeps no counter of failures; these lines are its count. *)
Definition attempt_line (e : Event) : option (Z * Z) :=
  match e with
  | Print (PluginUnhealthyAttempt attempt n) => Some (attempt, n)
  | _ => None
  end.

Definition attempts_reported (evs : list Event) : list (Z * Z) := omap attempt_line evs.

Lemma attempts_reported_app evs1 evs2 :
  attempts_reported (evs1 ++ evs2) = attempts_reported evs1 ++ attempts_reported evs2.
Proof. apply omap_app. Qed.

(** A computation that announces no attempt and leaves [max_retries] alone. *)
Definition quiet {A} (m : M A) : Prop :=
  ∀ st, ∃ evs, trace (m st).2 = trace st ++ evs ∧ attempts_reported evs = [] ∧
               max_retries (m st).2 = max_retries st.

Lemma quiet_ret {A} (a : A) : quiet (ret a).
Proof. intros st. exists []. by rewrite app_nil_r. Qed.

Lemma quiet_bind {A B} (m : M A) (f : A → M B) :
  quiet m → (∀ a, quiet (f a)) → quiet (bind m f).
Proof.
  intros Hm Hf st. unfold bind. destruct (Hm st) as (e1 & Ht1 & Hc1 & Hm1).
  destruct (m st) as [a st1]. simpl in *.
  destruct (Hf a st1) as (e2 & Ht2 & Hc2 & Hm2).
  exists (e1 ++ e2). rewrite Ht2, Ht1, Hm2, Hm1, attempts_reported_app, Hc1, Hc2.
  by rewrite app_assoc.
Qed.

Lemma quiet_emit {A} (e : Event) (a : A) :
  attempt_line e = None → quiet (λ st, (a, emit e st)).
Proof. intros He st. exists [e]. simpl. by rewrite He. Qed.

Lemma quiet_print (m : Message) :
  (if m is PluginUnhealthyAttempt _ _ then False else True) → quiet (print m).
Proof. intros Hm. apply quiet_emit. by destruct m. Qed.

Lemma quiet_sleep (seconds : Z) : quiet (sleep seconds).
Proof. by apply quiet_emit. Qed.

Lemma quiet_get_plugin_name : quiet get_plugin_name.
Proof. intros st. exists []. by rewrite app_nil_r. Qed.

Create HintDb quiet.

#[local] Hint Resolve quiet_ret quiet_sleep quiet_get_plugin_name : quiet.
#[local] Hint Extern 1 (quiet (print _)) => apply quiet_print; exact I : quiet.

(** Break a computation into its steps; the steps that are methods of the
    class are closed by their own lemma, from the hint database. *)
Ltac quiet_step :=
  first
    [ solve [auto 1 with quiet nocore]
    | simple apply quiet_bind; [|intros ?]
    | match goal with
      | |- quiet (if ?c then _ else _) => destruct c
      | |- quiet (match ?x with _ => _ end) => destruct x
      end ].

Ltac quiet_steps := repeat quiet_step.

Section Quiet.
Context (O : Oracle).

Lemma quiet_check_dev_server : quiet (check_dev_server O).
Proof.
  intros st. exists [DevServerGet (dev_port st) (dev_server O (trace st) (dev_port st))].
  unfold check_dev_server.
  destruct (dev_server O (trace st) (dev_port st)) as [status| |]; [destruct (status =? 200)| |];
    done.
Qed.

Lemma quiet_found_plugin_on port : quiet (found_plugin_on port).
Proof.
  intros st. unfold found_plugin_on. destruct (bool_decide (port = debug_port st)).
  - exists []. by rewrite app_nil_r.
  - by eexists [_].
Qed.

Lemma quiet_found_plugin_on_each ports : quiet (found_plugin_on_each ports).
Proof.
  induction ports as [|port rest IH]; simpl; [apply quiet_ret|].
  apply quiet_bind; [apply quiet_found_plugin_on | done].
Qed.

Lemma quiet_check_plugin_loaded : quiet (check_plugin_loaded O).
Proof.
  unfold check_plugin_loaded. apply quiet_bind; [intros st; by eexists [_]|]. intros a.
  apply quiet_bind; [apply quiet_found_plugin_on_each | intros _; apply quiet_ret].
Qed.

Lemma quiet_run_osascript s : quiet (run_osascript O s).
Proof. intros st. by eexists [_]. Qed.

Lemma quiet_run_pkill : quiet (run_pkill O).
Proof. intros st. by eexists [_]. Qed.

Lemma quiet_spawn_dev_server : quiet (spawn_dev_server O).
Proof. intros st. by eexists [_]. Qed.

#[local] Hint Resolve quiet_check_dev_server quiet_check_plugin_loaded quiet_run_osascript
  quiet_run_pkill quiet_spawn_dev_server : quiet.

Lemma quiet_reload_plugin_panel : quiet (reload_plugin_panel O).
Proof. unfold reload_plugin_panel. quiet_steps. Qed.

Lemma quiet_wait_for_dev_server tries : quiet (wait_for_dev_server O tries).
Proof. induction tries as [|tries IH]; simpl; quiet_steps. Qed.

#[local] Hint Resolve quiet_reload_plugin_panel quiet_wait_for_dev_server : quiet.

Lemma quiet_restart_dev_server : quiet (restart_dev_server O).
Proof. unfold restart_dev_server. quiet_steps. Qed.

Lemma quiet_trigger_premiere_reload : quiet (trigger_premiere_reload O).
Proof. unfold trigger_premiere_reload. quiet_steps. Qed.

Lemma quiet_perform_health_check : quiet (perform_health_check O).
Proof. unfold perform_health_check. quiet_steps. Qed.

#[local] Hint Resolve quiet_restart_dev_server quiet_trigger_premiere_reload
  quiet_perform_health_check : quiet.

Lemma quiet_reload_steps : quiet (reload_steps O).
Proof. unfold reload_steps. quiet_steps. Qed.

#[local] Hint Resolve quiet_reload_steps : quiet.

Lemma quiet_auto_recover : quiet (auto_recover O).
Proof. unfold auto_recover. quiet_steps. Qed.

End Quiet.

(** *** Giving up *)

(** One round of the loop of [ensure_healthy] that fails, as a change of
    the state: the health check, the line that announces the attempt, the
    recovery, and the wait before the next round if there is one. *)
Definition failed_round (O : Oracle) (st : State) (attempt : Z) : State :=
  let st1 := (perform_health_check O st).2 in
  let st2 := emit (Print (PluginUnhealthyAttempt (attempt + 1) (max_retries st1))) st1 in
  let st3 := (auto_recover O st2).2 in
  if attempt <? max_retries st3 - 1
  then emit (Sleep 5) (emit (Print WaitingBeforeRetry) st3)
  else st3.

(** The class keeps no counter of failures.  This is the count along the
    run: the rounds of the loop, from the first on, in which the health
    check was not healthy and the recovery returned [False]. *)
Fixpoint failed_rounds (O : Oracle) (todo : list Z) (st : State) : nat :=
  match todo with
  | [] => 0
  | attempt :: rest =>
      let '(health, st1) := perform_health_check O st in
      if healthy health then 0%nat
      else
        let st2 := emit (Print (PluginUnhealthyAttempt (attempt + 1) (max_retries st1))) st1 in
        if (auto_recover O st2).1 then 0%nat
        else S (failed_rounds O rest (failed_round O st attempt))
  end.

Section GivingUp.
Context (O : Oracle).
(** The health check never passes and the recovery never succeeds. *)
Hypothesis never_healthy : ∀ st, healthy (perform_health_check O st).1 = false.
Hypothesis never_recovers : ∀ st, (auto_recover O st).1 = false.

Lemma attempts_exhausted (todo : list Z) (st : State) :
  ∃ st' evs,
    attempts O todo st = (false, st') ∧
    trace st' = trace st ++ evs ∧
    max_retries st' = max_retries st ∧
    attempts_reported evs = (λ attempt, (attempt + 1, max_retries st)) <$> todo ∧
    last evs = Some (Print (FailedToEnsureHealthy (max_retries st))).
Proof.
  revert st. induction todo as [|attempt rest IH]; intros st.
  - eexists _, [_]. by split_and!.
  - simpl. unfold bind at 1.
    pose proof (never_healthy st) as Hbad.
    destruct (quiet_perform_health_check O st) as (e1 & Ht1 & Hc1 & Hm1).
    destruct (perform_health_check O st) as [health st1]. simpl in Hbad, Ht1, Hm1.
    rewrite Hbad. unfold bind at 1. unfold get_max_retries at 1.
    unfold bind at 1. unfold print at 1. unfold bind at 1.
    set (st2 := emit _ st1).
    pose proof (never_recovers st2) as Hno.
    destruct (quiet_auto_recover O st2) as (e2 & Ht2 & Hc2 & Hm2).
    destruct (auto_recover O st2) as [recovered st3]. simpl in Hno, Ht2, Hm2.
    subst recovered. unfold bind at 1. unfold get_max_retries at 1. unfold bind at 1.
    assert (Hwait : ∃ st4 e3,
              (if attempt <? max_retries st3 - 1
               then print WaitingBeforeRetry ;;; sleep 5 else ret tt) st3 = (tt, st4) ∧
              trace st4 = trace st3 ++ e3 ∧ attempts_reported e3 = [] ∧
              max_retries st4 = max_retries st3).
    { destruct (attempt <? max_retries st3 - 1).
      - eexists _, [_; _].
        split_and!; [reflexivity | simpl; by rewrite <- app_assoc | done | done].
      - eexists _, []. by rewrite app_nil_r. }
    destruct Hwait as (st4 & e3 & -> & Ht4 & Hc4 & Hm4).
    destruct (IH st4) as (st' & e4 & Hrun & Ht' & Hm' & Hc' & Hlast).
    rewrite Hrun. exists st', (e1 ++ [Print (PluginUnhealthyAttempt (attempt + 1) (max_retries st1))]
                                ++ e2 ++ e3 ++ e4).
    assert (Hn : max_retries st4 = max_retries st).
    { rewrite Hm4, Hm2. subst st2. simpl. done. }
    split_and!.
    + done.
    + rewrite Ht', Ht4, Ht2. subst st2. simpl. rewrite Ht1. by rewrite <- !app_assoc.
    + by rewrite Hm', Hn.
    + rewrite !attempts_reported_app, Hc1, Hc2, Hc4, Hc'. simpl. by rewrite Hm1, Hn.
    + rewrite !app_assoc. rewrite last_app, Hlast. simpl. by rewrite Hn.
Qed.

(** A round that fails is all that the loop does with an attempt. *)
Lemma attempts_failed_round (attempt : Z) (rest : list Z) (st : State) :
  attempts O (attempt :: rest) st = attempts O rest (failed_round O st attempt).
Proof.
  cbn [attempts]. unfold failed_round. unfold bind at 1.
  pose proof (never_healthy st) as Hbad.
  destruct (perform_health_check O st) as [health st1]. cbn [fst snd] in *.
  rewrite Hbad. unfold bind at 1. unfold get_max_retries at 1.
  unfold bind at 1. unfold print at 1. unfold bind at 1.
  set (st2 := emit _ st1).
  pose proof (never_recovers st2) as Hno.
  destruct (auto_recover O st2) as [recovered st3]. cbn [fst snd] in *. subst recovered.
  unfold bind at 1. unfold get_max_retries at 1. unfold bind at 1.
  by destruct (attempt <? max_retries st3 - 1).
Qed.

Lemma max_retries_failed_round (attempt : Z) (st : State) :
  max_retries (failed_round O st attempt) = max_retries st.
Proof.
  unfold failed_round.
  destruct (quiet_perform_health_check O st) as (e1 & _ & _ & Hm1).
  set (st2 := emit _ (perform_health_check O st).2).
  destruct (quiet_auto_recover O st2) as (e2 & _ & _ & Hm2).
  assert (max_retries (auto_recover O st2).2 = max_retries st) as Hm3
    by (rewrite Hm2; subst st2; simpl; done).
  by destruct (_ <? _).
Qed.

(** The whole run: the rounds one after the other, then the last line. *)
Lemma attempts_failed_rounds (todo : list Z) (st : State) :
  attempts O todo st
  = (false, emit (Print (FailedToEnsureHealthy (max_retries st)))
              (foldl (failed_round O) st todo)) ∧
  failed_rounds O todo st = length todo.
Proof.
  revert st. induction todo as [|attempt rest IH]; intros st; [done|].
  destruct (IH (failed_round O st attempt)) as [Hrun Hcount].
  rewrite attempts_failed_round, Hrun, max_retries_failed_round. split; [done|].
  cbn [failed_rounds length]. pose proof (never_healthy st) as Hbad.
  destruct (perform_health_check O st) as [health st1] eqn:Hcheck. cbn [fst snd] in *.
  rewrite Hbad, never_recovers. by rewrite Hcount.
Qed.

End GivingUp.

(** C7.  For a checker whose health check never passes and whose recovery
    never succeeds, [ensure_healthy] returns [False] after [max_retries]
    rounds and no more: what it has done is round 0, round 1, ..., round
    [max_retries - 1], each of them a health check, the line that
    announces the attempt, a recovery and, but for the last, a wait of five
    seconds, and then the line that says that it failed after
    [max_retries] attempts.  All [max_retries] rounds failed, one after the
    other.  The attempts announced are 1, 2, ..., [max_retries], each out
    of [max_retries], and no other.  A checker as [__init__] makes it has
    [max_retries = 3]. *)
Theorem ensure_healthy_gives_up (O : Oracle) (st : State) :
  (∀ st, healthy (perform_health_check O st).1 = false) →
  (∀ st, (auto_recover O st).1 = false) →
  ∃ st',
    ensure_healthy O st = (false, st') ∧
    attempts_reported (events_since (trace st) (trace st'))
      = (λ i, (i, max_retries st)) <$> seqZ 1 (max_retries st) ∧
    length (attempts_reported (events_since (trace st) (trace st')))
      = Z.to_nat (max_retries st) ∧
    last (trace st') = Some (Print (FailedToEnsureHealthy (max_retries st))) ∧
    (∀ name debug dev tr, max_retries (init name debug dev tr) = 3) ∧
    st' = emit (Print (FailedToEnsureHealthy (max_retries st)))
            (foldl (failed_round O) st (seqZ 0 (max_retries st))) ∧
    failed_rounds O (seqZ 0 (max_retries st)) st = Z.to_nat (max_retries st).
Proof.
  intros Hbad Hno. unfold ensure_healthy, bind, get_max_retries.
  destruct (attempts_exhausted O Hbad Hno (seqZ 0 (max_retries st)) st)
    as (st' & evs & Hrun & Ht & Hm & Hc & Hlast).
  destruct (attempts_failed_rounds O Hbad Hno (seqZ 0 (max_retries st)) st)
    as [Hrounds Hcount].
  exists st'. rewrite Ht, events_since_app, Hc.
  split_and!; [done | | | | done | | ].
  - rewrite <- (fmap_add_seqZ 1 0), <- list_fmap_compose. apply list_fmap_ext.
    intros _ i _. simpl. f_equal. lia.
  - by rewrite length_fmap, length_seqZ.
  - rewrite last_app, Hlast. done.
  - rewrite Hrounds in Hrun. by injection Hrun as <-.
  - by rewrite Hcount, length_seqZ.
Qed.

(** Nothing answers: the dev server refuses the connection, no DevTools
    endpoint shows the plug-in, AppleScript fails. *)
Definition nothing_answers : Oracle :=
  {| dev_server := λ _ _, FetchURLError "<urlopen error [Errno 61] Connection refused>";
     plugin_loaded := λ _ _ _, {| verdict := NotFound; found_on := [] |};
     osascript := λ _ _, RunExit 1 "execution error";
     pkill := λ _, None;
     popen := λ _, None |}.

Lemma ensure_healthy_gives_up_witness :
  ∃ st', ensure_healthy nothing_answers (init "AI SFX Generator" 9230 3001 []) = (false, st') ∧
         attempts_reported (trace st') = [(1, 3); (2, 3); (3, 3)] ∧
         failed_rounds nothing_answers [0; 1; 2] (init "AI SFX Generator" 9230 3001 []) = 3%nat.
Proof.
  destruct (ensure_healthy_gives_up nothing_answers (init "AI SFX Generator" 9230 3001 []))
    as (st' & Hrun & Hattempts & _ & _ & _ & _ & Hcount).
  - intros st. reflexivity.
  - intros st. vm_compute. reflexivity.
  - exists st'. split; [done|]. split; [exact Hattempts | exact Hcount].
Defined.

(** In that world every round checks the health twice, once in the loop
    and once at the start of the recovery, and the loop waits five seconds
    between two rounds: six health checks, three recoveries and two waits
    for three rounds. *)
Lemma ensure_healthy_gives_up_run :
  let st' := (ensure_healthy nothing_answers (init "AI SFX Generator" 9230 3001 [])).2 in
  omap (λ e, if e is Print (PerformingHealthCheck name) then Some name else None) (trace st')
  = replicate 6 "AI SFX Generator" ∧
  omap (λ e, if e is Print StartingAutoRecovery then Some tt else None) (trace st')
  = replicate 3 tt ∧
  omap (λ e, if e is Print WaitingBeforeRetry then Some tt else None) (trace st')
  = replicate 2 tt ∧
  filter (λ seconds, bool_decide (seconds = 5))
    (omap (λ e, if e is Sleep seconds then Some seconds else None) (trace st'))
  = [5; 5].
Proof. vm_compute. by split_and!. Qed.


(** *** The attempts, in any world *)

Lemma take_seqZ_le (a : Z) (k : nat) (n : Z) :
  (k ≤ Z.to_nat n)%nat → take k (seqZ a n) = seqZ a (Z.of_nat k).
Proof.
  intros Hk. unfold seqZ. rewrite <- fmap_take, take_seq, Nat2Z.id. do 2 f_equal. lia.
Qed.

Section Attempts.
Context (O : Oracle).

Lemma attempts_bounded (todo : list Z) (st : State) :
  ∃ r st' evs k,
    attempts O todo st = (r, st') ∧
    trace st' = trace st ++ evs ∧
    max_retries st' = max_retries st ∧
    (k ≤ length todo)%nat ∧
    attempts_reported evs = (λ attempt, (attempt + 1, max_retries st)) <$> take k todo ∧
    (r = false → k = length todo ∧
                 last evs = Some (Print (FailedToEnsureHealthy (max_retries st)))) ∧
    (todo = [] → r = false ∧ evs = [Print (FailedToEnsureHealthy (max_retries st))]).
Proof.
  revert st. induction todo as [|attempt rest IH]; intros st.
  { eexists false, _, [_], 0%nat. by split_and!. }
  simpl. unfold bind at 1.
  destruct (quiet_perform_health_check O st) as (e1 & Ht1 & Hc1 & Hm1).
  destruct (perform_health_check O st) as [health st1]. simpl in Ht1, Hm1.
  destruct (healthy health).
  { eexists true, _, (e1 ++ [_; _]), 0%nat. split; [reflexivity|].
    unfold bind, print, get_debug_port, ret. simpl.
    rewrite Ht1, attempts_reported_app, Hc1, <- !app_assoc. simpl.
    split_and!; try done; lia. }
  unfold bind at 1. unfold get_max_retries at 1.
  unfold bind at 1. unfold print at 1. unfold bind at 1.
  set (st2 := emit _ st1).
  destruct (quiet_auto_recover O st2) as (e2 & Ht2 & Hc2 & Hm2).
  destruct (auto_recover O st2) as [recovered st3]. simpl in Ht2, Hm2.
  assert (Hm3 : max_retries st3 = max_retries st) by (rewrite Hm2; subst st2; simpl; done).
  destruct recovered.
  { eexists true, _, (e1 ++ [Print (PluginUnhealthyAttempt (attempt + 1) (max_retries st1))]
                         ++ e2), 1%nat.
    split; [reflexivity|]. unfold ret. split_and!; try done.
    - rewrite Ht2. subst st2. simpl. by rewrite Ht1, <- !app_assoc.
    - simpl. lia.
    - rewrite !attempts_reported_app, Hc1, Hc2. simpl. by rewrite Hm1. }
  unfold bind at 1. unfold get_max_retries at 1. unfold bind at 1.
  assert (Hwait : ∃ st4 e3,
            (if attempt <? max_retries st3 - 1
             then print WaitingBeforeRetry ;;; sleep 5 else ret tt) st3 = (tt, st4) ∧
            trace st4 = trace st3 ++ e3 ∧ attempts_reported e3 = [] ∧
            max_retries st4 = max_retries st3).
  { destruct (attempt <? max_retries st3 - 1).
    - eexists _, [_; _].
      split_and!; [reflexivity | simpl; by rewrite <- app_assoc | done | done].
    - eexists _, []. by rewrite app_nil_r. }
  destruct Hwait as (st4 & e3 & -> & Ht4 & Hc4 & Hm4).
  destruct (IH st4) as (r & st' & e4 & k & Hrun & Ht' & Hm' & Hk & Hc' & Hfalse & _).
  rewrite Hrun.
  assert (Hn : max_retries st4 = max_retries st) by (by rewrite Hm4).
  exists r, st', (e1 ++ [Print (PluginUnhealthyAttempt (attempt + 1) (max_retries st1))]
                    ++ e2 ++ e3 ++ e4), (S k).
  split_and!; try done.
  - rewrite Ht', Ht4, Ht2. subst st2. simpl. rewrite Ht1. by rewrite <- !app_assoc.
  - by rewrite Hm', Hn.
  - simpl. lia.
  - rewrite !attempts_reported_app, Hc1, Hc2, Hc4, Hc'. simpl. by rewrite Hm1, Hn.
  - intros Hr. destruct (Hfalse Hr) as [-> Hlast]. split; [done|].
    rewrite !app_assoc. rewrite last_app, Hlast. simpl. by rewrite Hn.
Qed.

End Attempts.

(** X26.  Whatever the world does, [ensure_healthy] announces the attempts
    1, 2, ..., k in this order, each out of [max_retries], for some k that
    is at most [max_retries]; it returns [False] only after all
    [max_retries] attempts were announced, and its last line then says so.
    With [max_retries] zero or negative it returns [False] at once: no
    check is made and only that last line is printed. *)
Theorem ensure_healthy_attempts_bounded (O : Oracle) (st : State) :
  ∃ r st' k,
    ensure_healthy O st = (r, st') ∧
    max_retries st' = max_retries st ∧
    0 ≤ k ≤ Z.max 0 (max_retries st) ∧
    attempts_reported (events_since (trace st) (trace st'))
      = (λ i, (i, max_retries st)) <$> seqZ 1 k ∧
    (r = false →
     k = Z.max 0 (max_retries st) ∧
     last (trace st') = Some (Print (FailedToEnsureHealthy (max_retries st)))) ∧
    (max_retries st ≤ 0 →
     r = false ∧
     events_since (trace st) (trace st') = [Print (FailedToEnsureHealthy (max_retries st))]).
Proof.
  unfold ensure_healthy, bind, get_max_retries.
  destruct (attempts_bounded O (seqZ 0 (max_retries st)) st)
    as (r & st' & evs & k & Hrun & Ht & Hm & Hk & Hc & Hfalse & Hnil).
  rewrite length_seqZ in Hk.
  exists r, st', (Z.of_nat k). rewrite Ht, events_since_app, Hc.
  split_and!; [done | done | lia | lia | | |].
  - rewrite take_seqZ_le, <- (fmap_add_seqZ 1 0), <- list_fmap_compose by done.
    apply list_fmap_ext. intros _ i _. simpl. f_equal. lia.
  - intros Hr. destruct (Hfalse Hr) as [-> Hlast]. rewrite length_seqZ.
    split; [lia|]. by rewrite last_app, Hlast.
  - intros Hmax. apply Hnil. unfold seqZ. by replace (Z.to_nat (max_retries st)) with 0%nat by lia.
Qed.


(** *** What a recovery leaves alone *)

(** A computation none of whose events is of the kind [P]. *)
Definition silent (P : Event → bool) {A} (m : M A) : Prop :=
  ∀ st, ∃ evs, trace (m st).2 = trace st ++ evs ∧ Forall (λ e, P e = false) evs.

Lemma silent_ret P {A} (a : A) : silent P (ret a).
Proof. intros st. exists []. by rewrite app_nil_r. Qed.

Lemma silent_bind P {A B} (m : M A) (f : A → M B) :
  silent P m → (∀ a, silent P (f a)) → silent P (bind m f).
Proof.
  intros Hm Hf st. unfold bind. destruct (Hm st) as (e1 & Ht1 & Hp1).
  destruct (m st) as [a st1]. simpl in *.
  destruct (Hf a st1) as (e2 & Ht2 & Hp2).
  exists (e1 ++ e2). rewrite Ht2, Ht1, app_assoc. split; [done|]. by apply Forall_app.
Qed.

Lemma silent_emit P {A} (e : Event) (a : A) : P e = false → silent P (λ st, (a, emit e st)).
Proof. intros He st. exists [e]. split; [done|]. by constructor. Qed.

(** The kinds of events told apart below: restarting the dev server,
    running an AppleScript, and the line that reports a failed restart. *)
Definition is_restart (e : Event) : bool :=
  match e with Pkill _ | Popen _ => true | _ => false end.

Definition is_script (e : Event) : bool :=
  match e with Osascript _ _ => true | _ => false end.

Definition is_restart_failure (e : Event) : bool :=
  match e with Print FailedToRestartDevServer => true | _ => false end.

Create HintDb silent.

Ltac silent_step :=
  first
    [ solve [auto 2 with silent nocore]
    | simple apply silent_bind; [|intros ?]
    | match goal with
      | |- silent _ (if ?c then _ else _) => destruct c
      | |- silent _ (match ?x with _ => _ end) => destruct x
      end ].

Ltac silent_steps := repeat silent_step.

Section Silent.
Context (O : Oracle) (P : Event → bool).
Hypothesis P_get : ∀ port a, P (DevServerGet port a) = false.
Hypothesis P_probe : ∀ a, P (PluginLoaded a) = false.
Hypothesis P_sleep : ∀ seconds, P (Sleep seconds) = false.
Hypothesis P_print : ∀ m, m ≠ FailedToRestartDevServer → P (Print m) = false.

Lemma silent_print m : m ≠ FailedToRestartDevServer → silent P (print m).
Proof. intros Hm. apply silent_emit. by apply P_print. Qed.

Lemma silent_sleep seconds : silent P (sleep seconds).
Proof. by apply silent_emit. Qed.

Lemma silent_get_plugin_name : silent P get_plugin_name.
Proof. intros st. exists []. by rewrite app_nil_r. Qed.

Lemma silent_check_dev_server : silent P (check_dev_server O).
Proof.
  intros st. exists [DevServerGet (dev_port st) (dev_server O (trace st) (dev_port st))].
  split; [|by constructor]. unfold check_dev_server.
  by destruct (dev_server O (trace st) (dev_port st)) as [status| |]; [destruct (status =? 200)| |].
Qed.

Lemma silent_found_plugin_on port : silent P (found_plugin_on port).
Proof.
  intros st. unfold found_plugin_on. destruct (bool_decide (port = debug_port st)).
  - exists []. by rewrite app_nil_r.
  - eexists [_]. split; [done|]. constructor; [by apply P_print | done].
Qed.

Lemma silent_found_plugin_on_each ports : silent P (found_plugin_on_each ports).
Proof.
  induction ports as [|port rest IH]; simpl; [apply silent_ret|].
  apply silent_bind; [apply silent_found_plugin_on | done].
Qed.

Lemma silent_check_plugin_loaded : silent P (check_plugin_loaded O).
Proof.
  unfold check_plugin_loaded. apply silent_bind.
  { intros st. eexists [_]. split; [done|]. by constructor. }
  intros a. apply silent_bind; [apply silent_found_plugin_on_each | intros _; apply silent_ret].
Qed.

#[local] Hint Resolve silent_ret silent_sleep silent_get_plugin_name silent_check_dev_server
  silent_check_plugin_loaded : silent.
#[local] Hint Extern 1 (silent _ (print _)) => apply silent_print; discriminate : silent.

Lemma silent_perform_health_check : silent P (perform_health_check O).
Proof. unfold perform_health_check. silent_steps. Qed.

Lemma silent_wait_for_dev_server tries : silent P (wait_for_dev_server O tries).
Proof. induction tries as [|tries IH]; simpl; silent_steps. Qed.

#[local] Hint Resolve silent_perform_health_check silent_wait_for_dev_server : silent.

Lemma silent_restart_dev_server :
  (∀ a, P (Pkill a) = false ∧ P (Popen a) = false) → silent P (restart_dev_server O).
Proof.
  intros P_restart.
  assert (silent P (run_pkill O)) by (intros st; eexists [_]; split; [done|]; constructor;
                                      [apply P_restart | done]).
  assert (silent P (spawn_dev_server O)) by (intros st; eexists [_]; split; [done|]; constructor;
                                             [apply P_restart | done]).
  unfold restart_dev_server. silent_steps.
Qed.

Lemma silent_run_osascript s :
  (∀ s a, P (Osascript s a) = false) → silent P (run_osascript O s).
Proof. intros P_script st. eexists [_]. split; [done|]. by constructor. Qed.

Lemma silent_reload_steps :
  (∀ s a, P (Osascript s a) = false) → silent P (reload_steps O).
Proof.
  intros P_script.
  pose proof (λ s, silent_run_osascript s P_script) as Hrun.
  unfold reload_steps, reload_plugin_panel, trigger_premiere_reload. silent_steps.
Qed.

End Silent.

Lemma silent_not_elem_of P {A} (m : M A) (st : State) e :
  silent P m → P e = true → e ∉ events_since (trace st) (trace (m st).2).
Proof.
  intros Hm He Hin. destruct (Hm st) as (evs & Ht & Hall).
  rewrite Ht, events_since_app in Hin. rewrite Forall_forall in Hall.
  apply Hall in Hin. congruence.
Qed.


Section Restraint.
Context (O : Oracle).

(** The three kinds on the parts of [auto_recover]. *)
Lemma perform_health_check_silent P :
  P = is_restart ∨ P = is_script ∨ P = is_restart_failure →
  silent P (perform_health_check O).
Proof.
  intros [->|[->| ->]]; apply silent_perform_health_check; try done; intros m Hm; by destruct m.
Qed.

Lemma restart_dev_server_silent P :
  P = is_script ∨ P = is_restart_failure → silent P (restart_dev_server O).
Proof.
  intros [->| ->]; apply silent_restart_dev_server; try done; intros m Hm; by destruct m.
Qed.

Lemma reload_steps_silent P :
  P = is_restart ∨ P = is_restart_failure → silent P (reload_steps O).
Proof.
  intros [->| ->]; apply silent_reload_steps; try done; intros m Hm; by destruct m.
Qed.

Lemma auto_recover_run (st st' : State) (r : bool) :
  auto_recover O st = (r, st') →
  ∃ evs,
    trace st' = trace st ++ evs ∧
    (dev_server_ok (perform_health_check O (emit (Print StartingAutoRecovery) st)).1 = true →
     Forall (λ e, is_restart e = false) evs) ∧
    (Forall (λ e, is_restart_failure e = false) evs ∨
     (r = false ∧ Forall (λ e, is_script e = false) evs)).
Proof.
  unfold auto_recover. unfold bind at 1. unfold print at 1.
  set (st0 := emit (Print StartingAutoRecovery) st). unfold bind at 1.
  destruct (perform_health_check_silent is_restart (or_introl eq_refl) st0) as (e1 & Ht1 & Hr1).
  destruct (perform_health_check_silent is_script (or_intror (or_introl eq_refl)) st0)
    as (e1' & Ht1' & Hs1).
  destruct (perform_health_check_silent is_restart_failure (or_intror (or_intror eq_refl)) st0)
    as (e1'' & Ht1'' & Hf1).
  rewrite Ht1 in Ht1', Ht1''. apply app_inv_head in Ht1', Ht1''. subst e1' e1''.
  destruct (perform_health_check O st0) as [health st1]. cbn [fst snd] in *.
  assert (Hst0 : trace st0 = trace st ++ [Print StartingAutoRecovery]) by done.
  destruct (healthy health).
  { unfold bind, print, ret. intros [= <- <-].
    exists ([Print StartingAutoRecovery] ++ e1 ++ [Print HealthyNoRecoveryNeeded]).
    cbn [emit trace]. rewrite Ht1, Hst0, <- !app_assoc.
    split; [done|]. split; [intros _|left]; repeat (apply Forall_app; split);
      by repeat constructor. }
  unfold bind at 1.
  destruct (dev_server_ok health) eqn:Hdev; cbn [negb].
  - (* the dev server answered: no restart *)
    unfold ret at 1. cbn [negb].
    destruct (negb (plugin_loaded_ok health) || _).
    + destruct (reload_steps_silent is_restart (or_introl eq_refl) st1) as (e3 & Ht3 & Hr3).
      destruct (reload_steps_silent is_restart_failure (or_intror eq_refl) st1)
        as (e3' & Ht3' & Hf3).
      rewrite Ht3 in Ht3'. apply app_inv_head in Ht3'. subst e3'.
      destruct (reload_steps O st1) as [r3 st3]. cbn [fst snd] in *. intros [= <- <-].
      exists ([Print StartingAutoRecovery] ++ e1 ++ e3).
      rewrite Ht3, Ht1, Hst0, <- !app_assoc.
      split; [done|]. split; [intros _|left]; repeat (apply Forall_app; split);
        by repeat constructor.
    + unfold bind, print, ret. intros [= <- <-].
      exists ([Print StartingAutoRecovery] ++ e1 ++ [Print AutoRecoveryFailed]).
      cbn [emit trace]. rewrite Ht1, Hst0, <- !app_assoc.
      split; [done|]. split; [intros _|left]; repeat (apply Forall_app; split);
        by repeat constructor.
  - (* the dev server did not answer: it is restarted first *)
    unfold bind at 1. unfold print at 1. unfold bind at 1.
    set (st2 := emit (Print Step1RestartingDevServer) st1).
    assert (Hst2 : trace st2 = trace st1 ++ [Print Step1RestartingDevServer]) by done.
    destruct (restart_dev_server_silent is_script (or_introl eq_refl) st2) as (e2 & Ht2 & Hs2).
    destruct (restart_dev_server_silent is_restart_failure (or_intror eq_refl) st2)
      as (e2' & Ht2' & Hf2).
    rewrite Ht2 in Ht2'. apply app_inv_head in Ht2'. subst e2'.
    destruct (restart_dev_server O st2) as [ok st3]. cbn [fst snd] in *.
    destruct ok.
    + unfold bind at 1. unfold sleep at 1. unfold ret at 1. cbn [negb].
      set (st4 := emit (Sleep 3) st3).
      assert (Hst4 : trace st4 = trace st3 ++ [Sleep 3]) by done.
      destruct (negb (plugin_loaded_ok health) || _).
      * destruct (reload_steps_silent is_restart_failure (or_intror eq_refl) st4)
          as (e3 & Ht3 & Hf3).
        destruct (reload_steps O st4) as [r3 st5]. cbn [fst snd] in *. intros [= <- <-].
        exists ([Print StartingAutoRecovery] ++ e1 ++ [Print Step1RestartingDevServer] ++ e2 ++
                [Sleep 3] ++ e3).
        rewrite Ht3, Hst4, Ht2, Hst2, Ht1, Hst0, <- !app_assoc.
        split; [done|]. split; [done|]. left. repeat (apply Forall_app; split);
          by repeat constructor.
      * unfold bind, print, ret. intros [= <- <-].
        exists ([Print StartingAutoRecovery] ++ e1 ++ [Print Step1RestartingDevServer] ++ e2 ++
                [Sleep 3] ++ [Print AutoRecoveryFailed]).
        cbn [emit trace].
        rewrite Hst4, Ht2, Hst2, Ht1, Hst0, <- !app_assoc.
        split; [done|]. split; [done|]. left. repeat (apply Forall_app; split);
          by repeat constructor.
    + unfold bind at 1. unfold print at 1. unfold ret at 1. cbn [negb fst snd].
      unfold ret. intros [= <- <-].
      exists ([Print StartingAutoRecovery] ++ e1 ++ [Print Step1RestartingDevServer] ++ e2 ++
              [Print FailedToRestartDevServer]).
      cbn [emit trace]. rewrite Ht2, Hst2, Ht1, Hst0, <- !app_assoc.
      split; [done|]. split; [done|]. right. split; [done|].
      repeat (apply Forall_app; split); by repeat constructor.
Qed.

End Restraint.

(** X27.  What [auto_recover] holds back.  When the dev server answered
    the health check with status 200, the recovery neither kills nor
    starts a dev server.  And when the line "Failed to restart dev server"
    is printed, the recovery has returned [False] and has run no
    AppleScript: Premiere Pro is left alone as long as the dev server
    cannot be brought up. *)
Theorem auto_recover_restraint (O : Oracle) (st st' : State) (r : bool) :
  auto_recover O st = (r, st') →
  let evs := events_since (trace st) (trace st') in
  (dev_server_ok (perform_health_check O (emit (Print StartingAutoRecovery) st)).1 = true →
   ∀ e, e ∈ evs → is_restart e = false) ∧
  (Print FailedToRestartDevServer ∈ evs →
   r = false ∧ ∀ e, e ∈ evs → is_script e = false).
Proof.
  intros Hrun. cbv zeta.
  destruct (auto_recover_run O st st' r Hrun) as (evs & Ht & Hdev & Hfail).
  rewrite Ht, events_since_app.
  split.
  - intros Hok e He. specialize (Hdev Hok). rewrite Forall_forall in Hdev. by apply Hdev.
  - intros Hin. destruct Hfail as [Hnone|[-> Hscript]].
    + rewrite Forall_forall in Hnone. by apply Hnone in Hin.
    + split; [done|]. intros e He. rewrite Forall_forall in Hscript. by apply Hscript.
Qed.

Lemma auto_recover_restraint_witness :
  let st := init "AI SFX Generator" 9230 3001 [] in
  let run := auto_recover nothing_answers st in
  run.1 = false ∧
  ∀ e, e ∈ events_since (trace st) (trace run.2) → is_script e = false.
Proof.
  intros st run.
  pose proof (auto_recover_restraint nothing_answers st run.2 run.1 (surjective_pairing _))
    as [_ Hfail].
  apply Hfail. apply (list_elem_of_lookup_2 _ 71). vm_compute. reflexivity.
Defined.


(** *** Waiting for the dev server *)

(** The answers to the checks of the dev server, and the seconds slept. *)
Definition dev_checks (evs : list Event) : list Fetch :=
  omap (λ e, if e is DevServerGet _ a then Some a else None) evs.

Definition slept (evs : list Event) : list Z :=
  omap (λ e, if e is Sleep seconds then Some seconds else None) evs.

Lemma dev_checks_app evs1 evs2 : dev_checks (evs1 ++ evs2) = dev_checks evs1 ++ dev_checks evs2.
Proof. apply omap_app. Qed.

Lemma slept_app evs1 evs2 : slept (evs1 ++ evs2) = slept evs1 ++ slept evs2.
Proof. apply omap_app. Qed.

Section Waiting.
Context (O : Oracle).

Lemma check_dev_server_run (st : State) :
  let a := dev_server O (trace st) (dev_port st) in
  (check_dev_server O st).2 = emit (DevServerGet (dev_port st) a) st ∧
  ((check_dev_server O st).1.1 = true ↔ a = FetchStatus 200).
Proof.
  cbv zeta. unfold check_dev_server.
  destruct (dev_server O (trace st) (dev_port st)) as [status|text|text];
    [destruct (Z.eqb_spec status 200) as [->|Hne]| |]; cbn [fst snd];
    (split; [done|]); split; try done; congruence.
Qed.

Lemma wait_for_dev_server_run (tries : nat) (st st' : State) (r : bool) :
  wait_for_dev_server O tries st = (r, st') →
  ∃ evs,
    trace st' = trace st ++ evs ∧
    (length (dev_checks evs) ≤ tries)%nat ∧
    (r = true →
     last (dev_checks evs) = Some (FetchStatus 200) ∧
     last evs = Some (Print DevServerRestarted) ∧
     slept evs = replicate (length (dev_checks evs) - 1) 1) ∧
    (r = false →
     length (dev_checks evs) = tries ∧
     Forall (λ a, a ≠ FetchStatus 200) (dev_checks evs) ∧
     slept evs = replicate tries 1 ∧
     Forall (λ e, if e is Print _ then False else True) evs).
Proof.
  revert st. induction tries as [|tries IH]; intros st; cbn [wait_for_dev_server].
  { unfold ret. intros [= <- <-]. exists []. rewrite app_nil_r. by split_and!. }
  unfold bind at 1. destruct (check_dev_server_run st) as [Hst1 Hok].
  destruct (check_dev_server O st) as [[ok message] st1]. cbn [fst snd] in *. subst st1.
  set (a := dev_server O (trace st) (dev_port st)) in *.
  destruct ok.
  - unfold bind, print, ret. intros [= <- <-].
    exists [DevServerGet (dev_port st) a; Print DevServerRestarted].
    assert (Ha : a = FetchStatus 200) by by apply Hok.
    cbn. rewrite <- app_assoc. split_and!; try done; [lia | by rewrite Ha].
  - unfold bind at 1. unfold sleep at 1.
    intros (evs & Ht & Hlen & Htrue & Hfalse)%IH.
    assert (Ha : a ≠ FetchStatus 200) by (intros Ha; by apply Hok in Ha).
    exists ([DevServerGet (dev_port st) a; Sleep 1] ++ evs).
    rewrite Ht. cbn [emit trace]. rewrite <- !app_assoc.
    rewrite dev_checks_app, slept_app. cbn [dev_checks slept omap list_omap app length].
    split_and!; [done | lia | |].
    + intros Hr. destruct (Htrue Hr) as (Hlast & Hlast' & Hslept).
      destruct (dev_checks evs) as [|a' checks] eqn:Hchecks; [done|].
      destruct evs as [|e evs']; [done|].
      split_and!; [done | done |]. rewrite Hslept. cbn [length]. 
      by replace (S (S (length checks)) - 1)%nat with (S (S (length checks) - 1)) by lia.
    + intros Hr. destruct (Hfalse Hr) as (Hn & Hall & Hslept & Hquiet).
      rewrite Hn, Hslept. split_and!; try done; by repeat constructor.
Qed.

End Waiting.

(** X28.  [restart_dev_server] checks the dev server at most 30 times.  It
    returns [True] right after the first check that is answered with
    status 200, having slept 2 seconds and then 1 second after every
    failed check.  It returns [False] either because [pkill] or [npm]
    could not be run, with the error printed and no check made, or after
    30 failed checks and 32 seconds of sleep, and then without a line of
    its own about the failure. *)
Theorem restart_dev_server_waits (O : Oracle) (st st' : State) (r : bool) :
  restart_dev_server O st = (r, st') →
  let evs := events_since (trace st) (trace st') in
  (length (dev_checks evs) ≤ 30)%nat ∧
  (r = true →
   last (dev_checks evs) = Some (FetchStatus 200) ∧
   last evs = Some (Print DevServerRestarted) ∧
   slept evs = 2 :: replicate (length (dev_checks evs) - 1) 1) ∧
  (r = false →
   (∃ text, last evs = Some (Print (FailedToRestartDevServerError text)) ∧
            dev_checks evs = []) ∨
   (length (dev_checks evs) = 30%nat ∧
    Forall (λ a, a ≠ FetchStatus 200) (dev_checks evs) ∧
    slept evs = 2 :: replicate 30 1 ∧
    ∀ m, Print m ∈ evs → m = RestartingDevServer)).
Proof.
  unfold restart_dev_server. unfold bind at 1. unfold print at 1.
  unfold bind at 1. unfold run_pkill at 1. cbn [emit trace].
  destruct (pkill O _) as [text|] eqn:Hkill.
  { unfold bind, print, ret. intros [= <- <-]. cbv zeta. cbn [emit trace].
    rewrite <- !app_assoc, events_since_app. cbn. split_and!; [lia | done |].
    intros _. left. by exists text. }
  unfold bind at 1. unfold sleep at 1. unfold bind at 1. unfold spawn_dev_server at 1.
  cbn [emit trace]. destruct (popen O _) as [text|] eqn:Hspawn.
  { unfold bind, print, ret. intros [= <- <-]. cbv zeta. cbn [emit trace].
    rewrite <- !app_assoc, events_since_app. cbn. split_and!; [lia | done |].
    intros _. left. by exists text. }
  intros (evs & Ht & Hlen & Htrue & Hfalse)%wait_for_dev_server_run.
  cbv zeta. rewrite Ht. cbn [emit trace]. rewrite <- !app_assoc, events_since_app.
  change ([Print RestartingDevServer] ++ [Pkill None] ++ [Sleep 2] ++ [Popen None] ++ evs)
    with (Print RestartingDevServer :: Pkill None :: Sleep 2 :: Popen None :: evs).
  unfold dev_checks, slept in *. cbn [omap list_omap].
  split_and!; [done | |].
  - intros Hr. destruct (Htrue Hr) as (Hlast & Hlast' & Hslept).
    split_and!; [done | | by rewrite Hslept].
    destruct evs as [|e evs']; [done|]. exact Hlast'.
  - intros Hr. destruct (Hfalse Hr) as (Hn & Hall & Hslept & Hquiet). right.
    split_and!; [done | done | by rewrite Hslept |].
    intros m Hin. rewrite Forall_forall in Hquiet.
    apply elem_of_cons in Hin as [[= ->]|Hin]; [done|].
    do 3 (apply elem_of_cons in Hin as [[=]|Hin]). by apply Hquiet in Hin.
Qed.


Lemma restart_dev_server_waits_witness :
  let st := init "AI SFX Generator" 9230 3001 [] in
  let run := restart_dev_server nothing_answers st in
  run.1 = false ∧
  (length (dev_checks (events_since (trace st) (trace run.2))) ≤ 30)%nat.
Proof.
  intros st run. split; [vm_compute; reflexivity|].
  pose proof (restart_dev_server_waits nothing_answers st run.2 run.1 (surjective_pairing _))
    as H.
  cbv zeta in H. destruct H as [H _]. exact H.
Defined.

End Health.

(** * [check_plugin_loaded], request by request

    [PluginHealthChecker.check_plugin_loaded] asks up to five DevTools
    endpoints and classifies the first target that looks like the plug-in.
    The health checker above takes its verdict as a whole; here is the
    method itself, on the JSON values of the validator. *)
Module Devtools.

Import Validator (json, JNull, JBool, JInt, JFloat, JStr, JArr, JObj, Exn, HttpAnswer,
  HttpRaised, HttpNotJson, HttpJson, py_get, py_in, py_iter, type_name, Other).
Import Health (PluginStatus, LoadedCorrectly, ConnectionRefused, PageFailed, Loaded, NotFound,
  Target).

Inductive Event :=
| Get (port : Z) (a : HttpAnswer)   (* GET http://localhost:port/json, read and decoded *)
| FoundOn (port old : Z)            (* the line "Found plugin on port ... (not ...)" *).

(** The text of that line. *)
Definition found_line (port old : Z) : string :=
  "  📍 Found plugin on port " +:+ pretty port +:+ " (not " +:+ pretty old +:+ ")".

Record Oracle := {
  http_json : list Event → Z → HttpAnswer;
}.

(** [self.debug_port], which the method may change, and the history;
    [self.plugin_name] does not change and is an argument. *)
Record State := {
  debug_port : Z;
  trace : list Event;
}.

(** Computations that may raise; what was done before a raise stays done. *)
Definition M (A : Type) : Type := State → (Exn + A) * State.

Definition ret {A} (a : A) : M A := λ st, (inr a, st).
Definition bind {A B} (m : M A) (f : A → M B) : M B :=
  λ st, match m st with
        | (inr a, st') => f a st'
        | (inl e, st') => (inl e, st')
        end.
Definition lift {A} (r : Exn + A) : M A := λ st, (r, st).

Declare Scope devtools_scope.
Notation "x <- m ;; k" := (bind m (λ x, k))
  (at level 62, m at next level, right associativity) : devtools_scope.
Notation "m ;;; k" := (bind m (λ _, k))
  (at level 62, right associativity) : devtools_scope.
#[local] Open Scope devtools_scope.

Definition get_debug_port : M Z := λ st, (inr (debug_port st), st).

(** [print(...); self.debug_port = port] *)
Definition move_debug_port (port : Z) : M unit :=
  λ st, (inr tt, {| debug_port := port;
                    trace := trace st ++ [FoundOn port (debug_port st)] |}).

(** The port on which a verdict found the plug-in. *)
Definition status_port (s : PluginStatus) : option Z :=
  match s with
  | LoadedCorrectly port _ | ConnectionRefused port _ | PageFailed port _ | Loaded port _ =>
      Some port
  | NotFound => None
  end.

Section WithOracle.
(** [str(url)] is the URL itself when it is a string; for the other JSON
    values Python's [repr] is not modelled and is a parameter. *)
Context (py_repr : json → string) (O : Oracle) (name : string).

Definition py_str (v : json) : string :=
  match v with JStr s => s | _ => py_repr v end.

(** The [if]/[elif]/[else] that chooses what to return for a target. *)
Definition classify (port : Z) (target : Target) (title url : json) : Exn + PluginStatus :=
  match py_in "localhost:3001" url with
  | inl e => inl e
  | inr on_dev_server =>
      match (if on_dev_server then py_in "data:text/html" url else inr true) with
      | inl e => inl e
      | inr is_data =>
          if on_dev_server && negb is_data then inr (LoadedCorrectly port target)
          else
            match py_in "Page failed to load" title with
            | inl e => inl e
            | inr failed_title =>
                match (if failed_title then inr true else py_in "data:text/html" url) with
                | inl e => inl e
                | inr failed =>
                    if failed then
                      if str_contains "ERR_CONNECTION_REFUSED" (py_str url)
                      then inr (ConnectionRefused port target)
                      else inr (PageFailed port target)
                    else inr (Loaded port target)
                end
            end
      end
  end.

(** [self.plugin_name in title or 'Page failed to load' in title] *)
Definition looks_like_plugin (title : json) : Exn + bool :=
  match py_in name title with
  | inl e => inl e
  | inr true => inr true
  | inr false => py_in "Page failed to load" title
  end.

(** The loop over the targets of one endpoint; [None] when the loop ends
    without a [return]. *)
Fixpoint scan_targets (port : Z) (targets : list json) : M (option PluginStatus) :=
  match targets with
  | [] => ret None
  | target :: rest =>
      title <- lift (py_get target "title" (JStr "")) ;;
      url <- lift (py_get target "url" (JStr "")) ;;
      ours <- lift (looks_like_plugin title) ;;
      if (ours : bool) then
        current <- get_debug_port ;;
        (if bool_decide (port ≠ current) then move_debug_port port else ret tt) ;;;
        verdict <- lift (classify port (if target is JObj fields then fields else []) title url) ;;
        ret (Some verdict)
      else scan_targets port rest
  end.

Definition urlopen_json (port : Z) : M json :=
  λ st, let a := http_json O (trace st) port in
        let st' := {| debug_port := debug_port st; trace := trace st ++ [Get port a] |} in
        match a with
        | HttpRaised e => (inl e, st')
        | HttpNotJson message => (inl (Other message), st')
        | HttpJson targets => (inr targets, st')
        end.

(** The body of the [try]. *)
Definition ask_port (port : Z) : M (option PluginStatus) :=
  targets <- urlopen_json port ;;
  items <- lift (py_iter targets) ;;
  scan_targets port items.

(** The loop over the ports; [except: continue] goes on with the next
    port whatever was raised. *)
Fixpoint ask_ports (ports : list Z) (st : State) : PluginStatus * State :=
  match ports with
  | [] => (NotFound, st)
  | port :: rest =>
      match ask_port port st with
      | (inr (Some verdict), st') => (verdict, st')
      | (inr None, st') | (inl _, st') => ask_ports rest st'
      end
  end.

Definition ports_to_check (st : State) : list Z := [debug_port st; 9230; 9231; 9232; 9233].

Definition check_plugin_loaded (st : State) : PluginStatus * State :=
  ask_ports (ports_to_check st) st.

End WithOracle.

(** The ports that were asked, in order. *)
Definition asked (evs : list Event) : list Z :=
  omap (λ e, if e is Get port _ then Some port else None) evs.


Lemma asked_app evs1 evs2 : asked (evs1 ++ evs2) = asked evs1 ++ asked evs2.
Proof. apply omap_app. Qed.

Section Asking.
Context (py_repr : json → string) (O : Oracle) (name : string).

Lemma classify_port port target title url verdict :
  classify py_repr port target title url = inr verdict → status_port verdict = Some port.
Proof.
  unfold classify.
  repeat first
    [ progress cbn [andb negb]
    | match goal with
      | |- context [py_in ?needle ?v] => destruct (py_in needle v) as [?|[]]
      | |- context [str_contains ?needle ?s] => destruct (str_contains needle s)
      end ];
    try done; by intros [= <-].
Qed.

(** One endpoint's targets: nothing is asked; the debug port stays or
    moves to this port, and it is this port if a verdict is returned. *)
Lemma scan_targets_run port items st out st' :
  scan_targets py_repr name port items st = (out, st') →
  (∃ evs, trace st' = trace st ++ evs ∧ asked evs = []) ∧
  (debug_port st' = debug_port st ∨ debug_port st' = port) ∧
  (∀ verdict, out = inr (Some verdict) →
              status_port verdict = Some port ∧ debug_port st' = port).
Proof.
  revert st. induction items as [|target rest IH]; intros st; cbn [scan_targets].
  { unfold ret. intros [= <- <-]. split_and!; [|by left|done].
    exists []. by rewrite app_nil_r. }
  unfold bind at 1, lift at 1.
  destruct (py_get target "title" (JStr "")) as [e|title].
  { intros [= <- <-]. split_and!; [|by left|done]. exists []. by rewrite app_nil_r. }
  unfold bind at 1, lift at 1.
  destruct (py_get target "url" (JStr "")) as [e|url].
  { intros [= <- <-]. split_and!; [|by left|done]. exists []. by rewrite app_nil_r. }
  unfold bind at 1, lift at 1.
  destruct (looks_like_plugin name title) as [e|[]].
  { intros [= <- <-]. split_and!; [|by left|done]. exists []. by rewrite app_nil_r. }
  2: { apply IH. }
  unfold bind at 1, get_debug_port at 1. unfold bind at 1.
  case_bool_decide as Hmoved.
  - unfold move_debug_port at 1. unfold bind, lift, ret.
    destruct (classify py_repr port _ title url) as [e|verdict] eqn:Hclass;
      intros [= <- <-]; cbn [debug_port trace];
      (split_and!; [by exists [FoundOn port (debug_port st)] | by right |]); [done|].
    intros ? [= <-]. split; [by eapply classify_port | done].
  - assert (Hsame : port = debug_port st) by (by destruct (decide (port = debug_port st))).
    unfold bind, lift, ret.
    destruct (classify py_repr port _ title url) as [e|verdict] eqn:Hclass;
      intros [= <- <-];
      (split_and!; [exists []; by rewrite app_nil_r | by left |]); [done|].
    intros ? [= <-]. split; [by eapply classify_port | done].
Qed.

Lemma ask_port_run port st out st' :
  ask_port py_repr O name port st = (out, st') →
  (∃ evs, trace st' = trace st ++ evs ∧ asked evs = [port]) ∧
  (debug_port st' = debug_port st ∨ debug_port st' = port) ∧
  (∀ verdict, out = inr (Some verdict) →
              status_port verdict = Some port ∧ debug_port st' = port).
Proof.
  unfold ask_port. unfold bind at 1, urlopen_json at 1.
  set (a := http_json O (trace st) port).
  set (st1 := {| debug_port := debug_port st; trace := trace st ++ [Get port a] |}).
  assert (Hquiet : (∃ evs, trace st1 = trace st ++ evs ∧ asked evs = [port]) ∧
                   (debug_port st1 = debug_port st ∨ debug_port st1 = port) ∧
                   ∀ verdict, @inl Exn (option PluginStatus) (Other "") = inr (Some verdict) →
                              status_port verdict = Some port ∧ debug_port st1 = port).
  { split_and!; [by exists [Get port a] | by left | done]. }
  destruct a as [e|message|targets].
  - intros [= <- <-]. split_and!; try apply Hquiet. done.
  - intros [= <- <-]. split_and!; try apply Hquiet. done.
  - unfold bind at 1, lift at 1. destruct (py_iter targets) as [e|items].
    + intros [= <- <-]. split_and!; try apply Hquiet. done.
    + intros ([evs [Ht Hasked]] & Hport & Hverdict)%scan_targets_run.
      split_and!; [|done|done]. exists ([Get port (HttpJson targets)] ++ evs).
      rewrite Ht. cbn [st1 trace]. rewrite <- app_assoc. split; [done|].
      by rewrite asked_app, Hasked.
Qed.

Lemma ask_ports_run ports st verdict st' :
  ask_ports py_repr O name ports st = (verdict, st') →
  ∃ evs,
    trace st' = trace st ++ evs ∧
    asked evs `prefix_of` ports ∧
    (verdict = NotFound → asked evs = ports) ∧
    (∀ port, status_port verdict = Some port →
             last (asked evs) = Some port ∧ debug_port st' = port) ∧
    (debug_port st' = debug_port st ∨ debug_port st' ∈ asked evs).
Proof.
  revert st. induction ports as [|port rest IH]; intros st; cbn [ask_ports].
  { intros [= <- <-]. exists []. rewrite app_nil_r. split_and!; try done. by left. }
  destruct (ask_port py_repr O name port st) as [out st1] eqn:Hask.
  apply ask_port_run in Hask as ([evs1 [Ht1 Hasked1]] & Hport1 & Hverdict1).
  assert (Hnext : ask_ports py_repr O name rest st1 = (verdict, st') →
                  ∃ evs,
                    trace st' = trace st ++ evs ∧
                    asked evs `prefix_of` port :: rest ∧
                    (verdict = NotFound → asked evs = port :: rest) ∧
                    (∀ port0, status_port verdict = Some port0 →
                              last (asked evs) = Some port0 ∧ debug_port st' = port0) ∧
                    (debug_port st' = debug_port st ∨ debug_port st' ∈ asked evs)).
  { intros (evs & Ht & Hprefix & Hnone & Hsome & Hdebug)%IH.
    exists (evs1 ++ evs). rewrite Ht, Ht1, asked_app, Hasked1, <- app_assoc.
    split_and!; [done | by apply prefix_cons | | |].
    - intros Hv. cbn. by rewrite Hnone.
    - intros port0 Hv. destruct (Hsome port0 Hv) as [Hlast ?]. split; [|done].
      cbn [app]. destruct (asked evs); [done|]. exact Hlast.
    - destruct Hdebug as [->|Hin]; [|right; by apply list_elem_of_further].
      destruct Hport1 as [->| ->]; [by left | right; apply list_elem_of_here]. }
  destruct out as [e|[found|]]; [done| |done].
  intros [= <- <-]. destruct (Hverdict1 found eq_refl) as [Hfound Hdebug].
  exists evs1. rewrite Hasked1. split_and!; try done.
  - by exists rest.
  - intros ->. done.
  - intros port0 Hv. rewrite Hfound in Hv. by simplify_eq.
  - right. rewrite Hdebug. apply list_elem_of_here.
Qed.

End Asking.

(** X29.  [check_plugin_loaded] asks the endpoints in the order
    [debug_port], 9230, 9231, 9232, 9233 and stops at the first that shows
    the plug-in: the ports asked are a prefix of that list, the verdict
    names the last port asked, and [self.debug_port] is that port
    afterwards.  "Not found" is returned only after all five requests (so
    that with the default debug port, 9230 is asked twice).  Whatever
    happens, [self.debug_port] ends on one of the five ports. *)
Theorem check_plugin_loaded_asks (py_repr : json → string) (O : Oracle) (name : string)
    (st st' : State) (verdict : PluginStatus) :
  check_plugin_loaded py_repr O name st = (verdict, st') →
  let evs := events_since (trace st) (trace st') in
  asked evs `prefix_of` ports_to_check st ∧
  (verdict = NotFound → asked evs = ports_to_check st) ∧
  (∀ port, status_port verdict = Some port →
           last (asked evs) = Some port ∧ debug_port st' = port) ∧
  debug_port st' ∈ ports_to_check st.
Proof.
  intros (evs & Ht & Hprefix & Hnone & Hsome & Hdebug)%ask_ports_run. cbv zeta.
  rewrite Ht, events_since_app. split_and!; try done.
  destruct Hdebug as [->|Hin]; [apply list_elem_of_here|].
  destruct Hprefix as [rest ->]. apply elem_of_app. by left.
Qed.

(** No endpoint answers. *)
Definition no_endpoint : Oracle :=
  {| http_json := λ _ _, HttpRaised (Validator.URLError "[Errno 61] Connection refused") |}.

Lemma check_plugin_loaded_asks_witness :
  let st := {| debug_port := 9230; trace := [] |} in
  let run := check_plugin_loaded (λ _, "") no_endpoint "AI SFX Generator" st in
  run.1 = NotFound ∧ asked (events_since (trace st) (trace run.2)) = [9230; 9230; 9231; 9232; 9233].
Proof.
  intros st run.
  pose proof (check_plugin_loaded_asks (λ _, "") no_endpoint "AI SFX Generator" st run.2 run.1
                (surjective_pairing _)) as H.
  cbv zeta in H. destruct H as (_ & Hnone & _).
  split; [vm_compute; reflexivity|]. apply Hnone. vm_compute. reflexivity.
Defined.


(** ** A well-formed answer of the first endpoint *)

(** [target.get(key, '')] when it is a string. *)
Definition text_of (key : string) (fields : Target) : option string :=
  match Validator.fields_get key fields with
  | Some (JStr s) => Some s
  | Some _ => None
  | None => Some ""
  end.

Definition well_formed (fields : Target) : Prop :=
  is_Some (text_of "title" fields) ∧ is_Some (text_of "url" fields).

Section FirstMatch.
Context (py_repr : json → string) (O : Oracle) (name : string).

(** The condition of the loop and the choice of the verdict, on strings. *)
Definition matches (title : string) : bool :=
  str_contains name title || str_contains "Page failed to load" title.

Definition ours (fields : Target) : bool :=
  if text_of "title" fields is Some title then matches title else false.

Definition classify_text (port : Z) (target : Target) (title url : string) : PluginStatus :=
  if str_contains "localhost:3001" url && negb (str_contains "data:text/html" url)
  then LoadedCorrectly port target
  else if str_contains "Page failed to load" title || str_contains "data:text/html" url
  then if str_contains "ERR_CONNECTION_REFUSED" url
       then ConnectionRefused port target
       else PageFailed port target
  else Loaded port target.

Definition verdict_for (port : Z) (fields : Target) : PluginStatus :=
  classify_text port fields (default "" (text_of "title" fields))
    (default "" (text_of "url" fields)).

Lemma classify_strings port target title url :
  classify py_repr port target (JStr title) (JStr url)
  = inr (classify_text port target title url).
Proof.
  unfold classify, classify_text. cbn [py_in py_str].
  destruct (str_contains "localhost:3001" url), (str_contains "data:text/html" url),
    (str_contains "Page failed to load" title), (str_contains "ERR_CONNECTION_REFUSED" url);
    reflexivity.
Qed.

Lemma py_get_text key fields text :
  text_of key fields = Some text → py_get (JObj fields) key (JStr "") = inr (JStr text).
Proof.
  unfold text_of, py_get. destruct (Validator.fields_get key fields) as [[]|]; by intros [= <-].
Qed.

Lemma scan_targets_well_formed port objects st :
  Forall well_formed objects →
  scan_targets py_repr name port (JObj <$> objects) st
  = match find ours objects with
    | Some fields =>
        (inr (Some (verdict_for port fields)),
         if bool_decide (port ≠ debug_port st)
         then {| debug_port := port; trace := trace st ++ [FoundOn port (debug_port st)] |}
         else st)
    | None => (inr None, st)
    end.
Proof.
  induction 1 as [|fields objects [[title Htitle] [url Hurl]] _ IH]; [done|].
  cbn [fmap list_fmap scan_targets find]. fold (@fmap list _ _ _ JObj objects).
  unfold bind at 1, lift at 1. rewrite (py_get_text _ _ _ Htitle).
  unfold bind at 1, lift at 1. rewrite (py_get_text _ _ _ Hurl).
  unfold bind at 1, lift at 1. unfold ours at 1. rewrite Htitle.
  unfold looks_like_plugin, matches. cbn [py_in].
  assert (Hverdict : classify py_repr port fields (JStr title) (JStr url)
                     = inr (verdict_for port fields)).
  { unfold verdict_for. rewrite Htitle, Hurl. apply classify_strings. }
  destruct (str_contains name title); cbn [orb];
    [|destruct (str_contains "Page failed to load" title); [|exact IH]];
    unfold bind at 1, get_debug_port at 1; unfold bind at 1;
    (case_bool_decide; [unfold move_debug_port at 1|unfold ret at 1]);
    unfold bind, lift, ret; by rewrite Hverdict.
Qed.

End FirstMatch.

(** X30.  When the endpoint of [self.debug_port] answers with a list of
    objects whose titles and URLs, where present, are strings, and one of
    them has the plug-in name or "Page failed to load" in its title, the
    verdict is about the first such target and is decided by its title and
    URL alone: loaded correctly when the URL has "localhost:3001" and not
    "data:text/html", whatever [self.dev_port] is; else failed when the
    title or the URL says so, with a refused connection told apart by the
    URL; else loaded.  One request is made, nothing is printed and
    [self.debug_port] stays. *)
Theorem check_plugin_loaded_first_match (py_repr : json → string) (O : Oracle)
    (name : string) (st : State) (objects : list Target) (fields : Target) :
  http_json O (trace st) (debug_port st) = HttpJson (JArr (JObj <$> objects)) →
  Forall well_formed objects →
  find (ours name) objects = Some fields →
  check_plugin_loaded py_repr O name st
  = (verdict_for (debug_port st) fields,
     {| debug_port := debug_port st;
        trace := trace st ++ [Get (debug_port st) (HttpJson (JArr (JObj <$> objects)))] |}).
Proof.
  intros Hanswer Hwf Hfind. unfold check_plugin_loaded, ports_to_check. cbn [ask_ports].
  unfold ask_port. unfold bind at 1, urlopen_json at 1. rewrite Hanswer.
  unfold bind at 1, lift at 1. cbn [py_iter].
  rewrite scan_targets_well_formed by done. rewrite Hfind. cbn [debug_port].
  by rewrite bool_decide_eq_false_2 by (by intros []).
Qed.

(** The panel of another extension failed to load; ours is listed after it. *)
Definition failed_page_first : Oracle :=
  {| http_json := λ _ _,
       HttpJson (JArr [JObj [("title", JStr "Page failed to load");
                             ("url", JStr "data:text/html,ERR_CONNECTION_REFUSED")];
                       JObj [("title", JStr "AI SFX Generator");
                             ("url", JStr "http://localhost:3001/main/")]]) |}.

Lemma check_plugin_loaded_first_match_witness :
  (check_plugin_loaded (λ _, "") failed_page_first "AI SFX Generator"
     {| debug_port := 9230; trace := [] |}).1
  = ConnectionRefused 9230 [("title", JStr "Page failed to load");
                            ("url", JStr "data:text/html,ERR_CONNECTION_REFUSED")].
Proof.
  rewrite (check_plugin_loaded_first_match (λ _, "") failed_page_first "AI SFX Generator"
             {| debug_port := 9230; trace := [] |}
             [[("title", JStr "Page failed to load");
               ("url", JStr "data:text/html,ERR_CONNECTION_REFUSED")];
              [("title", JStr "AI SFX Generator"); ("url", JStr "http://localhost:3001/main/")]]
             [("title", JStr "Page failed to load");
              ("url", JStr "data:text/html,ERR_CONNECTION_REFUSED")]).
  - vm_compute. reflexivity.
  - reflexivity.
  - repeat constructor; by eexists.
  - vm_compute. reflexivity.
Defined.

End Devtools.
